(** * Album layout engine: page permutations, locks, configuration, snapshots

    A shallow embedding of the engine part of [album_gui.py] (class
    [AlbumWindow] and the two tree codec functions), with the properties of
    its drop/lock rule, page configuration, optimisation dispatch and
    snapshot codec.

    Conventions.
    - Python [int] is [Z]; a Python [list] is a [list], indexed the Python
      way ([py_index], [py_setitem]: negative indices count from the end,
      out of range raises [IndexError]).
    - A Python [dict] used as a map is a [gmap]; a [set] is a [gset].
    - A Python exception is the [Raise] branch of [result].  [handle_drop]
      can raise only before its first assignment, so its result is either
      an outcome with the new window or the exception alone.  The methods
      that can raise after an assignment ([start_optimization],
      [restore_snapshot]) return the outcome [Raised e] together with the
      window as the exception leaves it.
    - Qt widgets appear only through the values the engine reads or writes
      ([page_config_edit], [num_pages_spin], the two check boxes of each
      image row, the enabled flag of the two buttons).  Redrawing
      ([draw_layout], [update_stats], [update_page_nav]) only reads the
      engine state and is left out. *)

From Stdlib Require Import ZArith QArith.QArith_base String Ascii.
From Stdlib Require Import DecimalString DecimalZ DecimalPos.
From stdpp Require Import gmap list.

#[local] Set Warnings "-register-all".
#[local] Open Scope Z_scope.

(** ** Python preliminaries *)

Inductive exn : Type :=
| IndexError
| ValueError
| AssertionError
| AttributeError.

Inductive result (A : Type) : Type :=
| Ok (a : A)
| Raise (e : exn).
Arguments Ok {A} a.
Arguments Raise {A} e.

#[global] Instance result_bind : MBind result :=
  fun A B (k : A -> result B) (r : result A) =>
    match r with
    | Ok a => k a
    | Raise e => Raise e
    end.

(** [len(l)] *)
Definition len {A : Type} (l : list A) : Z := Z.of_nat (length l).

(** The position a Python index denotes, when it denotes one. *)
Definition py_pos {A : Type} (l : list A) (i : Z) : option nat :=
  if (0 <=? i) && (i <? len l) then Some (Z.to_nat i)
  else if (i <? 0) && (- len l <=? i) then Some (Z.to_nat (len l + i))
  else None.

(** [l[i]] *)
Definition py_index {A : Type} (l : list A) (i : Z) : result A :=
  match py_pos l i with
  | Some n => match l !! n with Some x => Ok x | None => Raise IndexError end
  | None => Raise IndexError
  end.

(** [l[i] = x] *)
Definition py_setitem {A : Type} (l : list A) (i : Z) (x : A) : result (list A) :=
  match py_pos l i with
  | Some n => Ok (<[n := x]> l)
  | None => Raise IndexError
  end.

(** [l.index(x)]: the first position holding [x]. *)
Fixpoint list_index (x : Z) (l : list Z) : option nat :=
  match l with
  | [] => None
  | y :: l' => if decide (y = x) then Some 0%nat else S <$> list_index x l'
  end.

Definition py_list_index (l : list Z) (x : Z) : result Z :=
  match list_index x l with
  | Some n => Ok (Z.of_nat n)
  | None => Raise ValueError
  end.

(** [l[a:b]]: a negative bound counts from the end, both are clamped to
    the list. *)
Definition slice_bound {A : Type} (l : list A) (i : Z) : nat :=
  Z.to_nat (if i <? 0 then Z.max 0 (i + len l) else Z.min i (len l)).

Definition py_slice {A : Type} (l : list A) (a b : Z) : list A :=
  take (slice_bound l b - slice_bound l a) (drop (slice_bound l a) l).

(** [sum(l)] *)
Definition py_sum (l : list Z) : Z := foldr Z.add 0 l.

(** ** The partition tree ([sa.Node])

    The class lives in module [sa_advanced]; the codec below reads and
    writes exactly these six attributes.  The split ratio [t] is a Python
    float; it is only ever carried around here, never computed with, and
    is represented by a rational. *)

Inductive Direction : Type := Horizontal | Vertical.

Inductive Node : Type :=
| mkNode (dir : option Direction) (t : Q) (leaf_id : option Z)
         (locked : bool) (left right : option Node).

Definition node_dir (n : Node) := let 'mkNode d _ _ _ _ _ := n in d.
Definition node_t (n : Node) := let 'mkNode _ t _ _ _ _ := n in t.
Definition node_leaf_id (n : Node) := let 'mkNode _ _ i _ _ _ := n in i.
Definition node_locked (n : Node) := let 'mkNode _ _ _ b _ _ := n in b.
Definition node_left (n : Node) := let 'mkNode _ _ _ _ l _ := n in l.
Definition node_right (n : Node) := let 'mkNode _ _ _ _ _ r := n in r.

(** The dictionary [serialize_tree] builds for one node.  [td_locked] is
    optional because [deserialize_tree] reads it with a default. *)
Inductive TreeDoc : Type :=
| mkTreeDoc (td_dir : option Direction) (td_t : Q) (td_leaf_id : option Z)
            (td_locked : option bool) (td_left td_right : option TreeDoc).

Fixpoint serialize_node (node : Node) : TreeDoc :=
  let 'mkNode d t i b l r := node in
  mkTreeDoc d t i (Some b)
    (match l with Some n => Some (serialize_node n) | None => None end)
    (match r with Some n => Some (serialize_node n) | None => None end).

Definition serialize_tree (node : option Node) : option TreeDoc :=
  match node with
  | None => None
  | Some n => Some (serialize_node n)
  end.

Fixpoint deserialize_node (data : TreeDoc) : Node :=
  let 'mkTreeDoc d t i b l r := data in
  mkNode d t i (default false b)
    (match l with Some x => Some (deserialize_node x) | None => None end)
    (match r with Some x => Some (deserialize_node x) | None => None end).

Definition deserialize_tree (data : option TreeDoc) : option Node :=
  match data with
  | None => None
  | Some x => Some (deserialize_node x)
  end.

(** ** Python strings

    A [str] is a [string] of 8-bit characters; the text of the
    configuration field is taken to be ASCII. *)

(** [c.isspace()] on ASCII: tab to carriage return, the four separators
    28..31, and the blank. *)
Definition is_space (c : ascii) : bool :=
  let n := nat_of_ascii c in
  ((9 <=? n) && (n <=? 13) || (28 <=? n) && (n <=? 31) || (n =? 32))%nat.

Definition is_digit (c : ascii) : bool :=
  let n := nat_of_ascii c in ((48 <=? n) && (n <=? 57))%nat.

Definition is_empty (s : string) : bool :=
  match s with EmptyString => true | String _ _ => false end.

Fixpoint lstrip (s : string) : string :=
  match s with
  | EmptyString => EmptyString
  | String c r => if is_space c then lstrip r else s
  end.

Fixpoint rstrip (s : string) : string :=
  match s with
  | EmptyString => EmptyString
  | String c r =>
      let r' := rstrip r in
      if is_empty r' && is_space c then EmptyString else String c r'
  end.

(** [s.strip()] *)
Definition strip (s : string) : string := rstrip (lstrip s).

(** [c in s] for a one-character [c] *)
Fixpoint contains_char (c : ascii) (s : string) : bool :=
  match s with
  | EmptyString => false
  | String a r => Ascii.eqb a c || contains_char c r
  end.

(** [s.split(c)] for a one-character [c] *)
Fixpoint split_on (c : ascii) (s : string) : list string :=
  match s with
  | EmptyString => [EmptyString]
  | String a r =>
      if Ascii.eqb a c then EmptyString :: split_on c r
      else match split_on c r with
           | h :: rest => String a h :: rest
           | [] => [String a EmptyString]
           end
  end.

(** The digit part of an integer literal as [int] accepts it: at least one
    digit, single underscores only between two digits. *)
Fixpoint digits_shape (after_digit : bool) (s : string) : bool :=
  match s with
  | EmptyString => after_digit
  | String c r =>
      if is_digit c then digits_shape true r
      else if Ascii.eqb c "_" then after_digit && digits_shape false r
      else false
  end.

Fixpoint remove_underscores (s : string) : string :=
  match s with
  | EmptyString => EmptyString
  | String c r =>
      if Ascii.eqb c "_" then remove_underscores r
      else String c (remove_underscores r)
  end.

Definition digits_value (s : string) : result Z :=
  if digits_shape false s then
    match NilEmpty.uint_of_string (remove_underscores s) with
    | Some d => Ok (Z.of_uint d)
    | None => Raise ValueError
    end
  else Raise ValueError.

(** [int(s)] for a [str]: surrounding white space, an optional sign, decimal
    digits. *)
Definition py_int (s : string) : result Z :=
  match strip s with
  | String c r =>
      if Ascii.eqb c "-" then v ← digits_value r; Ok (- v)
      else if Ascii.eqb c "+" then digits_value r
      else digits_value (String c r)
  | EmptyString => Raise ValueError
  end.

(** [str(z)] for an [int] *)
Definition py_str (z : Z) : string := NilZero.string_of_int (Z.to_int z).

(** [[f(x) for x in l]] when [f] may raise *)
Fixpoint py_map {A B : Type} (f : A -> result B) (l : list A) : result (list B) :=
  match l with
  | [] => Ok []
  | x :: l' => y ← f x; ys ← py_map f l'; Ok (y :: ys)
  end.

(** ** Module [random]

    The generator is a stream of raw draws; [randbelow n] reduces the next
    draw modulo [n].  [shuffle], [choice] and [randint] are the standard
    library's algorithms over [randbelow]. *)
Definition Rng : Type := nat -> Z.

Definition randbelow (n : Z) (g : Rng) : Z * Rng :=
  (Z.modulo (g 0%nat) n, fun k => g (S k)).

(** [x[i], x[j] = x[j], x[i]] *)
Definition py_swap {A : Type} (i j : nat) (x : list A) : list A :=
  match x !! j, x !! i with
  | Some a, Some b => <[j := b]> (<[i := a]> x)
  | _, _ => x
  end.

(** The loop of [random.shuffle]: [for i in reversed(range(1, len(x)))]. *)
Fixpoint shuffle_from {A : Type} (i : nat) (x : list A) (g : Rng) : list A * Rng :=
  match i with
  | O => (x, g)
  | S i' =>
      let '(j, g') := randbelow (Z.of_nat (S i)) g in
      shuffle_from i' (py_swap i (Z.to_nat j) x) g'
  end.

Definition random_shuffle {A : Type} (x : list A) (g : Rng) : list A * Rng :=
  shuffle_from (length x - 1) x g.

(** [random.choice(l)] for a non-empty [l] *)
Definition random_choice (l : list Z) (g : Rng) : Z * Rng :=
  let '(j, g') := randbelow (len l) g in (default 0 (l !! Z.to_nat j), g').

(** [random.randint(a, b)] *)
Definition random_randint (a b : Z) (g : Rng) : Z * Rng :=
  let '(j, g') := randbelow (b - a + 1) g in (a + j, g').

(** ** Module [sa_advanced]

    The module is imported by [album_gui.py] and is not part of the sources
    at hand.  The engine calls four of its functions.  The tree builder is
    a parameter of the operations below ([Builder]); the three read-only
    helpers are modelled from the specification. *)
Module sa.

(** Modelled from the spec: [sa.is_power_of_two], absent from the sources;
    "leaf_count must be a power of two". *)
Definition is_power_of_two (n : Z) : bool :=
  (0 <? n) && (Z.land n (n - 1) =? 0).

(** Modelled from the spec: [sa.leaf_ids], absent from the sources;
    "leaf_ids(root) -> set of leaf_id", a node being a leaf iff both
    children are absent.  An absent root has no leaves. *)
Fixpoint node_leaf_ids (n : Node) : gset Z :=
  match n with
  | mkNode _ _ i _ None None =>
      match i with Some k => {[k]} | None => ∅ end
  | mkNode _ _ _ _ l r =>
      (match l with Some x => node_leaf_ids x | None => ∅ end) ∪
      (match r with Some x => node_leaf_ids x | None => ∅ end)
  end.

Definition leaf_ids (root : option Node) : gset Z :=
  match root with Some n => node_leaf_ids n | None => ∅ end.

(** Modelled from the spec: [sa.internal_nodes], absent from the sources;
    "internal_nodes(root) -> sequence of Node", the nodes that have a
    child, root first. *)
Fixpoint internal_nodes (n : Node) : list Node :=
  match n with
  | mkNode _ _ _ _ None None => []
  | mkNode _ _ _ _ l r =>
      n :: (match l with Some x => internal_nodes x | None => [] end) ++
           (match r with Some x => internal_nodes x | None => [] end)
  end.

(** The balanced tree of [2^depth] leaves numbered from [first_id], left to
    right; directions alternate by level. *)
Definition flip (d : Direction) : Direction :=
  match d with Horizontal => Vertical | Vertical => Horizontal end.

Fixpoint full_tree (depth : nat) (first_id : Z) (d : Direction) (t : Q) : Node :=
  match depth with
  | O => mkNode None t (Some first_id) false None None
  | S k =>
      mkNode (Some d) t None false
        (Some (full_tree k first_id (flip d) t))
        (Some (full_tree k (first_id + 2 ^ Z.of_nat k) (flip d) t))
  end.

(** Modelled from the spec: [sa.build_full_tree], absent from the sources;
    "deterministically builds a balanced binary split tree with exactly
    leaf_count leaves (leaf_count must be a power of two ...), using seed
    only to vary split ratios/direction, not leaf topology".  The
    specification leaves open how the seed picks them: here its parity
    picks the root direction and its residue modulo 9 the ratio.  Used only
    to instantiate the [Builder] parameter at concrete inputs. *)
Definition build_full_tree (count seed : Z) : result Node :=
  if is_power_of_two count then
    Ok (full_tree (Z.to_nat (Z.log2 count)) 0
          (if Z.even seed then Horizontal else Vertical)
          (Qmake (1 + seed `mod` 9) 10))
  else Raise AssertionError.

End sa.

(** [sa.build_full_tree(count, seed)]; [Raise AssertionError] is its failed
    assertion on [count]. *)
Definition Builder : Type := Z -> Z -> result Node.

(** ** The window state

    One row of the image list: the image index stored on the item and the
    two check boxes of its [ImageListEntry] widget. *)
Record ImageListEntry : Type := mkEntry {
  entry_idx : Z;
  pool_cb : bool;
  mandatory_cb : bool
}.

(** A key of a snapshot dictionary: an [int] while the snapshot is still the
    object built by [take_snapshot], a [str] once it went through a JSON
    file. *)
Inductive DictKey : Type :=
| KInt (k : Z)
| KStr (k : string).

(** The dictionary [snapshot_data] of [take_snapshot].  [page_titles] is
    optional because [restore_snapshot] reads it with a default (the older
    single [title] key); a dictionary is kept as its list of items.  The
    [settings] entry (gap, label and page-number options) is left out with
    the display settings themselves: they travel through spin boxes and
    check boxes, and no property below concerns them.  ([take_snapshot]
    stores the list object [self.page_titles] itself, not a copy; the
    handlers that edit titles in place are outside this model.) *)
Record SnapshotData : Type := mkSnapshot {
  snap_num_pages : Z;
  snap_page_config : string;
  snap_page_titles : option (list string);
  snap_title : option string;
  snap_trees : list (option TreeDoc);
  snap_perms : list (list Z);
  snap_locks : list (list (DictKey * Z));
  snap_crop_states : list (DictKey * bool);
  snap_forced_aspects : list Z
}.

(** What [OptimizationThread.__init__] receives from the engine state.  Its
    other arguments (preferences, page size, title, steps, mode, the aspect
    ratios of the forced images, the page-number flag) are copies of values
    no property below concerns. *)
Record OptimizationThread : Type := mkWorker {
  w_chunks : list (list Z);
  w_swap_pool : list Z;
  w_pages_locks : list (gmap Z Z);
  w_pages_roots : list (option Node)
}.

Record AlbumWindow : Type := mkWindow {
  image_paths : list string;
  current_folder : option string;   (* [current_folder.name], when a folder is set *)
  image_list : list ImageListEntry;
  image_crop_states : gmap Z bool;
  forced_aspect_ratios : gset Z;
  page_titles : list string;
  pages_roots : list (option Node);
  pages_perms : list (list Z);
  pages_locks : list (gmap Z Z);
  current_page_idx : Z;
  num_pages_spin : Z;
  page_config_edit : string;
  optimize_btn : bool;
  export_btn : bool;
  snapshots : list SnapshotData;
  worker : option OptimizationThread
}.

Definition set_image_crop_states (v : gmap Z bool) (s : AlbumWindow) : AlbumWindow :=
  mkWindow (image_paths s) (current_folder s) (image_list s) v
    (forced_aspect_ratios s) (page_titles s) (pages_roots s)
    (pages_perms s) (pages_locks s) (current_page_idx s) (num_pages_spin s)
    (page_config_edit s) (optimize_btn s) (export_btn s) (snapshots s) (worker s).

Definition set_forced_aspect_ratios (v : gset Z) (s : AlbumWindow) : AlbumWindow :=
  mkWindow (image_paths s) (current_folder s) (image_list s) (image_crop_states s)
    v (page_titles s) (pages_roots s)
    (pages_perms s) (pages_locks s) (current_page_idx s) (num_pages_spin s)
    (page_config_edit s) (optimize_btn s) (export_btn s) (snapshots s) (worker s).

Definition set_page_titles (v : list string) (s : AlbumWindow) : AlbumWindow :=
  mkWindow (image_paths s) (current_folder s) (image_list s) (image_crop_states s)
    (forced_aspect_ratios s) v (pages_roots s)
    (pages_perms s) (pages_locks s) (current_page_idx s) (num_pages_spin s)
    (page_config_edit s) (optimize_btn s) (export_btn s) (snapshots s) (worker s).

Definition set_pages_roots (v : list (option Node)) (s : AlbumWindow) : AlbumWindow :=
  mkWindow (image_paths s) (current_folder s) (image_list s) (image_crop_states s)
    (forced_aspect_ratios s) (page_titles s) v
    (pages_perms s) (pages_locks s) (current_page_idx s) (num_pages_spin s)
    (page_config_edit s) (optimize_btn s) (export_btn s) (snapshots s) (worker s).

Definition set_pages_perms (v : list (list Z)) (s : AlbumWindow) : AlbumWindow :=
  mkWindow (image_paths s) (current_folder s) (image_list s) (image_crop_states s)
    (forced_aspect_ratios s) (page_titles s) (pages_roots s)
    v (pages_locks s) (current_page_idx s) (num_pages_spin s)
    (page_config_edit s) (optimize_btn s) (export_btn s) (snapshots s) (worker s).

Definition set_pages_locks (v : list (gmap Z Z)) (s : AlbumWindow) : AlbumWindow :=
  mkWindow (image_paths s) (current_folder s) (image_list s) (image_crop_states s)
    (forced_aspect_ratios s) (page_titles s) (pages_roots s)
    (pages_perms s) v (current_page_idx s) (num_pages_spin s)
    (page_config_edit s) (optimize_btn s) (export_btn s) (snapshots s) (worker s).

Definition set_current_page_idx (v : Z) (s : AlbumWindow) : AlbumWindow :=
  mkWindow (image_paths s) (current_folder s) (image_list s) (image_crop_states s)
    (forced_aspect_ratios s) (page_titles s) (pages_roots s)
    (pages_perms s) (pages_locks s) v (num_pages_spin s)
    (page_config_edit s) (optimize_btn s) (export_btn s) (snapshots s) (worker s).

Definition set_num_pages_spin (v : Z) (s : AlbumWindow) : AlbumWindow :=
  mkWindow (image_paths s) (current_folder s) (image_list s) (image_crop_states s)
    (forced_aspect_ratios s) (page_titles s) (pages_roots s)
    (pages_perms s) (pages_locks s) (current_page_idx s) v
    (page_config_edit s) (optimize_btn s) (export_btn s) (snapshots s) (worker s).

Definition set_page_config_edit (v : string) (s : AlbumWindow) : AlbumWindow :=
  mkWindow (image_paths s) (current_folder s) (image_list s) (image_crop_states s)
    (forced_aspect_ratios s) (page_titles s) (pages_roots s)
    (pages_perms s) (pages_locks s) (current_page_idx s) (num_pages_spin s)
    v (optimize_btn s) (export_btn s) (snapshots s) (worker s).

Definition set_optimize_btn (v : bool) (s : AlbumWindow) : AlbumWindow :=
  mkWindow (image_paths s) (current_folder s) (image_list s) (image_crop_states s)
    (forced_aspect_ratios s) (page_titles s) (pages_roots s)
    (pages_perms s) (pages_locks s) (current_page_idx s) (num_pages_spin s)
    (page_config_edit s) v (export_btn s) (snapshots s) (worker s).

Definition set_export_btn (v : bool) (s : AlbumWindow) : AlbumWindow :=
  mkWindow (image_paths s) (current_folder s) (image_list s) (image_crop_states s)
    (forced_aspect_ratios s) (page_titles s) (pages_roots s)
    (pages_perms s) (pages_locks s) (current_page_idx s) (num_pages_spin s)
    (page_config_edit s) (optimize_btn s) v (snapshots s) (worker s).

Definition set_snapshots (v : list SnapshotData) (s : AlbumWindow) : AlbumWindow :=
  mkWindow (image_paths s) (current_folder s) (image_list s) (image_crop_states s)
    (forced_aspect_ratios s) (page_titles s) (pages_roots s)
    (pages_perms s) (pages_locks s) (current_page_idx s) (num_pages_spin s)
    (page_config_edit s) (optimize_btn s) (export_btn s) v (worker s).

Definition set_worker (v : option OptimizationThread) (s : AlbumWindow) : AlbumWindow :=
  mkWindow (image_paths s) (current_folder s) (image_list s) (image_crop_states s)
    (forced_aspect_ratios s) (page_titles s) (pages_roots s)
    (pages_perms s) (pages_locks s) (current_page_idx s) (num_pages_spin s)
    (page_config_edit s) (optimize_btn s) (export_btn s) (snapshots s) v.

(** How a method ended.  The source signals none of these by an exception:
    [handle_drop] returns silently, [init_trees] prints and returns,
    [start_optimization] shows a warning box and returns.  The tags name the
    return statement taken, after the error classes of the specification. *)
Inductive outcome : Type :=
| Done
| NotReady              (* nothing loaded: the guard at the top of a method *)
| OutOfRange            (* handle_drop: one of its three early returns *)
| InvalidConfiguration  (* init_trees: ValueError caught, previous trees kept *)
| BuildFailed           (* init_trees: AssertionError caught *)
| OverMandatory         (* start_optimization: "Too Many Mandatory Images" *)
| UnderSupply           (* start_optimization: "Not Enough Images" *)
| Raised (e : exn).     (* an exception left the method *)

(** ** Drop / lock ([AlbumWindow.handle_drop]) *)

(** The loop over [list(locked.items())] that deletes every lock of
    [img_idx] sitting on another leaf. *)
Definition remove_previous_lock (leaf_id img_idx : Z) (locked : gmap Z Z) : gmap Z Z :=
  filter (fun kv : Z * Z => ¬ (kv.1 ≠ leaf_id ∧ kv.2 = img_idx)) locked.

(** The [if img_idx in perm: ... else: ...] block. *)
Definition place_image (leaf_id img_idx : Z) (perm : list Z) : result (list Z) :=
  if bool_decide (img_idx ∈ perm) then
    current_leaf_of_img ← py_list_index perm img_idx;
    if bool_decide (current_leaf_of_img ≠ leaf_id) then
      a ← py_index perm current_leaf_of_img;
      b ← py_index perm leaf_id;
      perm1 ← py_setitem perm leaf_id a;
      py_setitem perm1 current_leaf_of_img b
    else Ok perm
  else py_setitem perm leaf_id img_idx.

Definition handle_drop (page_idx leaf_id img_idx : Z) (s : AlbumWindow)
  : result (outcome * AlbumWindow) :=
  if bool_decide (pages_roots s = []) || (len (pages_roots s) <=? page_idx) then
    Ok (OutOfRange, s)
  else
    perm ← py_index (pages_perms s) page_idx;
    if bool_decide (perm = []) then Ok (OutOfRange, s)
    else
      locked ← py_index (pages_locks s) page_idx;
      if (leaf_id <? 0) || (len perm <=? leaf_id) then Ok (OutOfRange, s)
      else if (img_idx <? 0) || (len (image_paths s) <=? img_idx) then Ok (OutOfRange, s)
      else
        let locked1 := remove_previous_lock leaf_id img_idx locked in
        let locked2 := <[leaf_id := img_idx]> locked1 in
        perm' ← place_image leaf_id img_idx perm;
        perms' ← py_setitem (pages_perms s) page_idx perm';
        locks' ← py_setitem (pages_locks s) page_idx locked2;
        Ok (Done,
            set_forced_aspect_ratios ({[img_idx]} ∪ forced_aspect_ratios s)
              (set_image_crop_states (<[img_idx := false]> (image_crop_states s))
                 (set_pages_locks locks' (set_pages_perms perms' s)))).

(** A drop as a state transformer: an exception propagates to the event
    loop and the window stays as it was. *)
Definition apply_drop (page_idx leaf_id img_idx : Z) (s : AlbumWindow) : AlbumWindow :=
  match handle_drop page_idx leaf_id img_idx s with
  | Ok (_, s') => s'
  | Raise _ => s
  end.

(** ** Page configuration ([AlbumWindow.init_trees]) *)

(** [QSpinBox.setValue] on [num_pages_spin]: minimum 1 (set by [init_ui]),
    maximum 99 (the Qt default). *)
Definition spin_clamp (v : Z) : Z := Z.max 1 (Z.min 99 v).

(** The loop [for c in page_counts: if not sa.is_power_of_two(c): raise]. *)
Definition validate_powers (page_counts : list Z) : result (list Z) :=
  if forallb sa.is_power_of_two page_counts then Ok page_counts
  else Raise ValueError.

(** The parsing part of the [try] block: the window as it leaves it (list
    mode sets the page spin box once the numbers are read) and the counts
    read, or the [ValueError] of [int]. *)
Definition read_page_counts (s : AlbumWindow) : AlbumWindow * result (list Z) :=
  let config_str := strip (page_config_edit s) in
  if contains_char "," config_str then
    match py_map (fun p => py_int (strip p))
            (List.filter (fun p => negb (is_empty (strip p)))
               (split_on "," config_str)) with
    | Raise e => (s, Raise e)
    | Ok page_counts =>
        (set_num_pages_spin (spin_clamp (len page_counts)) s, Ok page_counts)
    end
  else
    match (if is_empty config_str then Ok 4 else py_int config_str) with
    | Raise e => (s, Raise e)
    | Ok slots_per_page =>
        (s, Ok (replicate (Z.to_nat (num_pages_spin s)) slots_per_page))
    end.

(** The whole [try] block: reading, then the power-of-two check. *)
Definition parse_page_config (s : AlbumWindow) : AlbumWindow * result (list Z) :=
  let '(s1, counts) := read_page_counts s in
  (s1, page_counts ← counts; validate_powers page_counts).

(** The [except ValueError] branch and the [if not page_counts] default:
    the counts the method goes on with, or [None] when it returns. *)
Definition fallback_counts (s1 : AlbumWindow) (parsed : result (list Z))
  : option (list Z) :=
  match (match parsed with
         | Ok page_counts => Some page_counts
         | Raise _ =>
             if bool_decide (pages_roots s1 = []) then Some [4] else None
         end) with
  | None => None
  | Some [] => Some [4]
  | Some page_counts => Some page_counts
  end.

(** The titles after reconfiguration: kept by index, synthesised beyond. *)
Definition new_page_titles (s : AlbumWindow) (num_pages : nat) : list string :=
  let default_title := default "Page"%string (current_folder s) in
  map (fun i : nat =>
         match page_titles s !! i with
         | Some title => title
         | None => (default_title ++ " " ++ py_str (Z.of_nat i + 1))%string
         end)
      (seq 0 num_pages).

Definition clamp_page_idx (idx num_pages : Z) : Z :=
  let idx := if num_pages <=? idx then num_pages - 1 else idx in
  if idx <? 0 then 0 else idx.

(** [[sa.build_full_tree(count, seed=42 + i) for i, count in enumerate(page_counts)]] *)
Fixpoint build_roots (build_full_tree : Builder) (i : Z) (page_counts : list Z)
  : result (list (option Node)) :=
  match page_counts with
  | [] => Ok []
  | count :: rest =>
      root ← build_full_tree count (42 + i);
      roots ← build_roots build_full_tree (i + 1) rest;
      Ok (Some root :: roots)
  end.

(** [while len(page_perm) < count: page_perm.append(random.choice(pool_indices))],
    run [missing] times. *)
Fixpoint pad_perm (missing : nat) (page_perm pool_indices : list Z) (g : Rng)
  : list Z * Rng :=
  match missing with
  | O => (page_perm, g)
  | S m =>
      let '(x, g') :=
        if bool_decide (pool_indices = []) then (0, g)
        else random_choice pool_indices g in
      pad_perm m (page_perm ++ [x]) pool_indices g'
  end.

(** The loop [for count in page_counts] that slices the shuffled pool. *)
Fixpoint distribute (page_counts : list Z) (current_idx : Z)
    (pool_indices : list Z) (g : Rng) : list (list Z) * Rng :=
  match page_counts with
  | [] => ([], g)
  | count :: rest =>
      let end_idx := Z.min (current_idx + count) (len pool_indices) in
      let page_perm := py_slice pool_indices current_idx end_idx in
      let '(page_perm', g1) :=
        pad_perm (Z.to_nat (count - len page_perm)) page_perm pool_indices g in
      let '(perms, g2) := distribute rest (current_idx + count) pool_indices g1 in
      (page_perm' :: perms, g2)
  end.

(** The last block: every lock is dropped when the number of pages differs
    from the number of lock maps, else the locks beyond each page's new
    size are deleted. *)
Definition keep_locks (page_counts : list Z) (locks : list (gmap Z Z))
  : list (gmap Z Z) :=
  if bool_decide (length locks ≠ length page_counts) then
    replicate (length page_counts) ∅
  else
    zip_with (fun limit d => filter (fun kv : Z * Z => ¬ (limit <= kv.1)) d)
      page_counts locks.

Definition init_trees (build_full_tree : Builder) (s : AlbumWindow) (g : Rng)
  : outcome * AlbumWindow * Rng :=
  let total_images := len (image_paths s) in
  if total_images =? 0 then (NotReady, set_optimize_btn false s, g)
  else
    let '(s1, parsed) := parse_page_config s in
    match fallback_counts s1 parsed with
    | None => (InvalidConfiguration, s1, g)
    | Some page_counts =>
        let num_pages := len page_counts in
        let s2 := set_page_titles (new_page_titles s1 (length page_counts)) s1 in
        let s3 := set_current_page_idx
                    (clamp_page_idx (current_page_idx s2) num_pages) s2 in
        match build_roots build_full_tree 0 page_counts with
        | Raise _ => (BuildFailed, set_optimize_btn false (set_pages_roots [] s3), g)
        | Ok roots =>
            let s4 := set_pages_roots roots s3 in
            let '(pool_indices, g1) :=
              random_shuffle (Z.of_nat <$> seq 0 (length (image_paths s))) g in
            let '(perms, g2) := distribute page_counts 0 pool_indices g1 in
            let s5 := set_pages_perms perms s4 in
            let s6 := set_pages_locks (keep_locks page_counts (pages_locks s5)) s5 in
            let s7 := set_current_page_idx 0 s6 in
            let enabled := negb (bool_decide (pages_roots s7 = [])) in
            (Done, set_export_btn enabled (set_optimize_btn enabled s7), g2)
        end
    end.

(** The page sizes a call of [init_trees] settles on, if it goes through. *)
Definition page_counts_of (s : AlbumWindow) : option (list Z) :=
  fallback_counts (parse_page_config s).1 (parse_page_config s).2.

(** ** Optimisation dispatch ([AlbumWindow.start_optimization]) *)

(** [len(sa.leaf_ids(r))] *)
Definition leaf_count (root : option Node) : Z :=
  Z.of_nat (size (sa.leaf_ids root)).

(** The loop that sets [has_locks]. *)
Definition has_locks (roots : list (option Node)) : bool :=
  existsb (fun root =>
             match root with
             | Some n => existsb node_locked (sa.internal_nodes n)
             | None => false
             end) roots.

(** [[sa.build_full_tree(count, seed=random.randint(0, 1000000)) for count in page_counts]] *)
Fixpoint rebuild_roots (build_full_tree : Builder) (page_counts : list Z) (g : Rng)
  : result (list (option Node) * Rng) :=
  match page_counts with
  | [] => Ok ([], g)
  | count :: rest =>
      let '(seed, g1) := random_randint 0 1000000 g in
      root ← build_full_tree count seed;
      '(roots, g2) ← rebuild_roots build_full_tree rest g1;
      Ok (Some root :: roots, g2)
  end.

(** Step A: the images some lock map holds. *)
Definition locked_indices (locks : list (gmap Z Z)) : gset Z :=
  foldr (fun d acc => list_to_set (map_to_list d).*2 ∪ acc) ∅ locks.

(** Step B: the mandatory set and the optional list, row by row. *)
Definition mandatory_indices (s : AlbumWindow) : gset Z :=
  foldl (fun acc e => if mandatory_cb e then {[entry_idx e]} ∪ acc else acc)
    (locked_indices (pages_locks s)) (image_list s).

Definition optional_indices (s : AlbumWindow) : list Z :=
  entry_idx <$>
    List.filter (fun e => negb (mandatory_cb e) && pool_cb e &&
                          negb (bool_decide (entry_idx e ∈ locked_indices (pages_locks s))))
      (image_list s).

(** The first chunk loop: each page's own locked images that are active. *)
Definition locked_chunk (active : list Z) (d : gmap Z Z) : list Z :=
  List.filter (fun img => bool_decide (img ∈ active)) (map_to_list d).*2.

(** The second chunk loop: top each chunk up from the head of [free_active]. *)
Fixpoint fill_chunks (page_counts : list Z) (chunks : list (list Z)) (free_active : list Z)
  : list (list Z) :=
  match page_counts, chunks with
  | slots_for_page :: counts, chunk :: rest =>
      let need := Z.to_nat (slots_for_page - len chunk) in
      (chunk ++ take need free_active) :: fill_chunks counts rest (drop need free_active)
  | _, _ => chunks
  end.

(** Steps A to D and the hand-over to the worker, on the window [s1] that
    carries the trees to optimise. *)
Definition select_and_dispatch (page_counts : list Z) (s1 : AlbumWindow) (g1 : Rng)
  : outcome * AlbumWindow * Rng :=
  let num_pages := length page_counts in
  let total_needed := py_sum page_counts in
  let mandatory := mandatory_indices s1 in
  let optional := optional_indices s1 in
  if total_needed <? Z.of_nat (size mandatory) then (OverMandatory, s1, g1)
  else if Z.of_nat (size mandatory) + len optional <? total_needed then
    (UnderSupply, s1, g1)
  else
    let slots_remaining := total_needed - Z.of_nat (size mandatory) in
    let active_indices :=
      elements mandatory ++
      (if 0 <? slots_remaining then take (Z.to_nat slots_remaining) optional
       else []) in
    if bool_decide (length (pages_locks s1) < num_pages)%nat then
      (Raised IndexError, s1, g1)
    else
      let chunks0 := locked_chunk active_indices <$> take num_pages (pages_locks s1) in
      let assigned := concat chunks0 in
      let free_active :=
        List.filter (fun idx => negb (bool_decide (idx ∈ assigned))) active_indices in
      let chunks := fill_chunks page_counts chunks0 free_active in
      let swap_pool := drop (Z.to_nat slots_remaining) optional in
      (Done,
       set_optimize_btn false
         (set_worker
            (Some (mkWorker chunks swap_pool (pages_locks s1) (pages_roots s1)))
            s1),
       g1).

Definition start_optimization (build_full_tree : Builder) (s : AlbumWindow) (g : Rng)
  : outcome * AlbumWindow * Rng :=
  if bool_decide (pages_roots s = []) || bool_decide (pages_perms s = []) then
    (NotReady, s, g)
  else
    let page_counts := leaf_count <$> pages_roots s in
    match (if has_locks (pages_roots s) then Ok (pages_roots s, g)
           else rebuild_roots build_full_tree page_counts g) with
    | Raise e => (Raised e, s, g)
    | Ok (roots, g1) => select_and_dispatch page_counts (set_pages_roots roots s) g1
    end.

(** ** Snapshots ([take_snapshot], the JSON file, [restore_snapshot]) *)

(** [copy.deepcopy] of a dictionary with [int] keys, as its items. *)
Definition dict_items {V : Type} (d : gmap Z V) : list (DictKey * V) :=
  map (fun kv => (KInt kv.1, kv.2)) (map_to_list d).

Definition snapshot_data (s : AlbumWindow) : SnapshotData :=
  {| snap_num_pages := num_pages_spin s;
     snap_page_config := page_config_edit s;
     snap_page_titles := Some (page_titles s);
     snap_title := None;
     snap_trees := map serialize_tree (pages_roots s);
     snap_perms := pages_perms s;
     snap_locks := map dict_items (pages_locks s);
     snap_crop_states := dict_items (image_crop_states s);
     snap_forced_aspects := elements (forced_aspect_ratios s) |}.

(** [take_snapshot]; [written] tells whether writing the file succeeded
    (on failure the method shows an error and records nothing). *)
Definition take_snapshot (written : bool) (s : AlbumWindow) : AlbumWindow :=
  match current_folder s with
  | None => s
  | Some _ =>
      if written then set_snapshots (snapshots s ++ [snapshot_data s]) s else s
  end.

(** What [json.load] returns for the file [json.dump] wrote: the same
    document with every dictionary key turned into its decimal text. *)
Definition json_key (k : DictKey) : DictKey :=
  match k with
  | KInt z => KStr (py_str z)
  | KStr t => KStr t
  end.

Definition json_items {V : Type} (items : list (DictKey * V)) : list (DictKey * V) :=
  map (fun kv => (json_key kv.1, kv.2)) items.

Definition json_file (d : SnapshotData) : SnapshotData :=
  {| snap_num_pages := snap_num_pages d;
     snap_page_config := snap_page_config d;
     snap_page_titles := snap_page_titles d;
     snap_title := snap_title d;
     snap_trees := snap_trees d;
     snap_perms := snap_perms d;
     snap_locks := map json_items (snap_locks d);
     snap_crop_states := json_items (snap_crop_states d);
     snap_forced_aspects := snap_forced_aspects d |}.

(** [int(k)] on a dictionary key *)
Definition int_of_key (k : DictKey) : result Z :=
  match k with
  | KInt z => Ok z
  | KStr t => py_int t
  end.

(** [{int(k): v for k, v in d.items()}] *)
Fixpoint int_keyed {V : Type} (items : list (DictKey * V)) (acc : gmap Z V)
  : result (gmap Z V) :=
  match items with
  | [] => Ok acc
  | (k, v) :: rest => z ← int_of_key k; int_keyed rest (<[z := v]> acc)
  end.

(** [restore_snapshot] with [idx] the entry selected in the snapshot box.
    Setting the page spin box to a new value emits [valueChanged], which is
    connected to [init_trees]; setting the configuration text emits nothing
    [init_trees] listens to.  The assignments follow in source order, so an
    exception of [int(k)] leaves the earlier ones done. *)
Definition restore_snapshot (build_full_tree : Builder) (idx : Z)
    (s : AlbumWindow) (g : Rng) : outcome * AlbumWindow * Rng :=
  if (idx <? 0) || (len (snapshots s) <=? idx) then (NotReady, s, g)
  else
    match py_index (snapshots s) idx with
    | Raise e => (Raised e, s, g)
    | Ok data =>
        let v := spin_clamp (snap_num_pages data) in
        let '(s1, g1) :=
          if bool_decide (v = num_pages_spin s) then (s, g)
          else
            let '(_, s', g') := init_trees build_full_tree (set_num_pages_spin v s) g in
            (s', g') in
        let s2 := set_page_config_edit (snap_page_config data) s1 in
        let titles :=
          match snap_page_titles data with
          | Some l => l
          | None =>
              replicate (Z.to_nat (snap_num_pages data))
                (default "default title"%string (snap_title data))
          end in
        let s3 := set_page_titles titles s2 in
        let s4 := set_pages_roots (map deserialize_tree (snap_trees data)) s3 in
        let s5 := set_pages_perms (snap_perms data) s4 in
        match py_map (fun d => int_keyed d ∅) (snap_locks data) with
        | Raise e => (Raised e, s5, g1)
        | Ok locks =>
            let s6 := set_pages_locks locks s5 in
            match int_keyed (snap_crop_states data) ∅ with
            | Raise e => (Raised e, s6, g1)
            | Ok crop =>
                let s7 := set_image_crop_states crop s6 in
                let s8 := set_forced_aspect_ratios
                            (list_to_set (snap_forced_aspects data)) s7 in
                (Done, set_current_page_idx 0 s8, g1)
            end
        end
    end.

(** Exchanging the contents of two positions of a list, as the
    specification words the swap. *)
Definition swap_leaves (i j : nat) (l : list Z) : list Z :=
  match l !! i, l !! j with
  | Some a, Some b => <[j := a]> (<[i := b]> l)
  | _, _ => l
  end.


(** A sequence of drops, each one an event handled to completion. *)
Definition run_drops (ops : list (Z * Z * Z)) (s : AlbumWindow) : AlbumWindow :=
  foldl (fun s op => apply_drop op.1.1 op.1.2 op.2 s) s ops.

(** No image is the lock value of two leaves of one page. *)
Definition lock_values_unique (locked : gmap Z Z) : Prop :=
  ∀ k1 k2 v, locked !! k1 = Some v -> locked !! k2 = Some v -> k1 = k2.

Definition locks_unique (s : AlbumWindow) : Prop :=
  Forall lock_values_unique (pages_locks s).

(** The window a completed drop leaves: page [n] of the permutations and
    page [m] of the lock maps replaced, the image marked fit and forced. *)
Definition dropped (n m : nat) (perm' : list Z) (locked' : gmap Z Z) (img_idx : Z)
    (s : AlbumWindow) : AlbumWindow :=
  set_forced_aspect_ratios ({[img_idx]} ∪ forced_aspect_ratios s)
    (set_image_crop_states (<[img_idx := false]> (image_crop_states s))
       (set_pages_locks (<[m := locked']> (pages_locks s))
          (set_pages_perms (<[n := perm']> (pages_perms s)) s))).

(** ** Concrete windows used to run the operations *)

(** The tree the modelled builder returns for four leaves at seed 42, the
    seed [init_trees] uses for page 0. *)
Definition initial_tree : Node := sa.full_tree 2 0 Horizontal (Qmake 7 10).

(** Five images in folder [album], one page of four leaves holding images
    0..3 in order, nothing locked. *)
Definition album_paths : list string :=
  ["a.jpg"; "b.jpg"; "c.jpg"; "d.jpg"; "e.jpg"]%string.

Definition album_rows : list ImageListEntry :=
  [mkEntry 0 true false; mkEntry 1 true false; mkEntry 2 true false;
   mkEntry 3 true false; mkEntry 4 true false].

Definition one_page : AlbumWindow :=
  {| image_paths := album_paths;
     current_folder := Some "album"%string;
     image_list := album_rows;
     image_crop_states := ∅;
     forced_aspect_ratios := ∅;
     page_titles := ["album 1"%string];
     pages_roots := [Some initial_tree];
     pages_perms := [[0; 1; 2; 3]];
     pages_locks := [∅];
     current_page_idx := 0;
     num_pages_spin := 1;
     page_config_edit := "4"%string;
     optimize_btn := true;
     export_btn := true;
     snapshots := [];
     worker := None |}.

(** The shape of the permutations [init_trees] derives from one shuffled
    pool, in the specification's words: page after page a contiguous run of
    the pool, as long as the page's count or to the end of the pool, then
    padding drawn from the pool; a page is padded only when the pool ends
    before the page's run does. *)
Inductive sliced (pool : list Z) : Z -> list Z -> list (list Z) -> Prop :=
| sliced_nil (start : Z) : sliced pool start [] []
| sliced_cons (start count : Z) (counts : list Z) (padding : list Z)
    (perms : list (list Z)) :
    Forall (fun x => x ∈ pool) padding ->
    (padding = [] ∨ len pool < start + count) ->
    len (py_slice pool start (Z.min (start + count) (len pool)) ++ padding) = count ->
    sliced pool (start + count) counts perms ->
    sliced pool start (count :: counts)
      ((py_slice pool start (Z.min (start + count) (len pool)) ++ padding) :: perms).

(** A generator whose every raw draw is 0. *)
Definition zeros : Rng := fun _ => 0.

(** [one_page] after image 1 was dropped on leaf 0, with the configuration
    text changed to two pages of four. *)
Definition locked_then_two_pages : AlbumWindow :=
  set_page_config_edit "4,4"%string (apply_drop 0 0 1 one_page).

(** [one_page] with images 1 and 2 locked on leaves 0 and 3, and the
    configuration text changed to one page of two slots. *)
Definition two_locks_then_resized : AlbumWindow :=
  set_page_config_edit "2"%string (apply_drop 0 3 2 (apply_drop 0 0 1 one_page)).

(** [one_page] with every image ticked mandatory: five mandatory images for
    four slots. *)
Definition all_mandatory : AlbumWindow :=
  {| image_paths := album_paths;
     current_folder := Some "album"%string;
     image_list :=
       [mkEntry 0 true true; mkEntry 1 true true; mkEntry 2 true true;
        mkEntry 3 true true; mkEntry 4 true true];
     image_crop_states := ∅;
     forced_aspect_ratios := ∅;
     page_titles := ["album 1"%string];
     pages_roots := [Some initial_tree];
     pages_perms := [[0; 1; 2; 3]];
     pages_locks := [∅];
     current_page_idx := 0;
     num_pages_spin := 1;
     page_config_edit := "4"%string;
     optimize_btn := true;
     export_btn := true;
     snapshots := [];
     worker := None |}.

(** One page of two leaves whose root carries the locked flag, as an
    optimiser run with a locked leaf below it leaves it. *)
Definition flagged_page : AlbumWindow :=
  {| image_paths := album_paths;
     current_folder := Some "album"%string;
     image_list := album_rows;
     image_crop_states := ∅;
     forced_aspect_ratios := ∅;
     page_titles := ["album 1"%string];
     pages_roots :=
       [Some (mkNode (Some Vertical) (Qmake 1 3) None true
                (Some (mkNode None (Qmake 1 2) (Some 0) false None None))
                (Some (mkNode None (Qmake 1 2) (Some 1) false None None)))];
     pages_perms := [[3; 4]];
     pages_locks := [{[0 := 3]}];
     current_page_idx := 0;
     num_pages_spin := 1;
     page_config_edit := "2"%string;
     optimize_btn := true;
     export_btn := true;
     snapshots := [];
     worker := None |}.

(** Strings made of decimal digits only. *)
Fixpoint all_digits (s : string) : bool :=
  match s with
  | EmptyString => true
  | String c r => is_digit c && all_digits r
  end.

(** [one_page] after image 1 was dropped on leaf 2, and the same window
    after a snapshot was taken and image 4 dropped on leaf 0 since. *)
Definition with_lock : AlbumWindow := apply_drop 0 2 1 one_page.

Definition snapshot_then_drop : AlbumWindow :=
  apply_drop 0 0 4 (take_snapshot true with_lock).

(** A window that loaded the snapshot of [with_lock] from its file. *)
Definition snapshot_from_file : AlbumWindow :=
  set_snapshots [json_file (snapshot_data with_lock)] one_page.

(** [one_page] with only images 0 and 1 left in the pool: two images for
    four slots. *)
Definition under_supplied : AlbumWindow :=
  {| image_paths := album_paths;
     current_folder := Some "album"%string;
     image_list :=
       [mkEntry 0 true false; mkEntry 1 true false; mkEntry 2 false false;
        mkEntry 3 false false; mkEntry 4 false false];
     image_crop_states := ∅;
     forced_aspect_ratios := ∅;
     page_titles := ["album 1"%string];
     pages_roots := [Some initial_tree];
     pages_perms := [[0; 1; 2; 3]];
     pages_locks := [∅];
     current_page_idx := 0;
     num_pages_spin := 1;
     page_config_edit := "4"%string;
     optimize_btn := true;
     export_btn := true;
     snapshots := [];
     worker := None |}.

(** ** Invariants of the permutation and lock store *)

(** Every lock of a page names the image its leaf holds, on a leaf the
    page has. *)
Definition lock_matches (perm : list Z) (locked : gmap Z Z) : Prop :=
  ∀ k v, locked !! k = Some v -> 0 <= k ∧ perm !! Z.to_nat k = Some v.

Definition locks_match (s : AlbumWindow) : Prop :=
  Forall2 lock_matches (pages_perms s) (pages_locks s).

(** No page shows an image twice. *)
Definition perms_nodup (s : AlbumWindow) : Prop :=
  Forall (fun perm : list Z => NoDup perm) (pages_perms s).

(** ** The optimiser request, in the words of its users *)

(** The images a lock map pins. *)
Definition lock_values (d : gmap Z Z) : list Z := (map_to_list d).*2.

(** The rows of the image list carry pairwise distinct image indices, as
    [load_images] creates them. *)
Definition rows_distinct (s : AlbumWindow) : Prop :=
  NoDup (entry_idx <$> image_list s).

(** Every page has a lock map, with at most as many locks as the page has
    leaves. *)
Definition locks_fit (s : AlbumWindow) : Prop :=
  Forall2 (fun root d => Z.of_nat (size d) <= leaf_count root)
    (pages_roots s) (pages_locks s).

(** No image is locked twice, on whatever pages. *)
Definition locks_globally_unique (s : AlbumWindow) : Prop :=
  NoDup (concat (lock_values <$> pages_locks s)).

(** The images step D selects: the mandatory ones, then optional ones in
    list order up to the number of slots. *)
Definition active_indices (s : AlbumWindow) : list Z :=
  elements (mandatory_indices s) ++
  take (Z.to_nat (py_sum (leaf_count <$> pages_roots s)
                  - Z.of_nat (size (mandatory_indices s))))
    (optional_indices s).

(** ** Statistics ([AlbumWindow.update_stats])

    The four numbers the method writes into its labels ("Total Images",
    "Album Capacity", "Mandatory", "Pool"). *)
Record Stats : Type := mkStats {
  stat_total_images : Z;
  stat_album_capacity : Z;
  stat_mandatory : Z;
  stat_pool : Z
}.

(** The loop over the rows: a row counts as mandatory when ticked so or
    when its image is locked somewhere, else as pool when ticked so. *)
Definition count_rows (locked : gset Z) (rows : list ImageListEntry) : Z * Z :=
  foldl (fun counts e =>
           if mandatory_cb e || bool_decide (entry_idx e ∈ locked)
           then (counts.1 + 1, counts.2)
           else if pool_cb e then (counts.1, counts.2 + 1) else counts)
    (0, 0) rows.

Definition update_stats (s : AlbumWindow) : Stats :=
  let total_images := len (image_paths s) in
  let album_capacity := foldl (fun acc root => acc + leaf_count root) 0 (pages_roots s) in
  let counts := count_rows (locked_indices (pages_locks s)) (image_list s) in
  mkStats total_images album_capacity counts.1 counts.2.

(** Every locked image has a row in the image list. *)
Definition locks_have_rows (s : AlbumWindow) : Prop :=
  ∀ x, x ∈ locked_indices (pages_locks s) -> x ∈ entry_idx <$> image_list s.

(** A builder that returns a tree for every power of two. *)
Definition accepts_powers_of_two (build_full_tree : Builder) : Prop :=
  ∀ count seed, sa.is_power_of_two count = true ->
                ∃ n, build_full_tree count seed = Ok n.

(** A folder was loaded, no page exists yet, and the configuration text
    does not parse. *)
Definition first_run_bad_text : AlbumWindow :=
  set_page_config_edit "x"%string (set_pages_locks [] (set_pages_perms []
    (set_pages_roots [] one_page))).

(** ** Resetting the layout ([AlbumWindow.reset_layout]) *)

(** [for locks in self.pages_locks: locks.clear()], then [init_trees]. *)
Definition reset_layout (build_full_tree : Builder) (s : AlbumWindow) (g : Rng)
  : outcome * AlbumWindow * Rng :=
  init_trees build_full_tree
    (set_pages_locks ((fun _ : gmap Z Z => (∅ : gmap Z Z)) <$> pages_locks s) s) g.

(** ** Loading a folder ([AlbumWindow.load_images]) *)

Definition set_image_paths (v : list string) (s : AlbumWindow) : AlbumWindow :=
  mkWindow v (current_folder s) (image_list s) (image_crop_states s)
    (forced_aspect_ratios s) (page_titles s) (pages_roots s)
    (pages_perms s) (pages_locks s) (current_page_idx s) (num_pages_spin s)
    (page_config_edit s) (optimize_btn s) (export_btn s) (snapshots s) (worker s).

Definition set_current_folder (v : option string) (s : AlbumWindow) : AlbumWindow :=
  mkWindow (image_paths s) v (image_list s) (image_crop_states s)
    (forced_aspect_ratios s) (page_titles s) (pages_roots s)
    (pages_perms s) (pages_locks s) (current_page_idx s) (num_pages_spin s)
    (page_config_edit s) (optimize_btn s) (export_btn s) (snapshots s) (worker s).

Definition set_image_list (v : list ImageListEntry) (s : AlbumWindow) : AlbumWindow :=
  mkWindow (image_paths s) (current_folder s) v (image_crop_states s)
    (forced_aspect_ratios s) (page_titles s) (pages_roots s)
    (pages_perms s) (pages_locks s) (current_page_idx s) (num_pages_spin s)
    (page_config_edit s) (optimize_btn s) (export_btn s) (snapshots s) (worker s).

(** The rows the loop over [enumerate(self.image_paths)] creates: the
    index as item data, "Pool" ticked, "Mandatory" not. *)
Definition fresh_rows (n : nat) : list ImageListEntry :=
  (fun idx : nat => mkEntry (Z.of_nat idx) true false) <$> seq 0 n.

(** The assignments at the head of [load_images]; [folder] is the name of
    the folder chosen. *)
Definition cleared (folder : string) (s : AlbumWindow) : AlbumWindow :=
  set_image_list []
    (set_pages_locks []
       (set_pages_perms []
          (set_pages_roots []
             (set_page_titles []
                (set_current_folder (Some folder) (set_image_paths [] s)))))).

(** The default slot count: [sa.largest_power_of_two_leq] of the number of
    images, doubled when that is less than the number of images. *)
Definition default_slots (largest_power_of_two_leq : Z -> Z) (total_images : Z) : Z :=
  let slots := largest_power_of_two_leq total_images in
  if slots <? total_images then slots * 2 else slots.

(** The window on which [load_images] calls [init_trees]: the image
    files, the snapshots read from the folder, the default configuration
    text and one row per image. *)
Definition prepared (largest_power_of_two_leq : Z -> Z) (folder : string)
    (files : list string) (loaded : list SnapshotData) (s : AlbumWindow) : AlbumWindow :=
  set_image_list (fresh_rows (length files))
    (set_page_config_edit (py_str (default_slots largest_power_of_two_leq (len files)))
       (set_snapshots loaded (set_image_paths files (cleared folder s)))).

(** [load_images]: [files] are the image files of the folder in sorted
    order, [loaded] the snapshot files of the folder that could be read,
    in sorted order.  [sa.largest_power_of_two_leq] is a function of the
    absent module and a parameter here.  For a folder without images the
    method goes on to [self.slot_combo.clear()]; the window has no
    attribute of that name, so the call raises with the fields cleared and
    nothing else done. *)
Definition load_images (build_full_tree : Builder) (largest_power_of_two_leq : Z -> Z)
    (folder : string) (files : list string) (loaded : list SnapshotData)
    (s : AlbumWindow) (g : Rng) : outcome * AlbumWindow * Rng :=
  match files with
  | [] => (Raised AttributeError, cleared folder s, g)
  | _ :: _ =>
      let '(o, s1, g1) :=
        init_trees build_full_tree
          (prepared largest_power_of_two_leq folder files loaded s) g in
      (o, set_optimize_btn (negb (bool_decide (pages_roots s1 = []))) s1, g1)
  end.

(** What [sa.largest_power_of_two_leq] is to return for [n]: the power
    of two with [p <= n < 2 * p]. *)
Definition largest_power_of_two_leq_spec (largest_power_of_two_leq : Z -> Z) (n : Z)
  : Prop :=
  sa.is_power_of_two (largest_power_of_two_leq n) = true ∧
  largest_power_of_two_leq n <= n < 2 * largest_power_of_two_leq n.

(** A function that meets this at every positive number, to run
    [load_images] with. *)
Definition pow2_floor (n : Z) : Z := 2 ^ Z.log2 n.

(** The folder [album] loaded over [one_page]. *)
Definition loaded_album : AlbumWindow :=
  (load_images sa.build_full_tree pow2_floor "album" album_paths [] one_page zeros).1.2.

(** A builder that returns, for every power of two, a tree with that many
    leaves. *)
Definition builds_as_asked (build_full_tree : Builder) : Prop :=
  ∀ count seed, sa.is_power_of_two count = true ->
                ∃ n, build_full_tree count seed = Ok n ∧ leaf_count (Some n) = count.

(** ** Choosing a file name ([take_snapshot], [export_pdf_dialog])

    Both methods count [i] up from 1 until the name made from the folder
    name and [i] does not exist in the folder.  The folder is the list of
    the names in it; the loop is run for at most [fuel] rounds. *)
Definition snapshot_name (base_name : string) (i : Z) : string :=
  (base_name ++ "_snapshot_" ++ py_str i ++ ".json")%string.

Definition pdf_name (base_name : string) (i : Z) : string :=
  (base_name ++ "_" ++ py_str i ++ ".pdf")%string.

Fixpoint first_free (name : Z -> string) (existing : list string) (fuel : nat) (i : Z)
  : option Z :=
  match fuel with
  | O => None
  | S fuel' =>
      if bool_decide (name i ∈ existing) then first_free name existing fuel' (i + 1)
      else Some i
  end.

(** ** Crop states and forced aspect ratios *)

(** [self.image_crop_states.get(img_idx, True)], as the renderer and the
    context menu read it. *)
Definition should_crop (s : AlbumWindow) (img_idx : Z) : bool :=
  default true (image_crop_states s !! img_idx).

Definition toggle_crop_state (img_idx : Z) (s : AlbumWindow) : AlbumWindow :=
  let current := should_crop s img_idx in
  set_image_crop_states (<[img_idx := negb current]> (image_crop_states s)) s.

Definition toggle_aspect_lock (img_idx : Z) (s : AlbumWindow) : AlbumWindow :=
  if bool_decide (img_idx ∈ forced_aspect_ratios s) then
    set_forced_aspect_ratios (forced_aspect_ratios s ∖ {[img_idx]}) s
  else
    set_image_crop_states (<[img_idx := false]> (image_crop_states s))
      (set_forced_aspect_ratios ({[img_idx]} ∪ forced_aspect_ratios s) s).

(** [for i in range(len(self.image_paths)): self.image_crop_states[i] = True] *)
Definition crop_all (s : AlbumWindow) : AlbumWindow :=
  set_image_crop_states
    (foldl (fun d (i : nat) => <[Z.of_nat i := true]> d) (image_crop_states s)
       (seq 0 (length (image_paths s)))) s.

Definition uncrop_all (s : AlbumWindow) : AlbumWindow :=
  set_image_crop_states
    (foldl (fun d (i : nat) => <[Z.of_nat i := false]> d) (image_crop_states s)
       (seq 0 (length (image_paths s)))) s.

(** The action picked in the context menu of a leaf, if any. *)
Inductive MenuAction : Type := ToggleAction | LockAspectAction | NoAction.

(** [LeafItem.contextMenuEvent] on the leaf [leaf_id] of page [page_idx]. *)
Definition contextMenuEvent (page_idx leaf_id : Z) (action : MenuAction)
    (s : AlbumWindow) : result AlbumWindow :=
  if len (pages_perms s) <=? page_idx then Ok s
  else
    perm ← py_index (pages_perms s) page_idx;
    if len perm <=? leaf_id then Ok s
    else
      img_idx ← py_index perm leaf_id;
      match action with
      | ToggleAction => Ok (toggle_crop_state img_idx s)
      | LockAspectAction => Ok (toggle_aspect_lock img_idx s)
      | NoAction => Ok s
      end.

(** ** The pool and mandatory ticks of the image list *)

Definition set_pool_cb (v : bool) (e : ImageListEntry) : ImageListEntry :=
  mkEntry (entry_idx e) v (mandatory_cb e).

Definition set_mandatory_cb (v : bool) (e : ImageListEntry) : ImageListEntry :=
  mkEntry (entry_idx e) (pool_cb e) v.

(** [ImageListEntry.on_pool_toggled]: unticking "Pool" unticks
    "Mandatory" (and disables it; enabling is not part of the state). *)
Definition on_pool_toggled (checked : bool) (e : ImageListEntry) : ImageListEntry :=
  if checked then e else set_mandatory_cb false e.

(** [widget.pool_cb.setChecked(v)]: the check box emits [toggled], which
    is connected to [on_pool_toggled], only when its state changes. *)
Definition pool_setChecked (v : bool) (e : ImageListEntry) : ImageListEntry :=
  if bool_decide (pool_cb e = v) then e else on_pool_toggled v (set_pool_cb v e).

Definition select_all_images (s : AlbumWindow) : AlbumWindow :=
  set_image_list (pool_setChecked true <$> image_list s) s.

Definition select_none_images (s : AlbumWindow) : AlbumWindow :=
  set_image_list (pool_setChecked false <$> image_list s) s.

(** No row is ticked mandatory without being ticked for the pool. *)
Definition mandatory_in_pool (s : AlbumWindow) : Prop :=
  ∀ e, e ∈ image_list s -> mandatory_cb e = true -> pool_cb e = true.

(** ** Page navigation ([prev_page], [next_page]) *)

Definition prev_page (s : AlbumWindow) : AlbumWindow :=
  if 0 <? current_page_idx s then set_current_page_idx (current_page_idx s - 1) s
  else s.

Definition next_page (s : AlbumWindow) : AlbumWindow :=
  if current_page_idx s <? len (pages_roots s) - 1
  then set_current_page_idx (current_page_idx s + 1) s
  else s.

(** A click on one of the two navigation buttons. *)
Inductive NavClick : Type := ClickPrev | ClickNext.

Definition navigate (clicks : list NavClick) (s : AlbumWindow) : AlbumWindow :=
  foldl (fun s c => match c with ClickPrev => prev_page s | ClickNext => next_page s end)
    s clicks.

(** ** Tree documents *)

(** Every node of the document carries the [locked] key, as the documents
    [serialize_tree] writes do. *)
Fixpoint has_locked_keys (data : TreeDoc) : bool :=
  let 'mkTreeDoc _ _ _ b l r := data in
  match b with Some _ => true | None => false end
  && match l with Some x => has_locked_keys x | None => true end
  && match r with Some x => has_locked_keys x | None => true end.



(** [with_lock] (one page, image 1 locked on leaf 2, the page spin box at
    1) with the list [3,4] typed into the configuration field; and the
    window as the refused text leaves it, the field set back to [4]. *)
Definition bad_list_text : AlbumWindow := set_page_config_edit "3,4"%string with_lock.

Definition after_bad_list_text : AlbumWindow :=
  set_page_config_edit "4"%string (set_num_pages_spin 2 bad_list_text).

(** * Properties *)

(** ** Python indexing *)

Lemma py_pos_nonneg {A : Type} (l : list A) (i : Z) :
  0 <= i < len l -> py_pos l i = Some (Z.to_nat i).
Proof.
  intros [H0 H1]. unfold py_pos.
  apply Z.leb_le in H0. apply Z.ltb_lt in H1. by rewrite H0, H1.
Qed.

Lemma py_index_nonneg {A : Type} (l : list A) (i : Z) (x : A) :
  0 <= i -> l !! Z.to_nat i = Some x -> py_index l i = Ok x.
Proof.
  intros H0 Hx. unfold py_index. rewrite py_pos_nonneg.
  - by rewrite Hx.
  - apply lookup_lt_Some in Hx. unfold len. lia.
Qed.

Lemma py_setitem_nonneg {A : Type} (l : list A) (i : Z) (x : A) :
  0 <= i < len l -> py_setitem l i x = Ok (<[Z.to_nat i := x]> l).
Proof. intros H. unfold py_setitem. by rewrite py_pos_nonneg. Qed.

Lemma len_insert {A : Type} (l : list A) (n : nat) (x : A) :
  len (<[n := x]> l) = len l.
Proof. unfold len. by rewrite length_insert. Qed.

Lemma list_index_Some (x : Z) (l : list Z) (n : nat) :
  list_index x l = Some n ->
  l !! n = Some x ∧ ∀ m, (m < n)%nat -> l !! m ≠ Some x.
Proof.
  revert n. induction l as [|y l IH]; intros n; simpl; [done|].
  destruct (decide (y = x)) as [->|Hne].
  - intros [= <-]. split; [done|]. intros m Hm. lia.
  - destruct (list_index x l) as [k|] eqn:Hk; simpl; [|done].
    intros [= <-]. destruct (IH k eq_refl) as [Hlk Hmin]. split; [done|].
    intros [|m] Hm; simpl.
    + congruence.
    + apply Hmin. lia.
Qed.

Lemma list_index_None (x : Z) (l : list Z) :
  list_index x l = None <-> x ∉ l.
Proof.
  induction l as [|y l IH]; simpl.
  - split; [intros _; apply not_elem_of_nil | done].
  - rewrite not_elem_of_cons. destruct (decide (y = x)) as [->|Hne].
    + split; [done | intros [? _]; done].
    + destruct (list_index x l); simpl.
      * split; [done|]. intros [_ H]. by apply IH in H.
      * split; [|done]. intros _. split; [congruence | by apply IH].
Qed.

Lemma swap_leaves_same_content (i j : nat) (l : list Z) (x : Z) :
  l !! i = Some x -> l !! j = Some x -> swap_leaves i j l = l.
Proof.
  intros Hi Hj. unfold swap_leaves. rewrite Hi, Hj.
  rewrite (list_insert_id l i x Hi). by apply list_insert_id.
Qed.

(** What the [if img_idx in perm] block computes, by the first position of
    the image. *)
Lemma place_image_first (leaf_id img_idx : Z) (perm : list Z) :
  0 <= leaf_id < len perm ->
  place_image leaf_id img_idx perm =
    Ok (match list_index img_idx perm with
        | Some j => if decide (j = Z.to_nat leaf_id) then perm
                    else swap_leaves (Z.to_nat leaf_id) j perm
        | None => <[Z.to_nat leaf_id := img_idx]> perm
        end).
Proof.
  intros Hleaf. unfold place_image, py_list_index.
  destruct (list_index img_idx perm) as [j|] eqn:Hj.
  - destruct (list_index_Some _ _ _ Hj) as [Hlk _].
    rewrite bool_decide_eq_true_2 by (by eapply list_elem_of_lookup_2).
    simpl. pose proof (lookup_lt_Some _ _ _ Hlk) as Hlt.
    destruct (decide (j = Z.to_nat leaf_id)) as [->|Hne].
    + rewrite bool_decide_eq_false_2; [done|]. intros H. apply H. lia.
    + rewrite bool_decide_eq_true_2 by lia.
      destruct (lookup_lt_is_Some_2 perm (Z.to_nat leaf_id)) as [b Hb];
        [unfold len in Hleaf; lia|].
      rewrite (py_index_nonneg perm (Z.of_nat j) img_idx) by
        (rewrite ?Nat2Z.id; [lia || done ..]).
      simpl. rewrite (py_index_nonneg perm leaf_id b) by (lia || done).
      simpl. rewrite py_setitem_nonneg by done. simpl.
      rewrite py_setitem_nonneg by (rewrite len_insert; unfold len; lia).
      rewrite Nat2Z.id. unfold swap_leaves. by rewrite Hb, Hlk.
  - rewrite bool_decide_eq_false_2 by (by apply list_index_None).
    by apply py_setitem_nonneg.
Qed.

(** ** Drop / lock *)

Lemma py_index_Ok {A : Type} (l : list A) (i : Z) (x : A) :
  py_index l i = Ok x -> ∃ n, py_pos l i = Some n ∧ l !! n = Some x.
Proof.
  unfold py_index. destruct (py_pos l i) as [n|]; [|done].
  destruct (l !! n) as [y|] eqn:Hy; [|done]. intros [= <-]. eauto.
Qed.

Lemma py_pos_lt {A : Type} (l : list A) (i : Z) (n : nat) :
  py_pos l i = Some n -> (n < length l)%nat.
Proof.
  unfold py_pos.
  destruct ((0 <=? i) && (i <? len l)) eqn:H1.
  - intros [= <-]. apply andb_true_iff in H1 as [?%Z.leb_le ?%Z.ltb_lt].
    unfold len in *. lia.
  - destruct ((i <? 0) && (- len l <=? i)) eqn:H2; [|done].
    intros [= <-]. apply andb_true_iff in H2 as [?%Z.ltb_lt ?%Z.leb_le].
    unfold len in *. lia.
Qed.

Lemma py_setitem_pos {A : Type} (l : list A) (i : Z) (n : nat) (x : A) :
  py_pos l i = Some n -> py_setitem l i x = Ok (<[n := x]> l).
Proof. intros H. unfold py_setitem. by rewrite H. Qed.

(** Every call of [handle_drop] either leaves the window alone or completes
    as [dropped] describes. *)
Lemma handle_drop_cases (page_idx leaf_id img_idx : Z) (s : AlbumWindow) :
  (∀ o s', handle_drop page_idx leaf_id img_idx s = Ok (o, s') -> o ≠ Done ∧ s' = s) ∨
  ∃ n m perm locked perm',
    py_pos (pages_perms s) page_idx = Some n ∧
    py_pos (pages_locks s) page_idx = Some m ∧
    pages_perms s !! n = Some perm ∧
    pages_locks s !! m = Some locked ∧
    0 <= leaf_id < len perm ∧
    0 <= img_idx < len (image_paths s) ∧
    place_image leaf_id img_idx perm = Ok perm' ∧
    handle_drop page_idx leaf_id img_idx s =
      Ok (Done, dropped n m perm'
                  (<[leaf_id := img_idx]> (remove_previous_lock leaf_id img_idx locked))
                  img_idx s).
Proof.
  unfold handle_drop.
  destruct (bool_decide (pages_roots s = []) || (len (pages_roots s) <=? page_idx));
    [left; by intros o s' [= <- <-]|].
  destruct (py_index (pages_perms s) page_idx) as [perm|e] eqn:Hperm;
    [|left; by intros o s' [=]].
  simpl. destruct (bool_decide (perm = [])); [left; by intros o s' [= <- <-]|].
  destruct (py_index (pages_locks s) page_idx) as [locked|e] eqn:Hlocked;
    [|left; by intros o s' [=]].
  simpl.
  destruct ((leaf_id <? 0) || (len perm <=? leaf_id)) eqn:Hleaf;
    [left; by intros o s' [= <- <-]|].
  destruct ((img_idx <? 0) || (len (image_paths s) <=? img_idx)) eqn:Himg;
    [left; by intros o s' [= <- <-]|].
  apply orb_false_iff in Hleaf as [?%Z.ltb_ge ?%Z.leb_gt].
  apply orb_false_iff in Himg as [?%Z.ltb_ge ?%Z.leb_gt].
  right.
  apply py_index_Ok in Hperm as (n & Hn & Hpn).
  apply py_index_Ok in Hlocked as (m & Hm & Hlm).
  exists n, m, perm, locked.
  rewrite place_image_first by lia. eexists. simpl.
  rewrite (py_setitem_pos (pages_perms s) page_idx n _ Hn). simpl.
  rewrite (py_setitem_pos (pages_locks s) page_idx m _ Hm). simpl.
  repeat split; try done; lia.
Qed.

Lemma apply_drop_cases (page_idx leaf_id img_idx : Z) (s : AlbumWindow) :
  apply_drop page_idx leaf_id img_idx s = s ∨
  ∃ n m perm locked perm',
    pages_perms s !! n = Some perm ∧
    pages_locks s !! m = Some locked ∧
    0 <= leaf_id < len perm ∧
    place_image leaf_id img_idx perm = Ok perm' ∧
    apply_drop page_idx leaf_id img_idx s =
      dropped n m perm'
        (<[leaf_id := img_idx]> (remove_previous_lock leaf_id img_idx locked))
        img_idx s.
Proof.
  unfold apply_drop.
  destruct (handle_drop_cases page_idx leaf_id img_idx s) as [H|H].
  - left. destruct (handle_drop page_idx leaf_id img_idx s) as [[o s']|e]; [|done].
    by destruct (H o s' eq_refl).
  - right. destruct H as (n & m & perm & locked & perm' & _ & _ & ? & ? & ? & _ & ? & ->).
    by exists n, m, perm, locked, perm'.
Qed.

(** The lock map after a drop, entry by entry. *)
Lemma lookup_relocked (leaf_id img_idx k : Z) (locked : gmap Z Z) :
  <[leaf_id := img_idx]> (remove_previous_lock leaf_id img_idx locked) !! k =
    if decide (k = leaf_id) then Some img_idx
    else match locked !! k with
         | Some v => if decide (v = img_idx) then None else Some v
         | None => None
         end.
Proof.
  destruct (decide (k = leaf_id)) as [->|Hne].
  - by rewrite lookup_insert_eq.
  - rewrite lookup_insert_ne by done. unfold remove_previous_lock.
    destruct (locked !! k) as [v|] eqn:Hk.
    + destruct (decide (v = img_idx)) as [->|Hv].
      * apply map_lookup_filter_None. right. intros x Hx. simpl.
        rewrite Hk in Hx. injection Hx as <-. intros H. apply H. done.
      * apply map_lookup_filter_Some. split; [done|]. simpl. intros [_ ?]. done.
    + apply map_lookup_filter_None. by left.
Qed.

Lemma relocked_unique (leaf_id img_idx : Z) (locked : gmap Z Z) :
  lock_values_unique locked ->
  lock_values_unique (<[leaf_id := img_idx]> (remove_previous_lock leaf_id img_idx locked)).
Proof.
  intros Huniq k1 k2 v. rewrite !lookup_relocked.
  destruct (decide (k1 = leaf_id)) as [->|H1], (decide (k2 = leaf_id)) as [->|H2];
    try done.
  - intros [= <-]. destruct (locked !! k2) as [w|]; [|done].
    destruct (decide (w = img_idx)); [done|]. intros [= ?]. done.
  - destruct (locked !! k1) as [w|]; [|done].
    destruct (decide (w = img_idx)); [done|]. intros [= ->] [= ?]. done.
  - destruct (locked !! k1) as [w1|] eqn:E1; [|done].
    destruct (decide (w1 = img_idx)); [done|]. intros [= ->].
    destruct (locked !! k2) as [w2|] eqn:E2; [|done].
    destruct (decide (w2 = img_idx)); [done|]. intros [= ->].
    by eapply Huniq.
Qed.

Lemma handle_drop_Done (s : AlbumWindow) (page : nat) (leaf_id img_idx : Z)
    (perm : list Z) (locked : gmap Z Z) :
  (page < length (pages_roots s))%nat ->
  pages_perms s !! page = Some perm ->
  pages_locks s !! page = Some locked ->
  0 <= leaf_id < len perm ->
  0 <= img_idx < len (image_paths s) ->
  ∃ perm',
    place_image leaf_id img_idx perm = Ok perm' ∧
    handle_drop (Z.of_nat page) leaf_id img_idx s =
      Ok (Done, dropped page page perm'
                  (<[leaf_id := img_idx]> (remove_previous_lock leaf_id img_idx locked))
                  img_idx s).
Proof.
  intros Hpage Hperm Hlocked Hleaf Himg.
  destruct (handle_drop_cases (Z.of_nat page) leaf_id img_idx s) as [H|H].
  - exfalso. revert H. unfold handle_drop.
    rewrite (bool_decide_eq_false_2 (pages_roots s = []))
      by (intros E; rewrite E in Hpage; simpl in Hpage; lia).
    replace (len (pages_roots s) <=? Z.of_nat page) with false
      by (symmetry; apply Z.leb_gt; unfold len; lia).
    simpl.
    rewrite (py_index_nonneg _ _ perm) by (rewrite ?Nat2Z.id; lia || done).
    simpl.
    rewrite bool_decide_eq_false_2
      by (intros ->; unfold len in Hleaf; simpl in Hleaf; lia).
    rewrite (py_index_nonneg _ _ locked) by (rewrite ?Nat2Z.id; lia || done).
    simpl.
    replace ((leaf_id <? 0) || (len perm <=? leaf_id)) with false
      by (symmetry; apply orb_false_iff; split; [apply Z.ltb_ge | apply Z.leb_gt]; lia).
    replace ((img_idx <? 0) || (len (image_paths s) <=? img_idx)) with false
      by (symmetry; apply orb_false_iff; split; [apply Z.ltb_ge | apply Z.leb_gt]; lia).
    rewrite place_image_first by lia. simpl.
    rewrite (py_setitem_nonneg (pages_perms s))
      by (apply lookup_lt_Some in Hperm; unfold len; lia).
    simpl.
    rewrite (py_setitem_nonneg (pages_locks s))
      by (apply lookup_lt_Some in Hlocked; unfold len; lia).
    simpl. intros H. by destruct (H _ _ eq_refl).
  - destruct H as (n & m & perm0 & locked0 & perm' & Hn & Hm & Hpn & Hlm & _ & _ & Hpl & ->).
    rewrite py_pos_nonneg in Hn
      by (apply lookup_lt_Some in Hperm; unfold len; lia).
    rewrite py_pos_nonneg in Hm
      by (apply lookup_lt_Some in Hlocked; unfold len; lia).
    rewrite Nat2Z.id in Hn, Hm. injection Hn as <-. injection Hm as <-.
    rewrite Hperm in Hpn. injection Hpn as <-.
    rewrite Hlocked in Hlm. injection Hlm as <-.
    by exists perm'.
Qed.

(** C1. Dropping an in-bounds image onto an in-bounds leaf of a page
    completes and updates that page's permutation by the swap-or-overwrite
    rule: when the image sits on another leaf [j], leaves [j] and [leaf_id]
    exchange their contents; otherwise [leaf_id] is overwritten with the
    image, and the image displaced that way gets no lock and appears nowhere
    it was not before.  The page's lock map gains [leaf_id -> image] and
    loses every other lock of the image.  On a page [[A,B,C,D]] locking leaf
    2 to image B gives [[A,C,B,D]] and the locks [{2: B}]. *)
Theorem handle_drop_swap_or_overwrite :
  (∀ (s : AlbumWindow) (page : nat) (leaf_id img_idx : Z)
     (perm : list Z) (locked : gmap Z Z),
      (page < length (pages_roots s))%nat ->
      pages_perms s !! page = Some perm ->
      pages_locks s !! page = Some locked ->
      0 <= leaf_id < len perm ->
      0 <= img_idx < len (image_paths s) ->
      ∃ perm' locked' s',
        handle_drop (Z.of_nat page) leaf_id img_idx s = Ok (Done, s') ∧
        pages_perms s' = <[page := perm']> (pages_perms s) ∧
        pages_locks s' = <[page := locked']> (pages_locks s) ∧
        perm' !! Z.to_nat leaf_id = Some img_idx ∧
        ((∃ j, j ≠ Z.to_nat leaf_id ∧ perm !! j = Some img_idx) ->
         ∃ j, j ≠ Z.to_nat leaf_id ∧ perm !! j = Some img_idx ∧
              perm' = swap_leaves (Z.to_nat leaf_id) j perm) ∧
        ((∀ j, perm !! j = Some img_idx -> j = Z.to_nat leaf_id) ->
         perm' = <[Z.to_nat leaf_id := img_idx]> perm) ∧
        (img_idx ∉ perm ->
         ∀ d, perm !! Z.to_nat leaf_id = Some d ->
              (∀ k, locked' !! k = Some d -> locked !! k = Some d) ∧
              (∀ j, perm' !! j = Some d -> j ≠ Z.to_nat leaf_id ∧ perm !! j = Some d)) ∧
        locked' !! leaf_id = Some img_idx ∧
        (∀ k, k ≠ leaf_id -> locked' !! k ≠ Some img_idx)) ∧
  (∀ (s : AlbumWindow) (page : nat) (A B C D : Z) (locked : gmap Z Z),
      (page < length (pages_roots s))%nat ->
      pages_perms s !! page = Some [A; B; C; D] ->
      pages_locks s !! page = Some locked ->
      A ≠ B ->
      0 <= B < len (image_paths s) ->
      (∀ k v, locked !! k = Some v -> v = B ∨ k = 2) ->
      ∃ s',
        handle_drop (Z.of_nat page) 2 B s = Ok (Done, s') ∧
        pages_perms s' !! page = Some [A; C; B; D] ∧
        pages_locks s' !! page = Some {[2 := B]}).
Proof.
  split.
  - intros s page leaf_id img_idx perm locked Hpage Hperm Hlocked Hleaf Himg.
    destruct (handle_drop_Done s page leaf_id img_idx perm locked)
      as (perm' & Hplace & Hdrop); try done.
    exists perm', (<[leaf_id := img_idx]> (remove_previous_lock leaf_id img_idx locked)).
    eexists. split; [exact Hdrop|]. split; [done|]. split; [done|].
    rewrite place_image_first in Hplace by done. injection Hplace as Hplace.
    assert (Hlt : (Z.to_nat leaf_id < length perm)%nat) by (unfold len in Hleaf; lia).
    destruct (list_index img_idx perm) as [j0|] eqn:Hidx.
    + destruct (list_index_Some _ _ _ Hidx) as [Hj0 Hfirst].
      assert (Himgin : img_idx ∈ perm) by (by eapply list_elem_of_lookup_2).
      destruct (decide (j0 = Z.to_nat leaf_id)) as [->|Hne]; subst perm'.
      * split; [done|]. split; [|split; [|split; [|split]]].
        -- intros (j & Hj & Hpj). exists j. split; [done|]. split; [done|].
           symmetry. by eapply swap_leaves_same_content.
        -- intros _. symmetry. by apply list_insert_id.
        -- done.
        -- by rewrite lookup_relocked, decide_True.
        -- intros k Hk. rewrite lookup_relocked, decide_False by done.
           destruct (locked !! k) as [v|]; [|done].
           destruct (decide (v = img_idx)); [done|]. congruence.
      * pose proof (lookup_lt_Some _ _ _ Hj0) as Hj0lt.
        destruct (lookup_lt_is_Some_2 perm (Z.to_nat leaf_id) Hlt) as [b Hb].
        assert (Hsw : swap_leaves (Z.to_nat leaf_id) j0 perm !! Z.to_nat leaf_id
                      = Some img_idx).
        { unfold swap_leaves. rewrite Hb, Hj0.
          rewrite list_lookup_insert_ne by done.
          by rewrite list_lookup_insert_eq. }
        split; [done|]. split; [|split; [|split; [|split]]].
        -- intros _. by exists j0.
        -- intros Hall. by destruct (Hne (Hall j0 Hj0)).
        -- done.
        -- by rewrite lookup_relocked, decide_True.
        -- intros k Hk. rewrite lookup_relocked, decide_False by done.
           destruct (locked !! k) as [v|]; [|done].
           destruct (decide (v = img_idx)); [done|]. congruence.
    + apply list_index_None in Hidx. subst perm'.
      split; [by rewrite list_lookup_insert_eq|].
      split; [|split; [|split; [|split]]].
      * intros (j & _ & Hpj). destruct Hidx. by eapply list_elem_of_lookup_2.
      * done.
      * intros _ d Hd.
        assert (d ≠ img_idx).
        { intros ->. apply Hidx. by eapply list_elem_of_lookup_2. }
        split.
        -- intros k. rewrite lookup_relocked.
           destruct (decide (k = leaf_id)); [congruence|].
           destruct (locked !! k) as [v|]; [|done].
           by destruct (decide (v = img_idx)).
        -- intros j Hj. destruct (decide (j = Z.to_nat leaf_id)) as [->|Hne].
           ++ rewrite list_lookup_insert_eq in Hj by done. congruence.
           ++ by rewrite list_lookup_insert_ne in Hj.
      * by rewrite lookup_relocked, decide_True.
      * intros k Hk. rewrite lookup_relocked, decide_False by done.
        destruct (locked !! k) as [v|]; [|done].
        destruct (decide (v = img_idx)); [done|]. congruence.
  - intros s page A B C D locked Hpage Hperm Hlocked HAB HB Honly.
    destruct (handle_drop_Done s page 2 B [A; B; C; D] locked)
      as (perm' & Hplace & Hdrop); try done.
    eexists. split; [exact Hdrop|].
    unfold dropped; simpl. split.
    + rewrite list_lookup_insert_eq by (by eapply lookup_lt_Some).
      f_equal. rewrite place_image_first in Hplace by done.
      injection Hplace as <-. simpl.
      rewrite decide_False by done. rewrite decide_True by done. simpl.
      done.
    + rewrite list_lookup_insert_eq by (by eapply lookup_lt_Some).
      f_equal. apply map_eq. intros k. rewrite lookup_relocked.
      destruct (decide (k = 2)) as [->|Hk].
      * by rewrite lookup_singleton_eq.
      * rewrite lookup_singleton_ne by done.
        destruct (locked !! k) as [v|] eqn:Hv; [|done].
        destruct (Honly k v Hv) as [->|?]; [|done].
        by rewrite decide_True.
Qed.

Lemma handle_drop_swap_or_overwrite_witness :
  (∃ perm' locked' s',
     handle_drop 0 1 4 one_page = Ok (Done, s') ∧
     pages_perms s' = [perm'] ∧
     pages_locks s' = [locked'] ∧
     perm' = [0; 4; 2; 3]) ∧
  (∃ s',
     handle_drop 0 2 1 one_page = Ok (Done, s') ∧
     pages_perms s' !! 0%nat = Some [0; 2; 1; 3] ∧
     pages_locks s' !! 0%nat = Some {[2 := 1]}).
Proof.
  split.
  - destruct (proj1 handle_drop_swap_or_overwrite one_page 0%nat 1 4 [0; 1; 2; 3] ∅)
      as (perm' & locked' & s' & Hdrop & Hperms & Hlocks & _ & _ & Hover & _);
      [simpl; lia | reflexivity | reflexivity | vm_compute; split; congruence
      | vm_compute; split; congruence |].
    exists perm', locked', s'. repeat split; try done.
    apply Hover. intros [|[|[|[|[|j]]]]]; simpl; try done; intros [=].
  - apply (proj2 handle_drop_swap_or_overwrite one_page 0%nat 0 1 2 3 ∅);
      [simpl; lia | reflexivity | reflexivity | lia | vm_compute; split; congruence
      | by intros k v].
Defined.

Lemma apply_drop_locks_unique (page_idx leaf_id img_idx : Z) (s : AlbumWindow) :
  locks_unique s -> locks_unique (apply_drop page_idx leaf_id img_idx s).
Proof.
  intros Hs.
  destruct (apply_drop_cases page_idx leaf_id img_idx s) as [->|H]; [done|].
  destruct H as (n & m & perm & locked & perm' & _ & Hm & _ & _ & ->).
  unfold locks_unique, dropped. simpl.
  apply Forall_insert; [done|].
  apply relocked_unique. by eapply (Forall_lookup_1 _ _ _ _ Hs).
Qed.

Lemma run_drops_locks_unique (ops : list (Z * Z * Z)) (s : AlbumWindow) :
  locks_unique s -> locks_unique (run_drops ops s).
Proof.
  revert s. induction ops as [|op ops IH]; intros s Hs; [done|].
  simpl. apply IH. by apply apply_drop_locks_unique.
Qed.

(** C2. Starting from a window in which no page's lock map gives one image
    to two leaves, the same holds after every drop of any sequence of
    drops; a completed drop leaves the image locked on the target leaf and
    on no other leaf of that page. *)
Theorem drops_keep_lock_values_unique :
  (∀ (ops : list (Z * Z * Z)) (s : AlbumWindow),
      locks_unique s ->
      ∀ n : nat, locks_unique (run_drops (take n ops) s)) ∧
  (∀ (page_idx leaf_id img_idx : Z) (s s' : AlbumWindow),
      handle_drop page_idx leaf_id img_idx s = Ok (Done, s') ->
      ∃ m locked locked',
        py_pos (pages_locks s) page_idx = Some m ∧
        pages_locks s !! m = Some locked ∧
        pages_locks s' = <[m := locked']> (pages_locks s) ∧
        locked' !! leaf_id = Some img_idx ∧
        (∀ k, k ≠ leaf_id -> locked' !! k ≠ Some img_idx) ∧
        (∀ k v, k ≠ leaf_id -> v ≠ img_idx -> locked' !! k = Some v <-> locked !! k = Some v)).
Proof.
  split.
  - intros ops s Hs n. by apply run_drops_locks_unique.
  - intros page_idx leaf_id img_idx s s' Hdrop.
    destruct (handle_drop_cases page_idx leaf_id img_idx s) as [H|H].
    + by destruct (H _ _ Hdrop).
    + destruct H as (n & m & perm & locked & perm' & _ & Hm & _ & Hlm & _ & _ & _ & Heq).
      rewrite Heq in Hdrop. injection Hdrop as <-.
      exists m, locked, (<[leaf_id := img_idx]> (remove_previous_lock leaf_id img_idx locked)).
      split; [done|]. split; [done|]. split; [done|].
      split; [by rewrite lookup_relocked, decide_True|]. split.
      * intros k Hk. rewrite lookup_relocked, decide_False by done.
        destruct (locked !! k) as [v|]; [|done].
        destruct (decide (v = img_idx)); [done|]. congruence.
      * intros k v Hk Hv. rewrite lookup_relocked, decide_False by done.
        destruct (locked !! k) as [w|]; [|done].
        destruct (decide (w = img_idx)) as [->|]; [|done].
        split; [done|]. congruence.
Qed.

Lemma drops_keep_lock_values_unique_witness :
  locks_unique (run_drops (take 3 [(0, 2, 1); (0, 0, 1); (0, 7, 1)]) one_page) ∧
  pages_locks (run_drops [(0, 2, 1); (0, 0, 1); (0, 7, 1)] one_page) = [{[0 := 1]}].
Proof.
  split.
  - apply (proj1 drops_keep_lock_values_unique).
    unfold locks_unique. simpl. apply Forall_cons. split; [|apply Forall_nil_2].
    intros k1 k2 v H. by rewrite lookup_empty in H.
  - vm_compute. reflexivity.
Defined.

(** C8. A drop whose leaf or image is out of bounds for the page's
    permutation or for the image list returns at once: the outcome is
    [OutOfRange] and the window is the one it was, field for field. *)
Theorem handle_drop_out_of_range (s : AlbumWindow) (page_idx leaf_id img_idx : Z)
    (perm : list Z) (locked : gmap Z Z) :
  py_index (pages_perms s) page_idx = Ok perm ->
  py_index (pages_locks s) page_idx = Ok locked ->
  leaf_id < 0 ∨ len perm <= leaf_id ∨ img_idx < 0 ∨ len (image_paths s) <= img_idx ->
  handle_drop page_idx leaf_id img_idx s = Ok (OutOfRange, s).
Proof.
  intros Hperm Hlocked Hout. unfold handle_drop.
  destruct (bool_decide (pages_roots s = []) || (len (pages_roots s) <=? page_idx));
    [done|].
  rewrite Hperm. simpl. destruct (bool_decide (perm = [])); [done|].
  rewrite Hlocked. simpl.
  destruct ((leaf_id <? 0) || (len perm <=? leaf_id)) eqn:Hleaf; [done|].
  destruct ((img_idx <? 0) || (len (image_paths s) <=? img_idx)) eqn:Himg; [done|].
  apply orb_false_iff in Hleaf as [?%Z.ltb_ge ?%Z.leb_gt].
  apply orb_false_iff in Himg as [?%Z.ltb_ge ?%Z.leb_gt].
  lia.
Qed.

Lemma handle_drop_out_of_range_witness :
  handle_drop 0 4 1 one_page = Ok (OutOfRange, one_page) ∧
  handle_drop 0 2 5 one_page = Ok (OutOfRange, one_page).
Proof.
  split.
  - apply (handle_drop_out_of_range one_page 0 4 1 [0; 1; 2; 3] ∅);
      [reflexivity | reflexivity | right; left; vm_compute; congruence].
  - apply (handle_drop_out_of_range one_page 0 2 5 [0; 1; 2; 3] ∅);
      [reflexivity | reflexivity | right; right; right; vm_compute; congruence].
Defined.

(** C10. A completed drop also marks the dropped image "fit" (crop state
    [False]) and puts it into the forced-aspect set; these two fields
    change whenever the image was not already so marked. *)
Theorem handle_drop_sets_fit_and_forced (s s' : AlbumWindow) (page_idx leaf_id img_idx : Z) :
  handle_drop page_idx leaf_id img_idx s = Ok (Done, s') ->
  image_crop_states s' = <[img_idx := false]> (image_crop_states s) ∧
  forced_aspect_ratios s' = {[img_idx]} ∪ forced_aspect_ratios s ∧
  image_crop_states s' !! img_idx = Some false ∧
  img_idx ∈ forced_aspect_ratios s' ∧
  (image_crop_states s !! img_idx ≠ Some false ->
   image_crop_states s' ≠ image_crop_states s) ∧
  (img_idx ∉ forced_aspect_ratios s ->
   forced_aspect_ratios s' ≠ forced_aspect_ratios s).
Proof.
  intros Hdrop.
  destruct (handle_drop_cases page_idx leaf_id img_idx s) as [H|H].
  - by destruct (H _ _ Hdrop).
  - destruct H as (n & m & perm & locked & perm' & _ & _ & _ & _ & _ & _ & _ & Heq).
    rewrite Heq in Hdrop. injection Hdrop as <-.
    unfold dropped. simpl.
    split; [done|]. split; [done|].
    split; [by rewrite lookup_insert_eq|]. split; [set_solver|]. split.
    + intros Hne Heq'. apply Hne. rewrite <- Heq'. by rewrite lookup_insert_eq.
    + intros Hnotin Heq'. apply Hnotin. rewrite <- Heq'.
      apply elem_of_union_l. by apply elem_of_singleton.
Qed.

Lemma handle_drop_sets_fit_and_forced_witness :
  image_crop_states (apply_drop 0 2 1 one_page) = {[1 := false]} ∧
  forced_aspect_ratios (apply_drop 0 2 1 one_page) = {[1]} ∧
  image_crop_states (apply_drop 0 2 1 one_page) ≠ image_crop_states one_page.
Proof.
  destruct (handle_drop_sets_fit_and_forced one_page (apply_drop 0 2 1 one_page) 0 2 1)
    as (H1 & H2 & _ & _ & H3 & _); [vm_compute; reflexivity|].
  split; [exact H1|]. split; [rewrite H2; vm_compute; reflexivity|].
  apply H3. simpl. by rewrite lookup_empty.
Defined.

(** ** The modelled tree builder

    The builder modelled from the specification returns, for every power of
    two, a tree whose leaf ids are exactly [0 .. count-1]: the size
    condition the configuration results below ask of a builder can be
    met. *)

Lemma is_power_of_two_pos (c : Z) : sa.is_power_of_two c = true -> 0 < c.
Proof. unfold sa.is_power_of_two. intros [H%Z.ltb_lt _]%andb_true_iff. done. Qed.

Lemma full_tree_leaf_ids (depth : nat) (first_id : Z) (d : Direction) (t : Q) :
  sa.node_leaf_ids (sa.full_tree depth first_id d t)
    = list_to_set (seqZ first_id (2 ^ Z.of_nat depth)).
Proof.
  revert first_id d. induction depth as [|k IH]; intros first_id d.
  - cbn [sa.full_tree sa.node_leaf_ids]. change (2 ^ Z.of_nat 0) with 1.
    rewrite seqZ_cons, seqZ_nil by lia. by rewrite list_to_set_singleton_L.
  - cbn [sa.full_tree sa.node_leaf_ids]. rewrite !IH.
    replace (2 ^ Z.of_nat (S k)) with (2 ^ Z.of_nat k + 2 ^ Z.of_nat k)
      by (rewrite Nat2Z.inj_succ, Z.pow_succ_r; lia).
    assert (0 < 2 ^ Z.of_nat k) by (apply Z.pow_pos_nonneg; lia).
    rewrite seqZ_app by lia. by rewrite list_to_set_app_L.
Qed.

Lemma is_power_of_two_log2 (c : Z) :
  sa.is_power_of_two c = true -> 2 ^ Z.log2 c = c.
Proof.
  unfold sa.is_power_of_two.
  intros [Hpos%Z.ltb_lt Hland%Z.eqb_eq]%andb_true_iff.
  destruct (Z.log2_spec c Hpos) as [Hlo Hhi].
  destruct (decide (2 ^ Z.log2 c = c)) as [|Hne]; [done|]. exfalso.
  assert (Hlog : Z.log2 (c - 1) = Z.log2 c).
  { apply Z.log2_unique; [apply Z.log2_nonneg|]. lia. }
  assert (Hbit : Z.testbit (Z.land c (c - 1)) (Z.log2 c) = true).
  { assert (0 < c - 1).
    { pose proof (Z.pow_pos_nonneg 2 (Z.log2 c) ltac:(lia) (Z.log2_nonneg c)). lia. }
    rewrite Z.land_spec, Z.bit_log2 by done.
    rewrite <- Hlog. by rewrite Z.bit_log2. }
  rewrite Hland in Hbit. by rewrite Z.bits_0 in Hbit.
Qed.

Lemma build_full_tree_initial : sa.build_full_tree 4 42 = Ok initial_tree.
Proof. reflexivity. Qed.

Lemma build_full_tree_leaves (count seed : Z) :
  sa.is_power_of_two count = true ->
  ∃ n, sa.build_full_tree count seed = Ok n ∧
       sa.leaf_ids (Some n) = list_to_set (seqZ 0 count) ∧
       leaf_count (Some n) = count.
Proof.
  intros Hpow. unfold sa.build_full_tree. rewrite Hpow. eexists. split; [done|].
  assert (Hids : ∀ d t,
             sa.node_leaf_ids (sa.full_tree (Z.to_nat (Z.log2 count)) 0 d t)
             = list_to_set (seqZ 0 count)).
  { intros d t. rewrite full_tree_leaf_ids.
    rewrite Z2Nat.id by apply Z.log2_nonneg. by rewrite is_power_of_two_log2. }
  split; [apply Hids|].
  unfold leaf_count. simpl. rewrite Hids.
  rewrite size_list_to_set by apply NoDup_seqZ. rewrite length_seqZ.
  pose proof (is_power_of_two_pos count Hpow). lia.
Qed.

(** ** Page configuration *)

Lemma set_num_pages_spin_same (s : AlbumWindow) :
  set_num_pages_spin (num_pages_spin s) s = s.
Proof. by destruct s. Qed.

(** Reading the configuration touches the page spin box only. *)
Lemma read_page_counts_window (s : AlbumWindow) :
  (read_page_counts s).1 = set_num_pages_spin (num_pages_spin (read_page_counts s).1) s.
Proof.
  unfold read_page_counts.
  destruct (contains_char "," (strip (page_config_edit s))).
  - destruct (py_map _ _); simpl; [done|]. by rewrite set_num_pages_spin_same.
  - destruct (if is_empty _ then _ else _); simpl; by rewrite set_num_pages_spin_same.
Qed.

Lemma parse_page_config_fst (s : AlbumWindow) :
  (parse_page_config s).1 = (read_page_counts s).1.
Proof. unfold parse_page_config. by destruct (read_page_counts s). Qed.

Lemma parse_page_config_snd (s : AlbumWindow) :
  (parse_page_config s).2 =
    (page_counts ← (read_page_counts s).2; validate_powers page_counts).
Proof. unfold parse_page_config. by destruct (read_page_counts s). Qed.

Lemma validate_powers_Ok (page_counts l : list Z) :
  validate_powers page_counts = Ok l ->
  l = page_counts ∧ Forall (fun c => sa.is_power_of_two c = true) page_counts.
Proof.
  unfold validate_powers.
  destruct (forallb sa.is_power_of_two page_counts) eqn:H; [|done].
  intros [= <-]. split; [done|]. apply Forall_forall. intros c Hc.
  rewrite forallb_forall in H. apply H. by apply list_elem_of_In.
Qed.

Lemma validate_powers_Raise (page_counts : list Z) (c : Z) :
  c ∈ page_counts -> sa.is_power_of_two c = false ->
  validate_powers page_counts = Raise ValueError.
Proof.
  intros Hc Hpow. unfold validate_powers.
  destruct (forallb sa.is_power_of_two page_counts) eqn:H; [|done].
  rewrite forallb_forall in H. apply list_elem_of_In in Hc.
  rewrite (H c Hc) in Hpow. done.
Qed.

(** C4. In list mode [init_trees] sets the page spin box to the number of
    counts read before it checks that the counts are powers of two.  The
    list [3,4], typed into a window with one page and the spin box at 1,
    is refused with titles, trees, permutations and locks as they were,
    but leaves the spin box at 2, whatever the builder and the generator.
    The window is half-updated: the text [4], which before the refused
    list gave one page and kept the lock, gives two pages without locks
    after it.  The sibling paths leave the window alone: a count that is
    no power of two in uniform mode ([3]) and a list that does not parse
    ([4,x]). *)
Theorem init_trees_refused_list_leaves_spin_changed :
  (∀ (build_full_tree : Builder) (g : Rng),
     init_trees build_full_tree bad_list_text g
     = (InvalidConfiguration, set_num_pages_spin 2 bad_list_text, g)) ∧
  num_pages_spin bad_list_text = 1 ∧
  length (pages_roots bad_list_text) = 1%nat ∧
  (∀ (build_full_tree : Builder) (g : Rng),
     init_trees build_full_tree (set_page_config_edit "3"%string with_lock) g
     = (InvalidConfiguration, set_page_config_edit "3"%string with_lock, g)) ∧
  (∀ (build_full_tree : Builder) (g : Rng),
     init_trees build_full_tree (set_page_config_edit "4,x"%string with_lock) g
     = (InvalidConfiguration, set_page_config_edit "4,x"%string with_lock, g)) ∧
  ((init_trees sa.build_full_tree with_lock zeros).1.1 = Done ∧
   length (pages_roots (init_trees sa.build_full_tree with_lock zeros).1.2) = 1%nat ∧
   pages_locks (init_trees sa.build_full_tree with_lock zeros).1.2 = [{[2 := 1]}]) ∧
  ((init_trees sa.build_full_tree after_bad_list_text zeros).1.1 = Done ∧
   length (pages_roots (init_trees sa.build_full_tree after_bad_list_text zeros).1.2)
   = 2%nat ∧
   pages_locks (init_trees sa.build_full_tree after_bad_list_text zeros).1.2 = [∅; ∅]) ∧
  after_bad_list_text = set_num_pages_spin 2 with_lock.
Proof.
  split; [intros build_full_tree g; reflexivity|].
  split; [reflexivity|]. split; [reflexivity|].
  split; [intros build_full_tree g; reflexivity|].
  split; [intros build_full_tree g; reflexivity|].
  split; [split_and!; vm_compute; reflexivity|].
  split; [split_and!; vm_compute; reflexivity|].
  reflexivity.
Qed.

(** *** The shuffled pool *)

Lemma py_swap_Permutation {A : Type} (i j : nat) (x : list A) : py_swap i j x ≡ₚ x.
Proof.
  unfold py_swap.
  destruct (x !! j) as [a|] eqn:Hj; [|done].
  destruct (x !! i) as [b|] eqn:Hi; [|done].
  by eapply Permutation_insert_swap.
Qed.

Lemma shuffle_from_Permutation {A : Type} (i : nat) (x : list A) (g : Rng) :
  (shuffle_from i x g).1 ≡ₚ x.
Proof.
  revert x g. induction i as [|i IH]; intros x g; simpl; [done|].
  rewrite IH. apply py_swap_Permutation.
Qed.

Lemma random_shuffle_Permutation {A : Type} (x : list A) (g : Rng) :
  (random_shuffle x g).1 ≡ₚ x.
Proof. apply shuffle_from_Permutation. Qed.

Lemma random_choice_elem (l : list Z) (g : Rng) :
  l ≠ [] -> (random_choice l g).1 ∈ l.
Proof.
  intros Hl. unfold random_choice, randbelow. simpl.
  assert (Hlt : (Z.to_nat (Z.modulo (g 0%nat) (len l)) < length l)%nat).
  { assert (0 < len l) by (destruct l; [done|]; unfold len; simpl; lia).
    pose proof (Z.mod_pos_bound (g 0%nat) (len l)). unfold len in *. lia. }
  destruct (lookup_lt_is_Some_2 l _ Hlt) as [y Hy]. rewrite Hy. simpl.
  by eapply list_elem_of_lookup_2.
Qed.

Lemma pad_perm_app (missing : nat) (page_perm pool_indices : list Z) (g : Rng) :
  pool_indices ≠ [] ->
  ∃ padding,
    (pad_perm missing page_perm pool_indices g).1 = page_perm ++ padding ∧
    length padding = missing ∧
    Forall (fun x => x ∈ pool_indices) padding.
Proof.
  intros Hpool. revert page_perm g.
  induction missing as [|m IH]; intros page_perm g; simpl.
  - exists []. by rewrite app_nil_r.
  - rewrite bool_decide_eq_false_2 by done.
    pose proof (random_choice_elem pool_indices g Hpool) as Hin.
    destruct (random_choice pool_indices g) as [x g1]. simpl in Hin.
    destruct (IH (page_perm ++ [x]) g1) as (padding & Heq & Hlen & Hall).
    exists (x :: padding). rewrite Heq, <- app_assoc. simpl.
    split; [done|]. split; [by rewrite Hlen|]. by apply Forall_cons.
Qed.

Lemma len_app {A : Type} (l k : list A) : len (l ++ k) = len l + len k.
Proof. unfold len. rewrite length_app. lia. Qed.

Lemma len_py_slice_run {A : Type} (pool : list A) (start count : Z) :
  0 <= start -> 0 <= count ->
  len (py_slice pool start (Z.min (start + count) (len pool))) <= count.
Proof.
  intros Hs Hc. unfold py_slice, slice_bound, len.
  rewrite length_take, length_drop.
  replace (start <? 0) with false by (symmetry; apply Z.ltb_ge; lia).
  replace (Z.min (start + count) (Z.of_nat (length pool)) <? 0) with false
    by (symmetry; apply Z.ltb_ge; lia).
  lia.
Qed.

Lemma len_py_slice_short {A : Type} (pool : list A) (start count : Z) :
  0 <= start -> 0 <= count ->
  len (py_slice pool start (Z.min (start + count) (len pool))) < count ->
  len pool < start + count.
Proof.
  intros Hs Hc. unfold py_slice, slice_bound, len.
  rewrite length_take, length_drop.
  replace (start <? 0) with false by (symmetry; apply Z.ltb_ge; lia).
  replace (Z.min (start + count) (Z.of_nat (length pool)) <? 0) with false
    by (symmetry; apply Z.ltb_ge; lia).
  lia.
Qed.

Lemma distribute_sliced (page_counts : list Z) (start : Z) (pool : list Z) (g : Rng) :
  pool ≠ [] -> Forall (fun c => 0 <= c) page_counts -> 0 <= start ->
  sliced pool start page_counts (distribute page_counts start pool g).1.
Proof.
  intros Hpool Hpos. revert start g.
  induction Hpos as [|count counts Hc Hpos IH]; intros start g Hstart; simpl.
  - constructor.
  - set (run := py_slice pool start (Z.min (start + count) (len pool))).
    pose proof (len_py_slice_run pool start count Hstart Hc) as Hrun.
    fold run in Hrun.
    destruct (pad_perm_app (Z.to_nat (count - len run)) run pool g Hpool)
      as (padding & Heq & Hlen & Hall).
    destruct (pad_perm _ run pool g) as [page_perm g1]. simpl in Heq. subst page_perm.
    specialize (IH (start + count) g1).
    destruct (distribute counts (start + count) pool g1) as [perms g2]. simpl in *.
    constructor; [done| | |apply IH; lia].
    + destruct padding as [|x padding]; [by left|]. right.
      apply len_py_slice_short; [done..|]. fold run. simpl in Hlen. lia.
    + fold run. rewrite len_app. unfold len at 2. rewrite Hlen. lia.
Qed.

Lemma sliced_lengths (pool : list Z) (start : Z) (page_counts : list Z)
    (perms : list (list Z)) :
  sliced pool start page_counts perms ->
  Forall2 (fun count perm => len perm = count) page_counts perms.
Proof. induction 1; constructor; done. Qed.

Lemma fallback_counts_pos (s1 : AlbumWindow) (page_counts l : list Z) :
  fallback_counts s1 (page_counts' ← Ok page_counts; validate_powers page_counts') = Some l ->
  l ≠ [] ∧ Forall (fun c => 0 < c) l.
Proof.
  simpl. unfold fallback_counts.
  destruct (validate_powers page_counts) as [l'|e] eqn:Hv.
  - apply validate_powers_Ok in Hv as [-> Hall].
    destruct page_counts as [|c counts].
    + intros [= <-]. split; [done|]. repeat constructor.
    + intros [= <-]. split; [done|].
      eapply Forall_impl; [exact Hall|]. intros x. apply is_power_of_two_pos.
  - destruct (bool_decide (pages_roots s1 = [])); [|done].
    intros [= <-]. split; [done|]. repeat constructor.
Qed.

Lemma page_counts_of_pos (s : AlbumWindow) (l : list Z) :
  page_counts_of s = Some l -> l ≠ [] ∧ Forall (fun c => 0 < c) l.
Proof.
  unfold page_counts_of. rewrite parse_page_config_snd.
  destruct ((read_page_counts s).2) as [counts|e].
  - apply fallback_counts_pos.
  - simpl. unfold fallback_counts.
    destruct (bool_decide _); [|done].
    intros [= <-]. split; [done|]. repeat constructor.
Qed.

(** What a completed [init_trees] computed, step by step. *)
Lemma init_trees_Done (build_full_tree : Builder) (s s' : AlbumWindow) (g g' : Rng) :
  init_trees build_full_tree s g = (Done, s', g') ->
  ∃ page_counts,
    image_paths s ≠ [] ∧
    page_counts_of s = Some page_counts ∧
    build_roots build_full_tree 0 page_counts = Ok (pages_roots s') ∧
    pages_perms s' =
      (distribute page_counts 0
         (random_shuffle (Z.of_nat <$> seq 0 (length (image_paths s))) g).1
         (random_shuffle (Z.of_nat <$> seq 0 (length (image_paths s))) g).2).1 ∧
    pages_locks s' = keep_locks page_counts (pages_locks s) ∧
    page_titles s' = new_page_titles (parse_page_config s).1 (length page_counts).
Proof.
  unfold init_trees, page_counts_of.
  destruct (len (image_paths s) =? 0) eqn:Hn; [done|].
  pose proof (parse_page_config_fst s) as Hfst.
  pose proof (read_page_counts_window s) as Hwin.
  destruct (parse_page_config s) as [s1 parsed]. simpl in *. subst s1.
  destruct (fallback_counts _ parsed) as [page_counts|]; [|done].
  destruct (build_roots build_full_tree 0 page_counts) as [roots|e] eqn:Hb; [|done].
  destruct (random_shuffle _ g) as [pool g1].
  destruct (distribute page_counts 0 pool g1) as [perms g2] eqn:Hd.
  intros [= <- <-]. exists page_counts. simpl.
  split. { intros E. rewrite E in Hn. done. }
  split; [done|]. split; [done|]. split; [by rewrite Hd|]. split; [|done].
  revert Hwin. generalize (num_pages_spin (read_page_counts s).1). by intros v ->.
Qed.

Lemma build_roots_lookup (build_full_tree : Builder) (i0 : Z) (page_counts : list Z)
    (roots : list (option Node)) :
  build_roots build_full_tree i0 page_counts = Ok roots ->
  length roots = length page_counts ∧
  ∀ (i : nat) count,
    page_counts !! i = Some count ->
    ∃ n, roots !! i = Some (Some n) ∧
         build_full_tree count (42 + (i0 + Z.of_nat i)) = Ok n.
Proof.
  revert i0 roots. induction page_counts as [|c counts IH]; intros i0 roots; simpl.
  - intros [= <-]. split; [done|]. intros i count Hi. done.
  - destruct (build_full_tree c (42 + i0)) as [n|e] eqn:Hn; [|done]. simpl.
    destruct (build_roots build_full_tree (i0 + 1) counts) as [rest|e] eqn:Hrest; [|done].
    simpl. intros [= <-]. destruct (IH _ _ Hrest) as [Hlen Hlk].
    split; [simpl; by rewrite Hlen|].
    intros [|i] count Hi; simpl in *.
    + injection Hi as <-. exists n. split; [done|].
      by replace (42 + (i0 + Z.of_nat 0)) with (42 + i0) by lia.
    + destruct (Hlk i count Hi) as (n' & ? & Hb). exists n'. split; [done|].
      by replace (42 + (i0 + Z.of_nat (S i))) with (42 + (i0 + 1 + Z.of_nat i)) by lia.
Qed.

(** C9. After a completed reconfiguration there is one permutation per
    page, each as long as the page's slot count, hence as long as the leaf
    count of the page's tree whenever the builder returns trees of the size
    asked for.  The permutations come from one shuffle of the whole index
    pool: page after page the next contiguous run of the shuffled pool, cut
    at the end of the pool and padded up to the count with members of the
    pool. *)
Theorem init_trees_permutation_lengths (build_full_tree : Builder)
    (s s' : AlbumWindow) (g g' : Rng) :
  init_trees build_full_tree s g = (Done, s', g') ->
  ∃ page_counts pool,
    page_counts_of s = Some page_counts ∧
    pool ≡ₚ (Z.of_nat <$> seq 0 (length (image_paths s))) ∧
    sliced pool 0 page_counts (pages_perms s') ∧
    Forall2 (fun count perm => len perm = count) page_counts (pages_perms s') ∧
    length (pages_roots s') = length (pages_perms s') ∧
    ((∀ (i : nat) count n,
         page_counts !! i = Some count ->
         build_full_tree count (42 + Z.of_nat i) = Ok n ->
         leaf_count (Some n) = count) ->
     Forall2 (fun root perm => len perm = leaf_count root)
       (pages_roots s') (pages_perms s')).
Proof.
  intros Hrun.
  destruct (init_trees_Done _ _ _ _ _ Hrun)
    as (page_counts & Himg & Hcounts & Hroots & Hperms & _ & _).
  pose proof (random_shuffle_Permutation
                (Z.of_nat <$> seq 0 (length (image_paths s))) g) as Hshuffle.
  destruct (random_shuffle _ g) as [pool g1]. simpl in *.
  exists page_counts, pool. split; [done|]. split; [done|].
  destruct (page_counts_of_pos _ _ Hcounts) as [_ Hpos].
  assert (Hsliced : sliced pool 0 page_counts (pages_perms s')).
  { rewrite Hperms. apply distribute_sliced; [| |done].
    - intros ->. apply Permutation_nil_l in Hshuffle.
      destruct (image_paths s); [done|]. done.
    - eapply Forall_impl; [exact Hpos|]. simpl. lia. }
  split; [done|].
  pose proof (sliced_lengths _ _ _ _ Hsliced) as Hlens.
  split; [done|].
  destruct (build_roots_lookup _ _ _ _ Hroots) as [Hlen Hlk].
  split; [rewrite Hlen; by apply Forall2_length in Hlens|].
  intros Hcontract. apply Forall2_same_length_lookup_2.
  { rewrite Hlen. by apply Forall2_length in Hlens. }
  intros i root perm Hroot Hperm.
  destruct (lookup_lt_is_Some_2 page_counts i) as [count Hcount].
  { rewrite <- Hlen. by eapply lookup_lt_Some. }
  destruct (Hlk i count Hcount) as (n & Hn & Hb).
  rewrite Hroot in Hn. injection Hn as ->.
  rewrite (Hcontract i count n Hcount) by (by rewrite Z.add_0_l in Hb).
  by eapply (Forall2_lookup_lr _ _ _ _ _ _ Hlens).
Qed.

(** ** Locks across reconfiguration *)

Lemma keep_locks_same_length (page_counts : list Z) (locks : list (gmap Z Z))
    (i : nat) (limit : Z) (locked : gmap Z Z) :
  length locks = length page_counts ->
  page_counts !! i = Some limit ->
  locks !! i = Some locked ->
  ∃ locked',
    keep_locks page_counts locks !! i = Some locked' ∧
    ∀ k, locked' !! k = if decide (k < limit) then locked !! k else None.
Proof.
  intros Hlen Hlimit Hlocked. unfold keep_locks.
  rewrite bool_decide_eq_false_2 by (intros H; by apply H).
  eexists. split.
  - rewrite lookup_zip_with, Hlimit. simpl. by rewrite Hlocked.
  - intros k. destruct (decide (k < limit)) as [Hk|Hk].
    + destruct (locked !! k) as [v|] eqn:Hv.
      * apply map_lookup_filter_Some. split; [done|]. simpl. lia.
      * apply map_lookup_filter_None. by left.
    + apply map_lookup_filter_None. right. intros v _. simpl. lia.
Qed.

(** C5, as the code has it.  A completed reconfiguration keeps the locks
    only when the number of pages equals the number of lock maps there
    were: then, page by page, a lock stays iff its leaf id is below the
    page's new slot count.  When the number of pages changes, every page
    starts with an empty lock map. *)
Theorem init_trees_locks_kept_when_page_count_unchanged (build_full_tree : Builder)
    (s s' : AlbumWindow) (g g' : Rng) (page_counts : list Z) :
  init_trees build_full_tree s g = (Done, s', g') ->
  page_counts_of s = Some page_counts ->
  (length (pages_locks s) = length page_counts ->
   ∀ (i : nat) limit locked,
     page_counts !! i = Some limit ->
     pages_locks s !! i = Some locked ->
     ∃ locked',
       pages_locks s' !! i = Some locked' ∧
       ∀ k, locked' !! k = if decide (k < limit) then locked !! k else None) ∧
  (length (pages_locks s) ≠ length page_counts ->
   pages_locks s' = replicate (length page_counts) ∅).
Proof.
  intros Hrun Hcounts.
  destruct (init_trees_Done _ _ _ _ _ Hrun)
    as (page_counts' & _ & Hcounts' & _ & _ & Hlocks & _).
  rewrite Hcounts in Hcounts'. injection Hcounts' as <-.
  rewrite Hlocks. split.
  - intros Hlen i limit locked Hlimit Hlocked. by apply keep_locks_same_length.
  - intros Hlen. unfold keep_locks. by rewrite bool_decide_eq_true_2.
Qed.

Lemma init_trees_locks_kept_when_page_count_unchanged_witness :
  ∃ locked',
    pages_locks (init_trees sa.build_full_tree two_locks_then_resized zeros).1.2 !! 0%nat
      = Some locked' ∧
    locked' !! 0 = Some 1 ∧ locked' !! 3 = None.
Proof.
  destruct (init_trees_locks_kept_when_page_count_unchanged sa.build_full_tree
              two_locks_then_resized
              (init_trees sa.build_full_tree two_locks_then_resized zeros).1.2
              zeros
              (init_trees sa.build_full_tree two_locks_then_resized zeros).2
              [2])
    as [Hkept _]; [vm_compute; reflexivity | vm_compute; reflexivity |].
  destruct (Hkept eq_refl 0%nat 2 {[0 := 1; 3 := 2]})
    as (locked' & Hlocked' & Hlk); [reflexivity | vm_compute; reflexivity |].
  exists locked'. split; [exact Hlocked'|]. rewrite !Hlk. split; reflexivity.
Defined.

(** C5 as stated fails: the lock of image 1 on leaf 0 of page 0 is gone
    after going from one page to two pages of four, although page 0 still
    exists and leaf 0 is within its four leaves. *)
Lemma init_trees_page_count_change_drops_locks :
  pages_locks locked_then_two_pages !! 0%nat = Some {[0 := 1]} ∧
  (init_trees sa.build_full_tree locked_then_two_pages zeros).1.1 = Done ∧
  leaf_count <$> pages_roots (init_trees sa.build_full_tree locked_then_two_pages zeros).1.2
    = [4; 4] ∧
  pages_locks (init_trees sa.build_full_tree locked_then_two_pages zeros).1.2 !! 0%nat
    = Some ∅.
Proof. vm_compute. repeat split. Qed.

Lemma init_trees_permutation_lengths_witness :
  Forall2 (fun root perm => len perm = leaf_count root)
    (pages_roots (init_trees sa.build_full_tree
                    (set_page_config_edit "4,2"%string one_page) zeros).1.2)
    (pages_perms (init_trees sa.build_full_tree
                    (set_page_config_edit "4,2"%string one_page) zeros).1.2) ∧
  pages_perms (init_trees sa.build_full_tree
                 (set_page_config_edit "4,2"%string one_page) zeros).1.2
    = [[1; 2; 3; 4]; [0; 1]].
Proof.
  split; [|vm_compute; reflexivity].
  destruct (init_trees_permutation_lengths sa.build_full_tree
              (set_page_config_edit "4,2"%string one_page)
              (init_trees sa.build_full_tree
                 (set_page_config_edit "4,2"%string one_page) zeros).1.2
              zeros
              (init_trees sa.build_full_tree
                 (set_page_config_edit "4,2"%string one_page) zeros).2)
    as (page_counts & pool & Hcounts & _ & _ & _ & _ & Hleaves);
    [vm_compute; reflexivity|].
  apply Hleaves. vm_compute in Hcounts. injection Hcounts as <-.
  intros [|[|i]] count n Hcount Hbuild; simpl in Hcount; [| |done].
  - injection Hcount as <-. vm_compute in Hbuild. injection Hbuild as <-.
    vm_compute. reflexivity.
  - injection Hcount as <-. vm_compute in Hbuild. injection Hbuild as <-.
    vm_compute. reflexivity.
Defined.

(** ** Optimisation dispatch *)

Lemma set_pages_roots_same (s : AlbumWindow) : set_pages_roots (pages_roots s) s = s.
Proof. by destruct s. Qed.

(** Selection and hand-over never touch trees, permutations or locks, and
    start a worker only on the completed path. *)
Lemma select_and_dispatch_frame (page_counts : list Z) (s1 : AlbumWindow) (g1 : Rng) :
  let r := select_and_dispatch page_counts s1 g1 in
  pages_roots r.1.2 = pages_roots s1 ∧
  pages_perms r.1.2 = pages_perms s1 ∧
  pages_locks r.1.2 = pages_locks s1 ∧
  r.2 = g1 ∧
  (r.1.1 ≠ Done -> r.1.2 = s1) ∧
  (r.1.1 = Done ->
   ∃ w, worker r.1.2 = Some w ∧ w_pages_roots w = pages_roots s1 ∧
        w_pages_locks w = pages_locks s1).
Proof.
  unfold select_and_dispatch.
  repeat match goal with
         | |- context [if ?b then _ else _] =>
             lazymatch b with
             | (_ <? Z.of_nat (size _)) => destruct b
             | (_ + _ <? _) => destruct b
             | bool_decide _ => destruct b
             end
         end; simpl; repeat split; try done; eauto.
Qed.

Lemma select_and_dispatch_over_mandatory (page_counts : list Z) (s1 : AlbumWindow)
    (g1 : Rng) :
  py_sum page_counts < Z.of_nat (size (mandatory_indices s1)) ->
  select_and_dispatch page_counts s1 g1 = (OverMandatory, s1, g1).
Proof.
  intros H. unfold select_and_dispatch. apply Z.ltb_lt in H. by rewrite H.
Qed.

Lemma select_and_dispatch_under_supply (page_counts : list Z) (s1 : AlbumWindow)
    (g1 : Rng) :
  Z.of_nat (size (mandatory_indices s1)) <= py_sum page_counts ->
  Z.of_nat (size (mandatory_indices s1)) + len (optional_indices s1)
    < py_sum page_counts ->
  select_and_dispatch page_counts s1 g1 = (UnderSupply, s1, g1).
Proof.
  intros H1 H2. unfold select_and_dispatch.
  apply Z.ltb_ge in H1. apply Z.ltb_lt in H2. by rewrite H1, H2.
Qed.

Lemma random_randint_range (a b : Z) (g : Rng) :
  a <= b -> a <= (random_randint a b g).1 <= b.
Proof.
  intros Hab. unfold random_randint, randbelow. simpl.
  pose proof (Z.mod_pos_bound (g 0%nat) (b - a + 1)). lia.
Qed.

Lemma rebuild_roots_cons (build_full_tree : Builder) (c : Z) (counts : list Z) (g : Rng) :
  rebuild_roots build_full_tree (c :: counts) g =
    (root ← build_full_tree c (random_randint 0 1000000 g).1;
     '(roots, g2) ← rebuild_roots build_full_tree counts (random_randint 0 1000000 g).2;
     Ok (Some root :: roots, g2)).
Proof. reflexivity. Qed.

Lemma rebuild_roots_built (build_full_tree : Builder) (page_counts : list Z) (g g1 : Rng)
    (roots : list (option Node)) :
  rebuild_roots build_full_tree page_counts g = Ok (roots, g1) ->
  Forall2 (fun count root =>
             ∃ seed n, 0 <= seed <= 1000000 ∧
                       build_full_tree count seed = Ok n ∧ root = Some n)
    page_counts roots.
Proof.
  revert g g1 roots. induction page_counts as [|c counts IH]; intros g g1 roots.
  - intros [= <- <-]. constructor.
  - rewrite rebuild_roots_cons.
    pose proof (random_randint_range 0 1000000 g ltac:(lia)) as Hseed.
    destruct (random_randint 0 1000000 g) as [seed g2]. simpl in Hseed.
    destruct (build_full_tree c seed) as [n|e] eqn:Hn; simpl; rewrite Hn; simpl; [|done].
    destruct (rebuild_roots build_full_tree counts g2) as [[rest g3]|e] eqn:Hrest;
      simpl; [|done].
    intros [= <- <-]. constructor; [|by eapply IH].
    exists seed, n. split; [lia|done].
Qed.

Lemma start_optimization_ready (build_full_tree : Builder) (s : AlbumWindow) (g : Rng) :
  pages_roots s ≠ [] -> pages_perms s ≠ [] ->
  start_optimization build_full_tree s g =
    match (if has_locks (pages_roots s) then Ok (pages_roots s, g)
           else rebuild_roots build_full_tree (leaf_count <$> pages_roots s) g) with
    | Raise e => (Raised e, s, g)
    | Ok (roots, g1) =>
        select_and_dispatch (leaf_count <$> pages_roots s) (set_pages_roots roots s) g1
    end.
Proof.
  intros Hr Hp. unfold start_optimization.
  by rewrite !bool_decide_eq_false_2.
Qed.

(** C6, as the code has it.  The gate of the rebuild is the locked flag of
    the trees' internal nodes, not the lock maps: when some page's tree has
    an internal node with the flag set, every tree is kept as it is; when
    none has, every tree is replaced by a tree the builder returns for the
    page's leaf count at a seed drawn from 0..1000000.  The trees handed to
    the worker are the trees the window then holds. *)
Theorem start_optimization_rebuild_gate (build_full_tree : Builder)
    (s : AlbumWindow) (g : Rng) :
  pages_roots s ≠ [] -> pages_perms s ≠ [] ->
  (has_locks (pages_roots s) = true ->
   pages_roots (start_optimization build_full_tree s g).1.2 = pages_roots s) ∧
  (has_locks (pages_roots s) = false ->
   ∀ roots g1,
     rebuild_roots build_full_tree (leaf_count <$> pages_roots s) g = Ok (roots, g1) ->
     pages_roots (start_optimization build_full_tree s g).1.2 = roots ∧
     Forall2 (fun old new =>
                ∃ seed n, 0 <= seed <= 1000000 ∧
                          build_full_tree (leaf_count old) seed = Ok n ∧ new = Some n)
       (pages_roots s) roots) ∧
  ((start_optimization build_full_tree s g).1.1 = Done ->
   ∃ w, worker (start_optimization build_full_tree s g).1.2 = Some w ∧
        w_pages_roots w = pages_roots (start_optimization build_full_tree s g).1.2).
Proof.
  intros Hr Hp. rewrite start_optimization_ready by done.
  split; [|split].
  - intros ->.
    destruct (select_and_dispatch_frame (leaf_count <$> pages_roots s)
                (set_pages_roots (pages_roots s) s) g) as (-> & _). done.
  - intros -> roots g1 Hbuild. rewrite Hbuild.
    destruct (select_and_dispatch_frame (leaf_count <$> pages_roots s)
                (set_pages_roots roots s) g1) as (-> & _). split; [done|].
    apply rebuild_roots_built in Hbuild. by apply Forall2_fmap_l in Hbuild.
  - destruct (if has_locks (pages_roots s) then _ else _) as [[roots g1]|e]; [|done].
    intros Hdone.
    destruct (select_and_dispatch_frame (leaf_count <$> pages_roots s)
                (set_pages_roots roots s) g1) as (Hroots & _ & _ & _ & _ & Hw).
    destruct (Hw Hdone) as (w & Hworker & Hwr & _).
    exists w. split; [done|]. by rewrite Hwr, Hroots.
Qed.

Lemma start_optimization_rebuild_gate_witness :
  pages_roots (start_optimization sa.build_full_tree flagged_page zeros).1.2
    = pages_roots flagged_page ∧
  pages_roots (start_optimization sa.build_full_tree one_page zeros).1.2
    = [Some (sa.full_tree 2 0 Horizontal (Qmake 1 10))].
Proof.
  split.
  - apply (start_optimization_rebuild_gate sa.build_full_tree flagged_page zeros);
      [done | done | reflexivity].
  - apply (start_optimization_rebuild_gate sa.build_full_tree one_page zeros)
      with (g1 := fun _ => 0); [done | done | reflexivity | reflexivity].
Defined.

(** C6 as stated fails: with image 1 locked on leaf 2 the page's lock map
    is not empty, the run is dispatched, and the page's tree is replaced
    all the same. *)
Lemma start_optimization_rebuilds_despite_lock_map :
  pages_locks (apply_drop 0 2 1 one_page) = [{[2 := 1]}] ∧
  (start_optimization sa.build_full_tree (apply_drop 0 2 1 one_page) zeros).1.1 = Done ∧
  pages_roots (start_optimization sa.build_full_tree (apply_drop 0 2 1 one_page) zeros).1.2
    ≠ pages_roots (apply_drop 0 2 1 one_page).
Proof.
  split; [vm_compute; reflexivity|]. split; [vm_compute; reflexivity|].
  intros H. vm_compute in H. discriminate H.
Qed.

(** The validation of step C comes after the rebuild: a request with too
    many mandatory images, or too few images, is refused on the window that
    already carries the rebuilt trees. *)
Lemma start_optimization_refused (build_full_tree : Builder) (s : AlbumWindow) (g g1 : Rng)
    (roots : list (option Node)) :
  pages_roots s ≠ [] -> pages_perms s ≠ [] ->
  has_locks (pages_roots s) = false ->
  rebuild_roots build_full_tree (leaf_count <$> pages_roots s) g = Ok (roots, g1) ->
  (py_sum (leaf_count <$> pages_roots s) < Z.of_nat (size (mandatory_indices s)) ->
   start_optimization build_full_tree s g = (OverMandatory, set_pages_roots roots s, g1)) ∧
  (Z.of_nat (size (mandatory_indices s)) <= py_sum (leaf_count <$> pages_roots s) ->
   Z.of_nat (size (mandatory_indices s)) + len (optional_indices s)
     < py_sum (leaf_count <$> pages_roots s) ->
   start_optimization build_full_tree s g = (UnderSupply, set_pages_roots roots s, g1)).
Proof.
  intros Hr Hp Hflags Hbuild. rewrite start_optimization_ready by done.
  rewrite Hflags, Hbuild. split.
  - intros H. by apply select_and_dispatch_over_mandatory.
  - intros H1 H2. by apply select_and_dispatch_under_supply.
Qed.

(** C3 on the code: five mandatory images for the four slots of
    [all_mandatory], and two pool images for the four slots of
    [under_supplied].  Each request is refused ([OverMandatory],
    [UnderSupply]), no worker is started, permutations and locks are as
    before, but the page's tree has been replaced. *)
Theorem start_optimization_over_mandatory_rebuilds_trees :
  ((start_optimization sa.build_full_tree all_mandatory zeros).1.1 = OverMandatory ∧
   pages_perms (start_optimization sa.build_full_tree all_mandatory zeros).1.2
     = pages_perms all_mandatory ∧
   pages_locks (start_optimization sa.build_full_tree all_mandatory zeros).1.2
     = pages_locks all_mandatory ∧
   worker (start_optimization sa.build_full_tree all_mandatory zeros).1.2 = None ∧
   pages_roots (start_optimization sa.build_full_tree all_mandatory zeros).1.2
     = [Some (sa.full_tree 2 0 Horizontal (Qmake 1 10))] ∧
   pages_roots (start_optimization sa.build_full_tree all_mandatory zeros).1.2
     ≠ pages_roots all_mandatory) ∧
  ((start_optimization sa.build_full_tree under_supplied zeros).1.1 = UnderSupply ∧
   worker (start_optimization sa.build_full_tree under_supplied zeros).1.2 = None ∧
   pages_roots (start_optimization sa.build_full_tree under_supplied zeros).1.2
     ≠ pages_roots under_supplied).
Proof.
  split.
  - do 5 (split; [vm_compute; reflexivity|]).
    intros H. vm_compute in H. discriminate H.
  - do 2 (split; [vm_compute; reflexivity|]).
    intros H. vm_compute in H. discriminate H.
Qed.

(** ** Snapshots *)

(** *** [int(str(z))] *)

Lemma is_digit_not_space (c : ascii) : is_digit c = true -> is_space c = false.
Proof. destruct c as [[] [] [] [] [] [] [] []]; by vm_compute. Qed.

Lemma is_digit_not_underscore (c : ascii) : is_digit c = true -> Ascii.eqb c "_" = false.
Proof. destruct c as [[] [] [] [] [] [] [] []]; by vm_compute. Qed.

Lemma is_digit_not_sign (c : ascii) :
  is_digit c = true -> Ascii.eqb c "-" = false ∧ Ascii.eqb c "+" = false.
Proof. destruct c as [[] [] [] [] [] [] [] []]; by vm_compute. Qed.

Lemma all_digits_string_of_uint (d : Decimal.uint) :
  all_digits (NilEmpty.string_of_uint d) = true.
Proof. induction d; simpl; done. Qed.

Lemma lstrip_digits (s : string) : all_digits s = true -> lstrip s = s.
Proof.
  destruct s as [|c r]; simpl; [done|].
  intros [Hc _]%andb_true_iff. by rewrite (is_digit_not_space c Hc).
Qed.

Lemma rstrip_digits (s : string) : all_digits s = true -> rstrip s = s.
Proof.
  induction s as [|c r IH]; simpl; [done|].
  intros [Hc Hr]%andb_true_iff. rewrite (IH Hr), (is_digit_not_space c Hc).
  by rewrite andb_false_r.
Qed.

Lemma digits_shape_digits (s : string) (after_digit : bool) :
  all_digits s = true -> digits_shape after_digit s = after_digit || negb (is_empty s).
Proof.
  revert after_digit. induction s as [|c r IH]; intros b; simpl.
  - intros _. by rewrite orb_false_r.
  - intros [Hc Hr]%andb_true_iff. rewrite Hc, (IH _ Hr). simpl. by rewrite orb_true_r.
Qed.

Lemma remove_underscores_digits (s : string) :
  all_digits s = true -> remove_underscores s = s.
Proof.
  induction s as [|c r IH]; simpl; [done|].
  intros [Hc Hr]%andb_true_iff. by rewrite (is_digit_not_underscore c Hc), (IH Hr).
Qed.

Lemma digits_value_to_uint (p : positive) :
  digits_value (NilEmpty.string_of_uint (Pos.to_uint p)) = Ok (Zpos p).
Proof.
  unfold digits_value.
  pose proof (all_digits_string_of_uint (Pos.to_uint p)) as Hall.
  rewrite digits_shape_digits, remove_underscores_digits by done.
  assert (Hne : is_empty (NilEmpty.string_of_uint (Pos.to_uint p)) = false).
  { pose proof (Unsigned.to_uint_nonnil p). by destruct (Pos.to_uint p). }
  rewrite Hne. simpl. rewrite NilEmpty.usu.
  f_equal. exact (DecimalZ.of_to (Zpos p)).
Qed.

Lemma string_of_uint_to_uint (p : positive) :
  NilZero.string_of_uint (Pos.to_uint p) = NilEmpty.string_of_uint (Pos.to_uint p).
Proof.
  pose proof (Unsigned.to_uint_nonnil p). by destruct (Pos.to_uint p).
Qed.

Lemma string_of_uint_head (p : positive) :
  ∃ c r, NilEmpty.string_of_uint (Pos.to_uint p) = String c r ∧
         is_digit c = true ∧ all_digits r = true.
Proof.
  pose proof (all_digits_string_of_uint (Pos.to_uint p)) as Hall.
  pose proof (Unsigned.to_uint_nonnil p) as Hne.
  destruct (NilEmpty.string_of_uint (Pos.to_uint p)) as [|c r] eqn:Hs.
  - by destruct (Pos.to_uint p).
  - simpl in Hall. apply andb_true_iff in Hall as [? ?]. by exists c, r.
Qed.

(** Reading back the decimal text of an integer gives the integer. *)
Lemma py_int_py_str (z : Z) : py_int (py_str z) = Ok z.
Proof.
  unfold py_str, py_int. destruct z as [|p|p]; [done| |]; simpl.
  - rewrite string_of_uint_to_uint.
    pose proof (all_digits_string_of_uint (Pos.to_uint p)) as Hall.
    unfold strip. rewrite lstrip_digits, rstrip_digits by done.
    pose proof (digits_value_to_uint p) as Hval.
    destruct (string_of_uint_head p) as (c & r & Hs & Hc & _).
    rewrite Hs in *. destruct (is_digit_not_sign c Hc) as [-> ->]. done.
  - rewrite string_of_uint_to_uint.
    pose proof (all_digits_string_of_uint (Pos.to_uint p)) as Hall.
    unfold strip. simpl. rewrite (rstrip_digits _ Hall). simpl.
    rewrite andb_false_r. simpl.
    by rewrite digits_value_to_uint.
Qed.

(** *** Dictionaries and trees *)

Lemma foldl_insert_items {V : Type} (items : list (Z * V)) (acc : gmap Z V) :
  NoDup items.*1 ->
  foldl (fun m kv => <[kv.1 := kv.2]> m) acc items = list_to_map items ∪ acc.
Proof.
  revert acc. induction items as [|[k v] items IH]; intros acc Hnd; simpl.
  - by rewrite (left_id_L ∅ (∪)).
  - apply NoDup_cons in Hnd as [Hk Hnd]. rewrite IH by done.
    rewrite <- insert_union_r by (by apply not_elem_of_list_to_map_1).
    by rewrite insert_union_l.
Qed.

Lemma int_keyed_coerced {V : Type} (f : Z -> DictKey) (items : list (Z * V))
    (acc : gmap Z V) :
  (∀ z, int_of_key (f z) = Ok z) ->
  int_keyed (map (fun kv => (f kv.1, kv.2)) items) acc =
    Ok (foldl (fun m kv => <[kv.1 := kv.2]> m) acc items).
Proof.
  intros Hf. revert acc. induction items as [|[k v] items IH]; intros acc; simpl; [done|].
  rewrite Hf. simpl. apply IH.
Qed.

Lemma int_keyed_map_to_list {V : Type} (f : Z -> DictKey) (d : gmap Z V) :
  (∀ z, int_of_key (f z) = Ok z) ->
  int_keyed (map (fun kv => (f kv.1, kv.2)) (map_to_list d)) ∅ = Ok d.
Proof.
  intros Hf. rewrite int_keyed_coerced by done. f_equal.
  rewrite foldl_insert_items by apply NoDup_fst_map_to_list.
  by rewrite (right_id_L ∅ (∪)), list_to_map_to_list.
Qed.

Lemma int_keyed_dict_items {V : Type} (d : gmap Z V) :
  int_keyed (dict_items d) ∅ = Ok d.
Proof. by apply (int_keyed_map_to_list KInt). Qed.

Lemma int_keyed_json_items {V : Type} (d : gmap Z V) :
  int_keyed (json_items (dict_items d)) ∅ = Ok d.
Proof.
  unfold json_items, dict_items. rewrite map_map. simpl.
  apply (int_keyed_map_to_list (fun z => KStr (py_str z))).
  intros z. apply py_int_py_str.
Qed.

Lemma py_map_Ok {A B : Type} (f : A -> result B) (h : B -> A) (l : list B) :
  (∀ x, f (h x) = Ok x) -> py_map f (map h l) = Ok l.
Proof.
  intros Hf. induction l as [|x l IH]; simpl; [done|]. by rewrite Hf, IH.
Qed.

(** The tree codec is the identity on trees, node by node. *)
Lemma deserialize_serialize_node (n : Node) : deserialize_node (serialize_node n) = n.
Proof.
  revert n. fix IH 1.
  intros [d t i b [l|] [r|]]; simpl; rewrite ?IH; reflexivity.
Qed.

Lemma deserialize_serialize_tree (root : option Node) :
  deserialize_tree (serialize_tree root) = root.
Proof. destruct root; simpl; [|done]. by rewrite deserialize_serialize_node. Qed.

(** C7. Restoring a snapshot of window [s], whether the object
    [take_snapshot] built or the document read back from its JSON file
    (textual keys), completes and reproduces [s]'s trees, permutations,
    lock maps, crop states and forced-aspect set, whatever the window has
    become since. *)
Theorem snapshot_round_trip (build_full_tree : Builder) (s s0 : AlbumWindow) (g : Rng)
    (idx : Z) (data : SnapshotData) :
  0 <= idx ->
  snapshots s0 !! Z.to_nat idx = Some data ->
  data = snapshot_data s ∨ data = json_file (snapshot_data s) ->
  (restore_snapshot build_full_tree idx s0 g).1.1 = Done ∧
  pages_roots (restore_snapshot build_full_tree idx s0 g).1.2 = pages_roots s ∧
  pages_perms (restore_snapshot build_full_tree idx s0 g).1.2 = pages_perms s ∧
  pages_locks (restore_snapshot build_full_tree idx s0 g).1.2 = pages_locks s ∧
  image_crop_states (restore_snapshot build_full_tree idx s0 g).1.2
    = image_crop_states s ∧
  forced_aspect_ratios (restore_snapshot build_full_tree idx s0 g).1.2
    = forced_aspect_ratios s.
Proof.
  intros Hidx Hdata Hform. unfold restore_snapshot.
  pose proof (lookup_lt_Some _ _ _ Hdata) as Hlt.
  replace ((idx <? 0) || (len (snapshots s0) <=? idx)) with false
    by (symmetry; apply orb_false_iff; split;
        [apply Z.ltb_ge | apply Z.leb_gt; unfold len]; lia).
  rewrite (py_index_nonneg _ _ data) by done.
  destruct (if bool_decide (spin_clamp (snap_num_pages data) = num_pages_spin s0)
            then _ else _) as [s1 g1].
  assert (Htrees : map deserialize_tree (snap_trees data) = pages_roots s).
  { destruct Hform as [-> | ->]; simpl; rewrite map_map;
      (rewrite (map_ext _ id); [apply map_id|]); apply deserialize_serialize_tree. }
  assert (Hperms : snap_perms data = pages_perms s) by (by destruct Hform as [-> | ->]).
  assert (Hlocks : py_map (fun d => int_keyed d ∅) (snap_locks data) = Ok (pages_locks s)).
  { destruct Hform as [-> | ->]; simpl.
    - apply py_map_Ok. apply @int_keyed_dict_items.
    - rewrite map_map. apply py_map_Ok. apply @int_keyed_json_items. }
  assert (Hcrop : int_keyed (snap_crop_states data) ∅ = Ok (image_crop_states s)).
  { destruct Hform as [-> | ->]; simpl.
    - apply int_keyed_dict_items.
    - apply int_keyed_json_items. }
  assert (Hforced : list_to_set (snap_forced_aspects data) = forced_aspect_ratios s).
  { destruct Hform as [-> | ->]; simpl; apply list_to_set_elements_L. }
  rewrite Hlocks, Hcrop. simpl. rewrite Htrees, Hperms, Hforced. done.
Qed.

Lemma snapshot_round_trip_witness :
  pages_perms snapshot_then_drop ≠ pages_perms with_lock ∧
  pages_perms (restore_snapshot sa.build_full_tree 0 snapshot_then_drop zeros).1.2
    = pages_perms with_lock ∧
  pages_locks (restore_snapshot sa.build_full_tree 0 snapshot_then_drop zeros).1.2
    = [{[2 := 1]}] ∧
  pages_locks (restore_snapshot sa.build_full_tree 0 snapshot_from_file zeros).1.2
    = [{[2 := 1]}] ∧
  forced_aspect_ratios (restore_snapshot sa.build_full_tree 0 snapshot_from_file zeros).1.2
    = {[1]}.
Proof.
  split; [intros H; vm_compute in H; discriminate H|].
  destruct (snapshot_round_trip sa.build_full_tree with_lock snapshot_then_drop zeros 0
              (snapshot_data with_lock))
    as (_ & _ & Hperms & Hlocks & _); [lia | reflexivity | by left |].
  destruct (snapshot_round_trip sa.build_full_tree with_lock snapshot_from_file zeros 0
              (json_file (snapshot_data with_lock)))
    as (_ & _ & _ & Hlocks' & _ & Hforced'); [lia | reflexivity | by right |].
  split; [exact Hperms|]. split; [rewrite Hlocks; vm_compute; reflexivity|].
  split; [rewrite Hlocks'; vm_compute; reflexivity|].
  rewrite Hforced'. vm_compute. reflexivity.
Defined.

(** * Further properties of the engine *)

(** ** Drops: lengths, lock consistency, duplicates, repetition *)

(** What [place_image] does to the single positions of a permutation. *)
Lemma place_image_lookup (leaf_id img_idx : Z) (perm perm' : list Z) :
  0 <= leaf_id < len perm ->
  place_image leaf_id img_idx perm = Ok perm' ->
  length perm' = length perm ∧
  perm' !! Z.to_nat leaf_id = Some img_idx ∧
  (∀ k, k ≠ Z.to_nat leaf_id -> perm !! k ≠ Some img_idx -> perm' !! k = perm !! k) ∧
  (img_idx ∈ perm -> perm' ≡ₚ perm) ∧
  (img_idx ∉ perm -> perm' = <[Z.to_nat leaf_id := img_idx]> perm).
Proof.
  intros Hleaf. rewrite place_image_first by done. intros [= <-].
  assert (Hlt : (Z.to_nat leaf_id < length perm)%nat) by (unfold len in Hleaf; lia).
  destruct (lookup_lt_is_Some_2 perm _ Hlt) as [b Hb].
  destruct (list_index img_idx perm) as [j|] eqn:Hidx.
  - destruct (list_index_Some _ _ _ Hidx) as [Hj _].
    destruct (decide (j = Z.to_nat leaf_id)) as [->|Hne].
    + repeat split; try done.
      intros Hnot. destruct Hnot. by eapply list_elem_of_lookup_2.
    + pose proof (lookup_lt_Some _ _ _ Hj) as Hjlt.
      unfold swap_leaves. rewrite Hb, Hj.
      split; [by rewrite !length_insert|].
      split; [rewrite list_lookup_insert_ne by done; by rewrite list_lookup_insert_eq|].
      split; [|split].
      * intros k Hk Hkimg.
        assert (k ≠ j) by (intros ->; done).
        by rewrite !list_lookup_insert_ne.
      * intros _. by eapply Permutation_insert_swap.
      * intros Hnot. destruct Hnot. by eapply list_elem_of_lookup_2.
  - apply list_index_None in Hidx.
    split; [by rewrite length_insert|].
    split; [by rewrite list_lookup_insert_eq|].
    split; [|split; done].
    intros k Hk _. by rewrite list_lookup_insert_ne.
Qed.

Lemma py_pos_same_length {A B : Type} (l : list A) (k : list B) (i : Z) :
  length l = length k -> py_pos l i = py_pos k i.
Proof. intros H. unfold py_pos, len. by rewrite H. Qed.

(** X1. A drop never changes the number of pages nor the length of any
    page's permutation, whatever its arguments. *)
Theorem drops_keep_permutation_lengths (ops : list (Z * Z * Z)) (s : AlbumWindow) :
  Forall2 (fun perm perm' : list Z => length perm' = length perm)
    (pages_perms s) (pages_perms (run_drops ops s)) ∧
  length (pages_locks (run_drops ops s)) = length (pages_locks s) ∧
  pages_roots (run_drops ops s) = pages_roots s.
Proof.
  revert s. induction ops as [|[[p l] i] ops IH]; intros s; simpl.
  - split; [|done]. apply Forall2_same_length_lookup_2; [done|].
    intros k x y Hx Hy. congruence.
  - assert (Hstep :
        Forall2 (fun perm perm' : list Z => length perm' = length perm)
          (pages_perms s) (pages_perms (apply_drop p l i s)) ∧
        length (pages_locks (apply_drop p l i s)) = length (pages_locks s) ∧
        pages_roots (apply_drop p l i s) = pages_roots s).
    { destruct (apply_drop_cases p l i s)
        as [->|(n & m & perm & locked & perm' & Hn & Hm & Hleaf & Hplace & ->)].
      - split; [|done]. apply Forall2_same_length_lookup_2; [done|].
        intros k x y Hx Hy. congruence.
      - unfold dropped. simpl. split; [|split; [by rewrite length_insert|done]].
        destruct (place_image_lookup _ _ _ _ Hleaf Hplace) as (Hlen & _).
        apply Forall2_same_length_lookup_2; [by rewrite length_insert|].
        intros k x y Hx Hy. destruct (decide (k = n)) as [->|Hk].
        + rewrite list_lookup_insert_eq in Hy by (by eapply lookup_lt_Some).
          congruence.
        + rewrite list_lookup_insert_ne in Hy by done. congruence. }
    destruct Hstep as (H1 & H2 & H3).
    destruct (IH (apply_drop p l i s)) as (H1' & H2' & H3').
    split; [|split; congruence].
    apply Forall2_same_length_lookup_2.
    { apply Forall2_length in H1, H1'. congruence. }
    intros k x z Hx Hz.
    destruct (lookup_lt_is_Some_2 (pages_perms (apply_drop p l i s)) k) as [y Hy].
    { apply Forall2_length in H1. rewrite <- H1. by eapply lookup_lt_Some. }
    pose proof (Forall2_lookup_lr _ _ _ _ _ _ H1 Hx Hy).
    pose proof (Forall2_lookup_lr _ _ _ _ _ _ H1' Hy Hz). congruence.
Qed.

Lemma apply_drop_cases_pos (page_idx leaf_id img_idx : Z) (s : AlbumWindow) :
  apply_drop page_idx leaf_id img_idx s = s ∨
  ∃ n m perm locked perm',
    py_pos (pages_perms s) page_idx = Some n ∧
    py_pos (pages_locks s) page_idx = Some m ∧
    pages_perms s !! n = Some perm ∧
    pages_locks s !! m = Some locked ∧
    0 <= leaf_id < len perm ∧
    0 <= img_idx < len (image_paths s) ∧
    place_image leaf_id img_idx perm = Ok perm' ∧
    handle_drop page_idx leaf_id img_idx s =
      Ok (Done, dropped n m perm'
                  (<[leaf_id := img_idx]> (remove_previous_lock leaf_id img_idx locked))
                  img_idx s) ∧
    apply_drop page_idx leaf_id img_idx s =
      dropped n m perm'
        (<[leaf_id := img_idx]> (remove_previous_lock leaf_id img_idx locked))
        img_idx s.
Proof.
  unfold apply_drop.
  destruct (handle_drop_cases page_idx leaf_id img_idx s) as [H|H].
  - left. destruct (handle_drop page_idx leaf_id img_idx s) as [[o s']|e]; [|done].
    by destruct (H o s' eq_refl).
  - right. destruct H as (n & m & perm & locked & perm' & ? & ? & ? & ? & ? & ? & ? & Heq).
    exists n, m, perm, locked, perm'. rewrite Heq. done.
Qed.

Lemma relocked_matches (leaf_id img_idx : Z) (perm perm' : list Z) (locked : gmap Z Z) :
  0 <= leaf_id < len perm ->
  place_image leaf_id img_idx perm = Ok perm' ->
  lock_matches perm locked ->
  lock_matches perm' (<[leaf_id := img_idx]> (remove_previous_lock leaf_id img_idx locked)).
Proof.
  intros Hleaf Hplace Hmatch k v. rewrite lookup_relocked.
  destruct (place_image_lookup _ _ _ _ Hleaf Hplace) as (_ & Hat & Hother & _).
  destruct (decide (k = leaf_id)) as [->|Hk].
  - intros [= <-]. split; [lia|done].
  - destruct (locked !! k) as [w|] eqn:Hw; [|done].
    destruct (decide (w = img_idx)); [done|]. intros [= <-].
    destruct (Hmatch k w Hw) as [Hk0 Hperm]. split; [done|].
    rewrite Hother; [done|lia|congruence].
Qed.

Lemma apply_drop_locks_match (page_idx leaf_id img_idx : Z) (s : AlbumWindow) :
  locks_match s -> locks_match (apply_drop page_idx leaf_id img_idx s).
Proof.
  intros Hs.
  destruct (apply_drop_cases_pos page_idx leaf_id img_idx s)
    as [->|(n & m & perm & locked & perm' & Hn & Hm & Hpn & Hlm & Hleaf & _ & Hplace & _ & ->)];
    [done|].
  rewrite (py_pos_same_length _ (pages_locks s)) in Hn by (by eapply Forall2_length).
  rewrite Hn in Hm. injection Hm as <-.
  unfold locks_match, dropped. simpl.
  apply Forall2_insert; [done|].
  eapply relocked_matches; [done..|].
  by eapply (Forall2_lookup_lr _ _ _ _ _ _ Hs).
Qed.

(** X2. When every lock names the image its leaf holds (and sits on a leaf
    of its page), this stays so after every drop of any sequence of
    drops: the swap-or-overwrite rule and the lock clean-up keep the lock
    maps and the permutations in step. *)
Theorem drops_keep_locks_on_their_images (ops : list (Z * Z * Z)) (s : AlbumWindow) :
  locks_match s -> ∀ n : nat, locks_match (run_drops (take n ops) s).
Proof.
  intros Hs n. generalize (take n ops). clear ops n. intros ops.
  revert s Hs. induction ops as [|op ops IH]; intros s Hs; [done|].
  simpl. apply IH. by apply apply_drop_locks_match.
Qed.

Lemma drops_keep_locks_on_their_images_witness :
  locks_match (run_drops (take 2 [(0, 2, 1); (0, 1, 4)]) one_page) ∧
  pages_perms (run_drops [(0, 2, 1); (0, 1, 4)] one_page) = [[0; 4; 1; 3]] ∧
  pages_locks (run_drops [(0, 2, 1); (0, 1, 4)] one_page) = [{[1 := 4; 2 := 1]}].
Proof.
  split; [|split; vm_compute; reflexivity].
  apply drops_keep_locks_on_their_images.
  unfold locks_match. simpl. apply Forall2_cons. split; [|apply Forall2_nil_2].
  intros k v H. by rewrite lookup_empty in H.
Defined.

Lemma NoDup_list_insert (l : list Z) (i : nat) (x : Z) :
  NoDup l -> x ∉ l -> NoDup (<[i := x]> l).
Proof.
  intros Hnd Hx. apply NoDup_alt. intros a b y Ha Hb.
  rewrite list_lookup_insert in Ha, Hb.
  destruct (decide (i = a ∧ (i < length l)%nat)) as [[Hia ?]|Hna];
    destruct (decide (i = b ∧ (i < length l)%nat)) as [[Hib ?]|Hnb].
  - congruence.
  - injection Ha as <-. destruct Hx. by eapply list_elem_of_lookup_2.
  - injection Hb as <-. destruct Hx. by eapply list_elem_of_lookup_2.
  - by eapply (NoDup_lookup l).
Qed.

Lemma place_image_NoDup (leaf_id img_idx : Z) (perm perm' : list Z) :
  0 <= leaf_id < len perm ->
  place_image leaf_id img_idx perm = Ok perm' ->
  NoDup perm -> NoDup perm'.
Proof.
  intros Hleaf Hplace Hnd.
  destruct (place_image_lookup _ _ _ _ Hleaf Hplace) as (_ & _ & _ & Hin & Hout).
  destruct (decide (img_idx ∈ perm)) as [Hi|Hi].
  - by rewrite (Hin Hi).
  - rewrite (Hout Hi). by apply NoDup_list_insert.
Qed.

(** X3. A drop never makes an image appear twice on a page: pages without
    duplicates stay without duplicates through any sequence of drops.  A
    drop of an image the page already shows only rearranges the page. *)
Theorem drops_never_duplicate :
  (∀ (ops : list (Z * Z * Z)) (s : AlbumWindow),
      perms_nodup s -> perms_nodup (run_drops ops s)) ∧
  (∀ (page_idx leaf_id img_idx : Z) (s s' : AlbumWindow) (n : nat) (perm : list Z),
      handle_drop page_idx leaf_id img_idx s = Ok (Done, s') ->
      py_pos (pages_perms s) page_idx = Some n ->
      pages_perms s !! n = Some perm ->
      img_idx ∈ perm ->
      ∃ perm', pages_perms s' !! n = Some perm' ∧ perm' ≡ₚ perm).
Proof.
  split.
  - intros ops. induction ops as [|[[p l] i] ops IH]; intros s Hs; [done|].
    simpl. apply IH.
    destruct (apply_drop_cases_pos p l i s)
      as [->|(n & m & perm & locked & perm' & _ & _ & Hpn & _ & Hleaf & _ & Hplace & _ & ->)];
      [done|].
    unfold perms_nodup, dropped. simpl. apply Forall_insert; [done|].
    eapply place_image_NoDup; [done..|].
    by eapply (Forall_lookup_1 _ _ _ _ Hs).
  - intros page_idx leaf_id img_idx s s' n perm Hdrop Hn Hperm Himg.
    destruct (handle_drop_cases page_idx leaf_id img_idx s) as [H|H].
    { by destruct (H _ _ Hdrop). }
    destruct H as (n' & m & perm0 & locked & perm' & Hn' & _ & Hpn & _ & Hleaf & _ & Hplace & Heq).
    rewrite Hn in Hn'. injection Hn' as <-.
    rewrite Hperm in Hpn. injection Hpn as <-.
    rewrite Heq in Hdrop. injection Hdrop as <-.
    exists perm'. unfold dropped. simpl. split.
    + apply list_lookup_insert_eq. by eapply lookup_lt_Some.
    + by apply (place_image_lookup _ _ _ _ Hleaf Hplace).
Qed.

Lemma drops_never_duplicate_witness :
  perms_nodup (run_drops [(0, 2, 1); (0, 1, 4); (0, 0, 4)] one_page) ∧
  ∃ perm', pages_perms (apply_drop 0 2 1 one_page) !! 0%nat = Some perm' ∧
           perm' ≡ₚ [0; 1; 2; 3].
Proof.
  split.
  - apply (proj1 drops_never_duplicate).
    unfold perms_nodup. simpl. apply Forall_cons. split; [|apply Forall_nil_2].
    apply NoDup_ListNoDup. repeat constructor; simpl; intuition lia.
  - apply (proj2 drops_never_duplicate 0 2 1 one_page (apply_drop 0 2 1 one_page));
      [vm_compute; reflexivity | reflexivity | reflexivity |].
    apply list_elem_of_In. simpl. tauto.
Defined.

Lemma place_image_again (leaf_id img_idx : Z) (perm : list Z) :
  0 <= leaf_id < len perm ->
  perm !! Z.to_nat leaf_id = Some img_idx ->
  place_image leaf_id img_idx perm = Ok perm.
Proof.
  intros Hleaf Hat. rewrite place_image_first by done. f_equal.
  destruct (list_index img_idx perm) as [j|] eqn:Hidx.
  - destruct (list_index_Some _ _ _ Hidx) as [Hj _].
    destruct (decide (j = Z.to_nat leaf_id)); [done|].
    by eapply swap_leaves_same_content.
  - apply list_index_None in Hidx. destruct Hidx. by eapply list_elem_of_lookup_2.
Qed.

Lemma relocked_again (leaf_id img_idx : Z) (locked : gmap Z Z) :
  <[leaf_id := img_idx]>
    (remove_previous_lock leaf_id img_idx
       (<[leaf_id := img_idx]> (remove_previous_lock leaf_id img_idx locked)))
  = <[leaf_id := img_idx]> (remove_previous_lock leaf_id img_idx locked).
Proof.
  apply map_eq. intros k. rewrite !lookup_relocked.
  destruct (decide (k = leaf_id)); [done|].
  destruct (locked !! k) as [v|]; [|done].
  destruct (decide (v = img_idx)) as [|Hv]; [done|]. by rewrite decide_False.
Qed.

Lemma dropped_again (n m : nat) (perm' : list Z) (locked' : gmap Z Z) (img_idx : Z)
    (s : AlbumWindow) :
  dropped n m perm' locked' img_idx (dropped n m perm' locked' img_idx s)
  = dropped n m perm' locked' img_idx s.
Proof.
  destruct s. cbv [dropped set_forced_aspect_ratios set_image_crop_states
                   set_pages_locks set_pages_perms image_paths current_folder
                   image_list image_crop_states forced_aspect_ratios page_titles
                   pages_roots pages_perms pages_locks current_page_idx
                   num_pages_spin page_config_edit optimize_btn export_btn
                   snapshots worker].
  rewrite !list_insert_insert_eq, insert_insert_eq.
  f_equal. apply set_eq. intros x. rewrite !elem_of_union. tauto.
Qed.

(** X4. Dropping the same image on the same leaf a second time changes
    nothing: a repeated drop is the drop. *)
Theorem drop_twice_is_drop_once (page_idx leaf_id img_idx : Z) (s : AlbumWindow) :
  apply_drop page_idx leaf_id img_idx (apply_drop page_idx leaf_id img_idx s)
  = apply_drop page_idx leaf_id img_idx s.
Proof.
  destruct (apply_drop_cases_pos page_idx leaf_id img_idx s)
    as [Hsame|(n & m & perm & locked & perm' & Hn & Hm & Hpn & Hlm & Hleaf & Himg
               & Hplace & _ & ->)]; [by rewrite !Hsame|].
  destruct (place_image_lookup _ _ _ _ Hleaf Hplace) as (Hlen & Hat & _).
  set (locked' := <[leaf_id := img_idx]> (remove_previous_lock leaf_id img_idx locked)).
  set (s1 := dropped n m perm' locked' img_idx s).
  destruct (apply_drop_cases_pos page_idx leaf_id img_idx s1)
    as [Hsame|(n2 & m2 & perm2 & locked2 & perm2' & Hn2 & Hm2 & Hpn2 & Hlm2 & Hleaf2 & _
               & Hplace2 & _ & ->)]; [done|].
  pose proof (lookup_lt_Some _ _ _ Hpn) as Hnlt.
  pose proof (lookup_lt_Some _ _ _ Hlm) as Hmlt.
  assert (n2 = n) as ->.
  { rewrite (py_pos_same_length _ (pages_perms s)) in Hn2
      by (subst s1; unfold dropped; simpl; by rewrite length_insert).
    congruence. }
  assert (m2 = m) as ->.
  { rewrite (py_pos_same_length _ (pages_locks s)) in Hm2
      by (subst s1; unfold dropped; simpl; by rewrite length_insert).
    congruence. }
  assert (perm2 = perm') as ->.
  { subst s1. unfold dropped in Hpn2. simpl in Hpn2.
    rewrite list_lookup_insert_eq in Hpn2 by done. congruence. }
  assert (locked2 = locked') as ->.
  { subst s1. unfold dropped in Hlm2. simpl in Hlm2.
    rewrite list_lookup_insert_eq in Hlm2 by done. congruence. }
  rewrite place_image_again in Hplace2 by (unfold len in *; rewrite ?Hlen; done).
  injection Hplace2 as <-.
  subst locked'. rewrite relocked_again.
  subst s1. apply dropped_again.
Qed.

(** ** The optimiser request *)

Lemma List_filter_stdpp {A : Type} (f : A -> bool) (l : list A) :
  List.filter f l = filter (fun x => Is_true (f x)) l.
Proof.
  induction l as [|x l IH]; simpl; [done|].
  rewrite filter_cons, IH. destruct (decide (Is_true (f x))) as [Hx|Hx].
  - apply Is_true_true in Hx. by rewrite Hx.
  - apply Is_true_false in Hx. by rewrite Hx.
Qed.

Lemma elem_of_List_filter {A : Type} (f : A -> bool) (l : list A) (x : A) :
  x ∈ List.filter f l <-> x ∈ l ∧ f x = true.
Proof.
  rewrite List_filter_stdpp, list_elem_of_filter.
  rewrite Is_true_true. tauto.
Qed.

Lemma elem_of_locked_indices (locks : list (gmap Z Z)) (x : Z) :
  x ∈ locked_indices locks <-> ∃ d, d ∈ locks ∧ x ∈ lock_values d.
Proof.
  induction locks as [|d locks IH]; simpl.
  - split; [set_solver|]. intros (d & Hd & _). by apply elem_of_nil in Hd.
  - rewrite elem_of_union, elem_of_list_to_set, IH. split.
    + intros [H|(d' & Hd' & Hx)].
      * exists d. split; [apply list_elem_of_here|done].
      * exists d'. split; [by apply list_elem_of_further|done].
    + intros (d' & Hd' & Hx). apply elem_of_cons in Hd' as [->|Hd'].
      * by left.
      * right. by exists d'.
Qed.

Lemma elem_of_mandatory_fold (rows : list ImageListEntry) (acc : gset Z) (x : Z) :
  x ∈ foldl (fun acc e => if mandatory_cb e then {[entry_idx e]} ∪ acc else acc) acc rows
  <-> x ∈ acc ∨ ∃ e, e ∈ rows ∧ mandatory_cb e = true ∧ entry_idx e = x.
Proof.
  revert acc. induction rows as [|e rows IH]; intros acc; simpl.
  - split; [by left|]. intros [H|(e & He & _)]; [done|]. by apply elem_of_nil in He.
  - rewrite IH. split.
    + intros [H|(e' & He' & Hm & Hx)].
      * destruct (mandatory_cb e) eqn:Hm; [|by left].
        apply elem_of_union in H as [H|H]; [|by left].
        apply elem_of_singleton in H. right. exists e.
        split; [apply list_elem_of_here|done].
      * right. exists e'. split; [by apply list_elem_of_further|done].
    + intros [H|(e' & He' & Hm & Hx)].
      * left. destruct (mandatory_cb e); [|done]. apply elem_of_union. by right.
      * apply elem_of_cons in He' as [->|He'].
        -- left. rewrite Hm. apply elem_of_union. left. by apply elem_of_singleton.
        -- right. by exists e'.
Qed.

Lemma elem_of_mandatory_indices (s : AlbumWindow) (x : Z) :
  x ∈ mandatory_indices s <->
  x ∈ locked_indices (pages_locks s) ∨
  ∃ e, e ∈ image_list s ∧ mandatory_cb e = true ∧ entry_idx e = x.
Proof. apply elem_of_mandatory_fold. Qed.

Lemma elem_of_optional_indices (s : AlbumWindow) (x : Z) :
  x ∈ optional_indices s <->
  ∃ e, e ∈ image_list s ∧ entry_idx e = x ∧ mandatory_cb e = false ∧
       pool_cb e = true ∧ x ∉ locked_indices (pages_locks s).
Proof.
  unfold optional_indices. rewrite list_elem_of_fmap. split.
  - intros (e & -> & He). apply elem_of_List_filter in He as [He Hf].
    apply andb_true_iff in Hf as [Hf Hl]. apply andb_true_iff in Hf as [Hm Hp].
    exists e. repeat split; try done.
    + by destruct (mandatory_cb e).
    + apply negb_true_iff, bool_decide_eq_false in Hl. done.
  - intros (e & He & <- & Hm & Hp & Hl). exists e. split; [done|].
    apply elem_of_List_filter. split; [done|].
    rewrite Hm, Hp. simpl. by apply negb_true_iff, bool_decide_eq_false.
Qed.

Lemma optional_indices_NoDup (s : AlbumWindow) :
  rows_distinct s -> NoDup (optional_indices s).
Proof.
  unfold rows_distinct, optional_indices. rewrite List_filter_stdpp.
  generalize (image_list s). intros rows. induction rows as [|e rows IH]; simpl.
  - intros _. constructor.
  - intros [Hnotin Hnd]%NoDup_cons. rewrite filter_cons.
    destruct (decide _); [|by apply IH].
    simpl. apply NoDup_cons. split; [|by apply IH].
    intros Hin. apply Hnotin. apply list_elem_of_fmap in Hin as (e' & -> & He').
    apply list_elem_of_fmap. exists e'. split; [done|].
    by apply list_elem_of_filter in He' as [_ ?].
Qed.

Lemma optional_not_mandatory (s : AlbumWindow) (x : Z) :
  rows_distinct s -> x ∈ optional_indices s -> x ∉ mandatory_indices s.
Proof.
  intros Hrows Hopt Hman.
  apply elem_of_optional_indices in Hopt as (e & He & <- & Hm & _ & Hl).
  apply elem_of_mandatory_indices in Hman as [Hman|(e' & He' & Hm' & Hx)]; [done|].
  apply list_elem_of_lookup in He as [i Hi]. apply list_elem_of_lookup in He' as [j Hj].
  assert (i = j).
  { eapply (NoDup_lookup _ _ _ (entry_idx e) Hrows).
    - by rewrite list_lookup_fmap, Hi.
    - by rewrite list_lookup_fmap, Hj, <- Hx. }
  subst j. rewrite Hi in Hj. injection Hj as <-. congruence.
Qed.

Lemma active_indices_NoDup (s : AlbumWindow) :
  rows_distinct s -> NoDup (active_indices s).
Proof.
  intros Hrows. unfold active_indices. apply NoDup_app.
  split; [apply NoDup_elements|]. split.
  - intros x Hx Hin. apply elem_of_elements in Hx.
    apply elem_of_take in Hin as (i & Hi & _).
    apply list_elem_of_lookup_2 in Hi.
    by apply (optional_not_mandatory s x).
  - eapply sublist_NoDup; [by apply optional_indices_NoDup|apply sublist_take].
Qed.

(** The request a completed [start_optimization] hands over, written with
    the window it started from. *)
Lemma start_optimization_request (build_full_tree : Builder) (s s' : AlbumWindow)
    (g g' : Rng) :
  start_optimization build_full_tree s g = (Done, s', g') ->
  ∃ w roots,
    worker s' = Some w ∧
    s' = set_optimize_btn false (set_worker (Some w) (set_pages_roots roots s)) ∧
    Z.of_nat (size (mandatory_indices s)) <= py_sum (leaf_count <$> pages_roots s) ∧
    py_sum (leaf_count <$> pages_roots s)
      <= Z.of_nat (size (mandatory_indices s)) + len (optional_indices s) ∧
    (length (pages_roots s) <= length (pages_locks s))%nat ∧
    w_chunks w =
      fill_chunks (leaf_count <$> pages_roots s)
        (locked_chunk (active_indices s) <$>
           take (length (pages_roots s)) (pages_locks s))
        (List.filter
           (fun idx =>
              negb (bool_decide
                      (idx ∈ concat (locked_chunk (active_indices s) <$>
                                       take (length (pages_roots s)) (pages_locks s)))))
           (active_indices s)) ∧
    w_swap_pool w =
      drop (Z.to_nat (py_sum (leaf_count <$> pages_roots s)
                      - Z.of_nat (size (mandatory_indices s))))
        (optional_indices s) ∧
    w_pages_locks w = pages_locks s ∧
    w_pages_roots w = roots.
Proof.
  unfold start_optimization.
  destruct (bool_decide (pages_roots s = []) || bool_decide (pages_perms s = []));
    [done|].
  destruct (if has_locks (pages_roots s) then _ else _) as [[roots g1]|e]; [|done].
  unfold select_and_dispatch.
  change (mandatory_indices (set_pages_roots roots s)) with (mandatory_indices s).
  change (optional_indices (set_pages_roots roots s)) with (optional_indices s).
  change (pages_locks (set_pages_roots roots s)) with (pages_locks s).
  change (pages_roots (set_pages_roots roots s)) with roots.
  set (T := py_sum (leaf_count <$> pages_roots s)).
  set (M := mandatory_indices s). set (O := optional_indices s).
  destruct (T <? Z.of_nat (size M)) eqn:H1; [done|].
  destruct (Z.of_nat (size M) + len O <? T) eqn:H2; [done|].
  apply Z.ltb_ge in H1, H2.
  assert (Hactive :
            elements M ++ (if 0 <? T - Z.of_nat (size M)
                           then take (Z.to_nat (T - Z.of_nat (size M))) O else [])
            = active_indices s).
  { unfold active_indices. fold T M O. f_equal.
    destruct (0 <? T - Z.of_nat (size M)) eqn:H0; [done|].
    apply Z.ltb_ge in H0. by replace (T - Z.of_nat (size M)) with 0 by lia. }
  rewrite Hactive. rewrite length_fmap.
  destruct (bool_decide (length (pages_locks s) < length (pages_roots s))%nat) eqn:H3;
    [done|].
  apply bool_decide_eq_false in H3.
  intros [= <- <-]. eexists _, roots. simpl.
  split; [done|]. split; [done|]. repeat split; try done; lia.
Qed.

(** Filling hands every chunk what it lacks, as long as the free images
    last. *)
Lemma fill_chunks_lengths (page_counts : list Z) (chunks : list (list Z))
    (free_active : list Z) :
  Forall2 (fun c chunk => len chunk <= c) page_counts chunks ->
  py_sum page_counts - len (concat chunks) <= len free_active ->
  Forall2 (fun c chunk => len chunk = c) page_counts
    (fill_chunks page_counts chunks free_active).
Proof.
  intros Hle. revert free_active.
  induction Hle as [|c chunk counts chunks Hc Hle IH]; intros free Hfree; simpl.
  - constructor.
  - simpl in Hfree. rewrite len_app in Hfree.
    assert (Hrest : len (concat chunks) <= py_sum counts).
    { clear -Hle. induction Hle as [|c chunk counts chunks Hc Hle IH]; simpl; [done|].
      rewrite len_app. lia. }
    constructor.
    + rewrite len_app. unfold len in *. rewrite length_take. lia.
    + apply IH. unfold len in *. rewrite length_drop. lia.
Qed.

Lemma fill_chunks_prefix (page_counts : list Z) (chunks : list (list Z))
    (free_active : list Z) (p : nat) (chunk : list Z) :
  chunks !! p = Some chunk ->
  ∃ extra, fill_chunks page_counts chunks free_active !! p = Some (chunk ++ extra) ∧
           ∀ x, x ∈ extra -> x ∈ free_active.
Proof.
  revert chunks free_active p.
  induction page_counts as [|c counts IH]; intros chunks free p Hp.
  - exists []. split; [by rewrite app_nil_r; destruct chunks|].
    intros x Hx. by apply elem_of_nil in Hx.
  - destruct chunks as [|ch rest]; [done|]. simpl. destruct p as [|p]; simpl in *.
    + injection Hp as ->. eexists. split; [done|].
      intros x Hx. apply elem_of_take in Hx as (i & Hi & _).
      by eapply list_elem_of_lookup_2.
    + destruct (IH rest (drop (Z.to_nat (c - len ch)) free) p Hp) as (extra & Hx & Hsub).
      exists extra. split; [done|]. intros x Hin.
      apply Hsub in Hin. apply list_elem_of_lookup in Hin as [i Hi].
      rewrite lookup_drop in Hi. by eapply list_elem_of_lookup_2.
Qed.

Lemma fill_chunks_concat (page_counts : list Z) (chunks : list (list Z))
    (free_active : list Z) :
  Forall2 (fun c chunk => len chunk <= c) page_counts chunks ->
  concat (fill_chunks page_counts chunks free_active)
  ≡ₚ concat chunks ++
     take (Z.to_nat (py_sum page_counts - len (concat chunks))) free_active.
Proof.
  intros Hle. revert free_active.
  induction Hle as [|c chunk counts chunks Hc Hle IH]; intros free; simpl.
  - done.
  - assert (Hrest : len (concat chunks) <= py_sum counts).
    { clear -Hle. induction Hle as [|c chunk counts chunks Hc Hle IH]; simpl; [done|].
      rewrite len_app. lia. }
    rewrite IH, len_app.
    replace (Z.to_nat (c + py_sum counts - (len chunk + len (concat chunks))))
      with (Z.to_nat (c - len chunk)
            + Z.to_nat (py_sum counts - len (concat chunks)))%nat by lia.
    rewrite <- take_take_drop.
    rewrite <- !(assoc_L (++)). f_equiv.
    rewrite !(assoc_L (++)). f_equiv. apply Permutation_app_comm.
Qed.

Lemma fill_chunks_elem (page_counts : list Z) (chunks : list (list Z))
    (free_active : list Z) (x : Z) :
  x ∈ concat (fill_chunks page_counts chunks free_active) ->
  x ∈ concat chunks ∨ x ∈ free_active.
Proof.
  revert chunks free_active.
  induction page_counts as [|c counts IH]; intros chunks free.
  - destruct chunks; simpl; by left.
  - destruct chunks as [|ch rest]; simpl; [by left|].
    rewrite !elem_of_app. intros [[H|H]|H].
    + left. by left.
    + right. apply elem_of_take in H as (i & Hi & _).
      by eapply list_elem_of_lookup_2.
    + apply IH in H as [H|H]; [left; by right|].
      right. apply list_elem_of_lookup in H as [i Hi].
      rewrite lookup_drop in Hi. by eapply list_elem_of_lookup_2.
Qed.

Lemma length_lock_values (d : gmap Z Z) : length (lock_values d) = size d.
Proof. unfold lock_values. by rewrite length_fmap, length_map_to_list. Qed.

Lemma elem_of_lock_values (d : gmap Z Z) (x : Z) :
  x ∈ lock_values d <-> ∃ k, d !! k = Some x.
Proof.
  unfold lock_values. rewrite list_elem_of_fmap. split.
  - intros ([k v] & -> & H). exists k. by apply elem_of_map_to_list.
  - intros [k H]. exists (k, x). split; [done|]. by apply elem_of_map_to_list.
Qed.

Lemma lock_values_active (s : AlbumWindow) (d : gmap Z Z) (x : Z) :
  d ∈ pages_locks s -> x ∈ lock_values d -> x ∈ active_indices s.
Proof.
  intros Hd Hx. unfold active_indices. apply elem_of_app. left.
  apply elem_of_elements, elem_of_mandatory_indices. left.
  apply elem_of_locked_indices. by exists d.
Qed.

Lemma locked_chunk_all (s : AlbumWindow) (d : gmap Z Z) :
  d ∈ pages_locks s -> locked_chunk (active_indices s) d = lock_values d.
Proof.
  intros Hd. unfold locked_chunk. fold (lock_values d).
  assert (Hall : ∀ x, x ∈ lock_values d -> x ∈ active_indices s)
    by (intros x; by apply lock_values_active).
  induction (lock_values d) as [|x l IH]; simpl; [done|].
  rewrite bool_decide_eq_true_2 by (apply Hall; apply list_elem_of_here).
  f_equal. apply IH. intros y Hy. apply Hall. by apply list_elem_of_further.
Qed.

Lemma locked_chunks_all (s : AlbumWindow) (n : nat) :
  locked_chunk (active_indices s) <$> take n (pages_locks s)
  = lock_values <$> take n (pages_locks s).
Proof.
  apply list_fmap_ext. intros i d Hi. apply locked_chunk_all.
  apply lookup_take_Some in Hi as [Hi _]. by eapply list_elem_of_lookup_2.
Qed.

Lemma length_active_indices (s : AlbumWindow) :
  Z.of_nat (size (mandatory_indices s)) <= py_sum (leaf_count <$> pages_roots s) ->
  py_sum (leaf_count <$> pages_roots s)
    <= Z.of_nat (size (mandatory_indices s)) + len (optional_indices s) ->
  len (active_indices s) = py_sum (leaf_count <$> pages_roots s).
Proof.
  intros H1 H2. unfold active_indices. rewrite len_app. unfold len in *.
  rewrite length_take. unfold elements, size, set_size. simpl.
  fold (elements (mandatory_indices s)).
  change (length (elements (mandatory_indices s))) with (size (mandatory_indices s)).
  lia.
Qed.

Lemma elem_of_concat {A : Type} (x : A) (ls : list (list A)) :
  x ∈ concat ls <-> ∃ l, x ∈ l ∧ l ∈ ls.
Proof.
  induction ls as [|a ls IH]; simpl.
  - split; [intros H; by apply elem_of_nil in H|].
    intros (l & _ & H). by apply elem_of_nil in H.
  - rewrite elem_of_app, IH. split.
    + intros [H|(l & H1 & H2)].
      * exists a. split; [done|apply list_elem_of_here].
      * exists l. split; [done|by apply list_elem_of_further].
    + intros (l & H1 & H2). apply elem_of_cons in H2 as [->|H2]; [by left|].
      right. by exists l.
Qed.

(** The free images: the active ones no page's locks have claimed. *)
Lemma free_active_split (active assigned : list Z) :
  List.filter (fun idx => negb (bool_decide (idx ∈ assigned))) active
  = filter (fun idx => ¬ idx ∈ assigned) active.
Proof.
  rewrite List_filter_stdpp. apply list_filter_iff. intros x.
  rewrite Is_true_true, negb_true_iff, bool_decide_eq_false. done.
Qed.

Lemma free_active_length (active assigned : list Z) :
  NoDup active ->
  (length active
   <= length (List.filter (fun idx => negb (bool_decide (idx ∈ assigned))) active)
      + length assigned)%nat.
Proof.
  intros Hnd. rewrite free_active_split.
  pose proof (filter_app_complement (fun idx => idx ∈ assigned) active) as Hperm.
  apply Permutation_length in Hperm. rewrite length_app in Hperm.
  assert (length (filter (fun idx => idx ∈ assigned) active) <= length assigned)%nat.
  { apply submseteq_length, NoDup_submseteq; [by apply NoDup_filter|].
    intros x Hx. by apply list_elem_of_filter in Hx as [? _]. }
  lia.
Qed.

Lemma locks_fit_chunks (s : AlbumWindow) :
  locks_fit s ->
  Forall2 (fun c chunk => len chunk <= c) (leaf_count <$> pages_roots s)
    (lock_values <$> take (length (pages_roots s)) (pages_locks s)).
Proof.
  intros Hfit. rewrite firstn_all2 by (apply Forall2_length in Hfit; lia).
  apply Forall2_fmap. eapply Forall2_impl; [exact Hfit|].
  intros root d Hd. simpl. unfold len. rewrite length_lock_values. done.
Qed.

(** X6. When a run is dispatched from a window whose rows carry distinct
    image indices and whose pages have no more locks than leaves, every
    page's chunk holds exactly as many images as the page has leaves. *)
Theorem dispatched_chunks_fill_their_pages (build_full_tree : Builder)
    (s s' : AlbumWindow) (g g' : Rng) :
  start_optimization build_full_tree s g = (Done, s', g') ->
  rows_distinct s ->
  locks_fit s ->
  ∃ w, worker s' = Some w ∧
       Forall2 (fun root chunk => len chunk = leaf_count root)
         (pages_roots s) (w_chunks w).
Proof.
  intros Hrun Hrows Hfit.
  destruct (start_optimization_request _ _ _ _ _ Hrun)
    as (w & roots & Hw & _ & HM & HT & _ & Hchunks & _).
  exists w. split; [done|]. rewrite Hchunks, locked_chunks_all.
  apply (Forall2_fmap_l leaf_count (fun c chunk => len chunk = c)).
  apply fill_chunks_lengths; [by apply locks_fit_chunks|].
  pose proof (free_active_length (active_indices s)
                (concat (lock_values <$> take (length (pages_roots s)) (pages_locks s)))
                (active_indices_NoDup s Hrows)) as Hfree.
  pose proof (length_active_indices s HM HT) as Hlen.
  unfold len in *. lia.
Qed.

Lemma rows_distinct_with_lock : rows_distinct with_lock.
Proof. apply (bool_decide_unpack _). by vm_compute. Qed.

Lemma locks_fit_with_lock : locks_fit with_lock.
Proof.
  unfold locks_fit. simpl. apply Forall2_cons. split; [|apply Forall2_nil_2].
  vm_compute. discriminate.
Qed.

Lemma dispatched_chunks_fill_their_pages_witness :
  ∃ w, worker (start_optimization sa.build_full_tree with_lock zeros).1.2 = Some w ∧
       Forall2 (fun root chunk => len chunk = leaf_count root)
         (pages_roots with_lock) (w_chunks w).
Proof.
  apply (dispatched_chunks_fill_their_pages sa.build_full_tree with_lock
           (start_optimization sa.build_full_tree with_lock zeros).1.2 zeros
           (start_optimization sa.build_full_tree with_lock zeros).2);
    [vm_compute; reflexivity | apply rows_distinct_with_lock | apply locks_fit_with_lock].
Defined.

(** X7. On dispatch every locked image is seeded into the chunk of the
    page that locks it. *)
Theorem dispatched_chunks_hold_their_locks (build_full_tree : Builder)
    (s s' : AlbumWindow) (g g' : Rng) (p : nat) (locked : gmap Z Z) (k x : Z) :
  start_optimization build_full_tree s g = (Done, s', g') ->
  (p < length (pages_roots s))%nat ->
  pages_locks s !! p = Some locked ->
  locked !! k = Some x ->
  ∃ w chunk, worker s' = Some w ∧ w_chunks w !! p = Some chunk ∧ x ∈ chunk.
Proof.
  intros Hrun Hp Hlocked Hk.
  destruct (start_optimization_request _ _ _ _ _ Hrun)
    as (w & roots & Hw & _ & _ & _ & _ & Hchunks & _).
  rewrite locked_chunks_all in Hchunks.
  destruct (fill_chunks_prefix (leaf_count <$> pages_roots s)
              (lock_values <$> take (length (pages_roots s)) (pages_locks s))
              (List.filter
                 (fun idx =>
                    negb (bool_decide
                            (idx ∈ concat (lock_values <$>
                                             take (length (pages_roots s)) (pages_locks s)))))
                 (active_indices s))
              p (lock_values locked)) as (extra & Hchunk & _).
  { rewrite list_lookup_fmap, lookup_take_lt by done. by rewrite Hlocked. }
  exists w, (lock_values locked ++ extra). split; [done|].
  split; [by rewrite Hchunks|].
  apply elem_of_app. left. apply elem_of_lock_values. by exists k.
Qed.

Lemma dispatched_chunks_hold_their_locks_witness :
  ∃ w chunk,
    worker (start_optimization sa.build_full_tree with_lock zeros).1.2 = Some w ∧
    w_chunks w !! 0%nat = Some chunk ∧ 1 ∈ chunk.
Proof.
  apply (dispatched_chunks_hold_their_locks sa.build_full_tree with_lock
           (start_optimization sa.build_full_tree with_lock zeros).1.2 zeros
           (start_optimization sa.build_full_tree with_lock zeros).2
           0%nat {[2 := 1]} 2 1);
    [vm_compute; reflexivity | simpl; lia | vm_compute; reflexivity | reflexivity].
Defined.

(** X8. If moreover no image is locked twice, the chunks of a dispatched
    run are a rearrangement of the selected images: every mandatory image
    and every selected optional image is in exactly one chunk, once. *)
Theorem dispatched_chunks_partition_the_selection (build_full_tree : Builder)
    (s s' : AlbumWindow) (g g' : Rng) :
  start_optimization build_full_tree s g = (Done, s', g') ->
  rows_distinct s ->
  locks_fit s ->
  locks_globally_unique s ->
  ∃ w, worker s' = Some w ∧
       concat (w_chunks w) ≡ₚ active_indices s ∧
       NoDup (concat (w_chunks w)) ∧
       ∀ x, x ∈ mandatory_indices s -> x ∈ concat (w_chunks w).
Proof.
  intros Hrun Hrows Hfit Huniq.
  destruct (start_optimization_request _ _ _ _ _ Hrun)
    as (w & roots & Hw & _ & HM & HT & _ & Hchunks & _).
  exists w. split; [done|].
  pose proof (active_indices_NoDup s Hrows) as Hnd.
  pose proof (length_active_indices s HM HT) as Hlen.
  assert (Hperm : concat (w_chunks w) ≡ₚ active_indices s).
  { rewrite Hchunks, locked_chunks_all.
    rewrite fill_chunks_concat by (by apply locks_fit_chunks).
    rewrite free_active_split.
    assert (Hall : take (length (pages_roots s)) (pages_locks s) = pages_locks s)
      by (apply firstn_all2; apply Forall2_length in Hfit; lia).
    rewrite Hall.
    set (assigned := concat (lock_values <$> pages_locks s)).
    assert (Hassigned : filter (fun idx => idx ∈ assigned) (active_indices s) ≡ₚ assigned).
    { apply NoDup_Permutation; [by apply NoDup_filter|done|].
      intros x. rewrite list_elem_of_filter. split; [tauto|].
      intros Hx. split; [done|]. subst assigned.
      apply elem_of_concat in Hx as (l & Hx & Hl).
      apply list_elem_of_fmap in Hl as (d & -> & Hd).
      by eapply lock_values_active. }
    pose proof (filter_app_complement (fun idx => idx ∈ assigned) (active_indices s))
      as Hsplit.
    rewrite firstn_all2.
    - by rewrite <- Hassigned at 1.
    - apply Permutation_length in Hsplit, Hassigned.
      rewrite length_app in Hsplit. unfold len in *. lia. }
  split; [done|]. split; [by rewrite Hperm|].
  intros x Hx. rewrite Hperm. unfold active_indices.
  apply elem_of_app. left. by apply elem_of_elements.
Qed.

Lemma dispatched_chunks_partition_the_selection_witness :
  ∃ w, worker (start_optimization sa.build_full_tree with_lock zeros).1.2 = Some w ∧
       concat (w_chunks w) ≡ₚ active_indices with_lock ∧
       NoDup (concat (w_chunks w)) ∧
       ∀ x, x ∈ mandatory_indices with_lock -> x ∈ concat (w_chunks w).
Proof.
  apply (dispatched_chunks_partition_the_selection sa.build_full_tree with_lock
           (start_optimization sa.build_full_tree with_lock zeros).1.2 zeros
           (start_optimization sa.build_full_tree with_lock zeros).2);
    [vm_compute; reflexivity | apply rows_distinct_with_lock | apply locks_fit_with_lock |].
  apply (bool_decide_unpack _). by vm_compute.
Defined.

(** X9. With distinct rows, the swap pool of a dispatched run shares no
    image with the chunks; it is the tail of the optional images, those
    beyond the ones selected. *)
Theorem dispatched_swap_pool_is_disjoint (build_full_tree : Builder)
    (s s' : AlbumWindow) (g g' : Rng) :
  start_optimization build_full_tree s g = (Done, s', g') ->
  rows_distinct s ->
  ∃ w, worker s' = Some w ∧
       (∀ x, x ∈ concat (w_chunks w) -> x ∉ w_swap_pool w) ∧
       (∃ selected, optional_indices s = selected ++ w_swap_pool w ∧
                    ∀ x, x ∈ selected -> x ∈ active_indices s) ∧
       len (w_swap_pool w)
       = Z.of_nat (size (mandatory_indices s)) + len (optional_indices s)
         - py_sum (leaf_count <$> pages_roots s).
Proof.
  intros Hrun Hrows.
  destruct (start_optimization_request _ _ _ _ _ Hrun)
    as (w & roots & Hw & _ & HM & HT & _ & Hchunks & Hswap & _).
  exists w. split; [done|]. rewrite Hswap.
  set (R := Z.to_nat (py_sum (leaf_count <$> pages_roots s)
                      - Z.of_nat (size (mandatory_indices s)))).
  split; [|split].
  - intros x Hx Hin. rewrite Hchunks in Hx.
    assert (Hactive : x ∈ active_indices s).
    { apply fill_chunks_elem in Hx as [Hx|Hx].
      - apply elem_of_concat in Hx as (l & Hx & Hl).
        apply list_elem_of_fmap in Hl as (d & -> & Hd).
        unfold locked_chunk in Hx. by apply elem_of_List_filter in Hx as [_ ?%bool_decide_eq_true].
      - by apply elem_of_List_filter in Hx as [? _]. }
    unfold active_indices in Hactive. fold R in Hactive.
    assert (Hopt : x ∈ optional_indices s).
    { apply list_elem_of_lookup in Hin as [i Hi]. rewrite lookup_drop in Hi.
      by eapply list_elem_of_lookup_2. }
    apply elem_of_app in Hactive as [Hman|Htake].
    + apply elem_of_elements in Hman. by apply (optional_not_mandatory s x).
    + pose proof (optional_indices_NoDup s Hrows) as Hnd.
      rewrite <- (take_drop R (optional_indices s)) in Hnd.
      apply NoDup_app in Hnd as (_ & Hdisj & _). by apply (Hdisj x).
  - exists (take R (optional_indices s)). split; [by rewrite take_drop|].
    intros x Hx. unfold active_indices. fold R. apply elem_of_app. by right.
  - subst R. unfold len in *. rewrite length_drop. lia.
Qed.

Lemma dispatched_swap_pool_is_disjoint_witness :
  ∃ w, worker (start_optimization sa.build_full_tree with_lock zeros).1.2 = Some w ∧
       (∀ x, x ∈ concat (w_chunks w) -> x ∉ w_swap_pool w) ∧
       len (w_swap_pool w) = 1.
Proof.
  destruct (dispatched_swap_pool_is_disjoint sa.build_full_tree with_lock
              (start_optimization sa.build_full_tree with_lock zeros).1.2 zeros
              (start_optimization sa.build_full_tree with_lock zeros).2)
    as (w & Hw & Hdisj & _ & Hlen);
    [vm_compute; reflexivity | apply rows_distinct_with_lock |].
  exists w. split; [done|]. split; [done|]. rewrite Hlen. by vm_compute.
Defined.

(** ** Statistics and validation *)

Lemma foldl_capacity (roots : list (option Node)) (acc : Z) :
  foldl (fun acc root => acc + leaf_count root) acc roots
  = acc + py_sum (leaf_count <$> roots).
Proof.
  revert acc. induction roots as [|r roots IH]; intros acc; simpl; [lia|].
  rewrite IH, <- Z.add_assoc. reflexivity.
Qed.

Lemma count_rows_filter (locked : gset Z) (rows : list ImageListEntry) (m p : Z) :
  foldl (fun counts e =>
           if mandatory_cb e || bool_decide (entry_idx e ∈ locked)
           then (counts.1 + 1, counts.2)
           else if pool_cb e then (counts.1, counts.2 + 1) else counts)
    (m, p) rows
  = (m + len (List.filter
                (fun e => mandatory_cb e || bool_decide (entry_idx e ∈ locked)) rows),
     p + len (List.filter
                (fun e => negb (mandatory_cb e) && pool_cb e &&
                          negb (bool_decide (entry_idx e ∈ locked))) rows)).
Proof.
  revert m p. induction rows as [|e rows IH]; intros m p; simpl.
  - unfold len. simpl. f_equal; lia.
  - destruct (mandatory_cb e) eqn:Hm; simpl.
    + rewrite IH. unfold len. simpl. f_equal; lia.
    + destruct (bool_decide (entry_idx e ∈ locked)) eqn:Hl; simpl.
      * rewrite IH. rewrite andb_false_r. unfold len. simpl. f_equal; lia.
      * rewrite andb_true_r. destruct (pool_cb e); rewrite IH; unfold len; simpl;
          f_equal; lia.
Qed.

Lemma mandatory_indices_rows (s : AlbumWindow) :
  locks_have_rows s ->
  mandatory_indices s
  = list_to_set
      (entry_idx <$>
         List.filter (fun e => mandatory_cb e ||
                               bool_decide (entry_idx e ∈ locked_indices (pages_locks s)))
           (image_list s)).
Proof.
  intros Hrows. apply set_eq. intros x.
  rewrite elem_of_mandatory_indices, elem_of_list_to_set, list_elem_of_fmap. split.
  - intros [Hl|(e & He & Hm & <-)].
    + pose proof (Hrows x Hl) as Hrow.
      apply list_elem_of_fmap in Hrow as (e & -> & He).
      exists e. split; [done|]. apply elem_of_List_filter. split; [done|].
      rewrite bool_decide_eq_true_2 by done. by rewrite orb_true_r.
    + exists e. split; [done|]. apply elem_of_List_filter. split; [done|].
      by rewrite Hm.
  - intros (e & -> & He). apply elem_of_List_filter in He as [He Hf].
    apply orb_true_iff in Hf as [Hm|Hl].
    + right. by exists e.
    + left. by apply bool_decide_eq_true in Hl.
Qed.

Lemma NoDup_fmap_List_filter (f : ImageListEntry -> bool) (rows : list ImageListEntry) :
  NoDup (entry_idx <$> rows) -> NoDup (entry_idx <$> List.filter f rows).
Proof.
  induction rows as [|e rows IH]; simpl; [done|].
  intros [Hnotin Hnd]%NoDup_cons. destruct (f e); [|by apply IH].
  simpl. apply NoDup_cons. split; [|by apply IH].
  intros Hin. apply Hnotin. apply list_elem_of_fmap in Hin as (e' & -> & He').
  apply list_elem_of_fmap. exists e'. split; [done|].
  by apply elem_of_List_filter in He' as [? _].
Qed.

(** X10. The statistics show what the validation of a run will use: the
    capacity is the number of slots, the pool count is the number of
    optional images, and, with distinct rows covering every locked image,
    the mandatory count is the number of mandatory images.  So a request is
    refused for too many mandatory images exactly when the shown mandatory
    count exceeds the shown capacity. *)
Theorem stats_agree_with_validation (build_full_tree : Builder)
    (s : AlbumWindow) (g : Rng) :
  rows_distinct s ->
  locks_have_rows s ->
  stat_album_capacity (update_stats s) = py_sum (leaf_count <$> pages_roots s) ∧
  stat_pool (update_stats s) = len (optional_indices s) ∧
  stat_mandatory (update_stats s) = Z.of_nat (size (mandatory_indices s)) ∧
  (pages_roots s ≠ [] -> pages_perms s ≠ [] ->
   (∀ e, (start_optimization build_full_tree s g).1.1 ≠ Raised e) ->
   ((start_optimization build_full_tree s g).1.1 = OverMandatory <->
    stat_album_capacity (update_stats s) < stat_mandatory (update_stats s)) ∧
   ((start_optimization build_full_tree s g).1.1 = UnderSupply <->
    stat_mandatory (update_stats s) <= stat_album_capacity (update_stats s) ∧
    stat_mandatory (update_stats s) + stat_pool (update_stats s)
      < stat_album_capacity (update_stats s))).
Proof.
  intros Hdistinct Hrows.
  assert (Hcap : stat_album_capacity (update_stats s)
                 = py_sum (leaf_count <$> pages_roots s)).
  { unfold update_stats. simpl. by rewrite foldl_capacity. }
  assert (Hpool : stat_pool (update_stats s) = len (optional_indices s)).
  { unfold update_stats, count_rows. simpl. rewrite count_rows_filter. simpl.
    unfold optional_indices, len. by rewrite length_fmap. }
  assert (Hman : stat_mandatory (update_stats s)
                 = Z.of_nat (size (mandatory_indices s))).
  { unfold update_stats, count_rows. simpl. rewrite count_rows_filter. simpl.
    rewrite mandatory_indices_rows by done.
    rewrite size_list_to_set by (by apply NoDup_fmap_List_filter).
    unfold len. by rewrite length_fmap. }
  split; [done|]. split; [done|]. split; [done|].
  intros Hr Hp Hraise. rewrite Hcap, Hpool, Hman.
  revert Hraise. rewrite start_optimization_ready by done.
  destruct (if has_locks (pages_roots s) then _ else _) as [[roots g1]|e];
    [|intros H; by destruct (H e)].
  intros Hraise. unfold select_and_dispatch in *.
  change (mandatory_indices (set_pages_roots roots s)) with (mandatory_indices s) in *.
  change (optional_indices (set_pages_roots roots s)) with (optional_indices s) in *.
  destruct (_ <? Z.of_nat (size (mandatory_indices s))) eqn:H1.
  { apply Z.ltb_lt in H1. simpl. split; split; try done; lia. }
  apply Z.ltb_ge in H1.
  destruct (_ + _ <? _) eqn:H2.
  { apply Z.ltb_lt in H2. simpl. split; split; try done; lia. }
  apply Z.ltb_ge in H2.
  destruct (bool_decide _); simpl; split; split; try done; lia.
Qed.

Lemma locks_have_rows_with_lock : locks_have_rows with_lock.
Proof.
  intros x Hx. apply elem_of_locked_indices in Hx as (d & Hd & Hx).
  assert (Hlocks : pages_locks with_lock = [{[2 := 1]}]) by (vm_compute; reflexivity).
  rewrite Hlocks in Hd. apply list_elem_of_singleton in Hd as ->.
  apply elem_of_lock_values in Hx as [k Hk].
  apply lookup_singleton_Some in Hk as [_ <-].
  apply (bool_decide_unpack _). by vm_compute.
Qed.

Lemma stats_agree_with_validation_witness :
  stat_mandatory (update_stats with_lock) = 1 ∧
  stat_pool (update_stats with_lock) = 4 ∧
  stat_album_capacity (update_stats with_lock) = 4.
Proof.
  destruct (stats_agree_with_validation sa.build_full_tree with_lock zeros)
    as (Hcap & Hpool & Hman & _).
  - apply rows_distinct_with_lock.
  - apply locks_have_rows_with_lock.
  - rewrite Hcap, Hpool, Hman. by vm_compute.
Defined.

(** ** Page configuration: the layout it leaves *)

Lemma parse_page_config_window (s : AlbumWindow) :
  (parse_page_config s).1 = set_num_pages_spin (num_pages_spin (parse_page_config s).1) s.
Proof. rewrite parse_page_config_fst. apply read_page_counts_window. Qed.

(** The fields a completed [init_trees] sets, and those it leaves. *)
Lemma init_trees_Done_fields (build_full_tree : Builder) (s s' : AlbumWindow) (g g' : Rng) :
  init_trees build_full_tree s g = (Done, s', g') ->
  current_page_idx s' = 0 ∧
  optimize_btn s' = negb (bool_decide (pages_roots s' = [])) ∧
  export_btn s' = negb (bool_decide (pages_roots s' = [])) ∧
  image_paths s' = image_paths s ∧
  image_list s' = image_list s ∧
  image_crop_states s' = image_crop_states s ∧
  forced_aspect_ratios s' = forced_aspect_ratios s ∧
  snapshots s' = snapshots s ∧
  worker s' = worker s ∧
  page_config_edit s' = page_config_edit s.
Proof.
  unfold init_trees.
  destruct (len (image_paths s) =? 0); [done|].
  pose proof (parse_page_config_window s) as Hwin.
  destruct (parse_page_config s) as [s1 parsed]. simpl in Hwin.
  destruct (fallback_counts s1 parsed) as [page_counts|]; [|done].
  destruct (build_roots build_full_tree 0 page_counts) as [roots|e]; [|done].
  destruct (random_shuffle _ g) as [pool g1].
  destruct (distribute page_counts 0 pool g1) as [perms g2].
  intros [= <- <-]. simpl.
  revert Hwin. generalize (num_pages_spin s1). intros v ->. simpl. done.
Qed.

Lemma length_new_page_titles (s : AlbumWindow) (n : nat) :
  length (new_page_titles s n) = n.
Proof. unfold new_page_titles. by rewrite length_map, length_seq. Qed.

Lemma length_keep_locks (page_counts : list Z) (locks : list (gmap Z Z)) :
  length (keep_locks page_counts locks) = length page_counts.
Proof.
  unfold keep_locks. destruct (bool_decide _) eqn:H.
  - by rewrite length_replicate.
  - apply bool_decide_eq_false in H. rewrite length_zip_with. lia.
Qed.

Lemma init_trees_pool (build_full_tree : Builder) (s s' : AlbumWindow) (g g' : Rng) :
  init_trees build_full_tree s g = (Done, s', g') ->
  ∃ page_counts pool,
    page_counts_of s = Some page_counts ∧
    page_counts ≠ [] ∧ Forall (fun c => 0 < c) page_counts ∧
    pool ≡ₚ Z.of_nat <$> seq 0 (length (image_paths s)) ∧
    sliced pool 0 page_counts (pages_perms s') ∧
    length (pages_roots s') = length page_counts ∧
    pages_locks s' = keep_locks page_counts (pages_locks s) ∧
    page_titles s' = new_page_titles (parse_page_config s).1 (length page_counts).
Proof.
  intros Hrun.
  destruct (init_trees_Done _ _ _ _ _ Hrun)
    as (page_counts & Himg & Hcounts & Hroots & Hperms & Hlocks & Htitles).
  pose proof (random_shuffle_Permutation
                (Z.of_nat <$> seq 0 (length (image_paths s))) g) as Hshuffle.
  destruct (random_shuffle _ g) as [pool g1]. simpl in *.
  destruct (page_counts_of_pos _ _ Hcounts) as [Hne Hpos].
  exists page_counts, pool. do 4 (split; [done|]).
  split.
  { rewrite Hperms. apply distribute_sliced; [| |done].
    - intros ->. apply Permutation_nil_l in Hshuffle.
      destruct (image_paths s); [done|]. done.
    - eapply Forall_impl; [exact Hpos|]. simpl. lia. }
  split; [by apply build_roots_lookup in Hroots as [? _]|done].
Qed.

(** X11. A completed reconfiguration leaves an aligned layout: at least
    one page, and as many trees, permutations, lock maps and titles as
    pages; the first page is current and both buttons are enabled.  Image
    list, crop states, forced set, snapshots and worker are untouched. *)
Theorem init_trees_leaves_an_aligned_layout (build_full_tree : Builder)
    (s s' : AlbumWindow) (g g' : Rng) :
  init_trees build_full_tree s g = (Done, s', g') ->
  (0 < length (pages_roots s'))%nat ∧
  length (pages_perms s') = length (pages_roots s') ∧
  length (pages_locks s') = length (pages_roots s') ∧
  length (page_titles s') = length (pages_roots s') ∧
  current_page_idx s' = 0 ∧
  optimize_btn s' = true ∧ export_btn s' = true ∧
  image_paths s' = image_paths s ∧
  image_list s' = image_list s ∧
  image_crop_states s' = image_crop_states s ∧
  forced_aspect_ratios s' = forced_aspect_ratios s ∧
  snapshots s' = snapshots s ∧
  worker s' = worker s.
Proof.
  intros Hrun.
  destruct (init_trees_pool _ _ _ _ _ Hrun)
    as (page_counts & pool & _ & Hne & _ & _ & Hsliced & Hroots & Hlocks & Htitles).
  destruct (init_trees_Done_fields _ _ _ _ _ Hrun)
    as (Hidx & Hopt & Hexp & Hpaths & Hrows & Hcrop & Hforced & Hsnap & Hworker & _).
  assert (Hpos : (0 < length (pages_roots s'))%nat).
  { rewrite Hroots. destruct page_counts; [done|]. simpl. lia. }
  assert (Hnonnil : pages_roots s' ≠ []).
  { intros E. rewrite E in Hpos. simpl in Hpos. lia. }
  rewrite bool_decide_eq_false_2 in Hopt, Hexp by done.
  split; [done|].
  split; [apply sliced_lengths, Forall2_length in Hsliced; congruence|].
  split; [by rewrite Hlocks, length_keep_locks|].
  split; [by rewrite Htitles, length_new_page_titles|].
  done.
Qed.

Lemma init_trees_leaves_an_aligned_layout_witness :
  length (pages_locks (init_trees sa.build_full_tree locked_then_two_pages zeros).1.2)
  = 2%nat ∧
  length (page_titles (init_trees sa.build_full_tree locked_then_two_pages zeros).1.2)
  = 2%nat.
Proof.
  destruct (init_trees_leaves_an_aligned_layout sa.build_full_tree locked_then_two_pages
              (init_trees sa.build_full_tree locked_then_two_pages zeros).1.2 zeros
              (init_trees sa.build_full_tree locked_then_two_pages zeros).2)
    as (_ & _ & Hlocks & Htitles & _); [vm_compute; reflexivity|].
  rewrite Hlocks, Htitles. split; vm_compute; reflexivity.
Defined.

(** X12. A completed reconfiguration keeps the titles by page index and
    names every new page after the folder ("Page" without a folder) and
    its number, counted from 1. *)
Theorem init_trees_keeps_titles_by_index (build_full_tree : Builder)
    (s s' : AlbumWindow) (g g' : Rng) (i : nat) :
  init_trees build_full_tree s g = (Done, s', g') ->
  (i < length (pages_roots s'))%nat ->
  page_titles s' !! i =
    Some (match page_titles s !! i with
          | Some title => title
          | None => (default "Page" (current_folder s) ++ " "
                     ++ py_str (Z.of_nat i + 1))%string
          end).
Proof.
  intros Hrun Hi.
  destruct (init_trees_pool _ _ _ _ _ Hrun)
    as (page_counts & pool & _ & _ & _ & _ & _ & Hroots & _ & Htitles).
  rewrite Htitles. unfold new_page_titles.
  pose proof (parse_page_config_window s) as Hwin. revert Hwin.
  generalize (num_pages_spin (parse_page_config s).1). intros v ->. simpl.
  change (map ?f ?l) with (f <$> l). rewrite list_lookup_fmap.
  rewrite lookup_seq_lt by lia. done.
Qed.

Lemma init_trees_keeps_titles_by_index_witness :
  page_titles (init_trees sa.build_full_tree locked_then_two_pages zeros).1.2
  = ["album 1"; "album 2"]%string.
Proof.
  apply list_eq. intros [|[|i]].
  - apply (init_trees_keeps_titles_by_index sa.build_full_tree locked_then_two_pages
             _ zeros (init_trees sa.build_full_tree locked_then_two_pages zeros).2 0%nat);
      [vm_compute; reflexivity | vm_compute; lia].
  - apply (init_trees_keeps_titles_by_index sa.build_full_tree locked_then_two_pages
             _ zeros (init_trees sa.build_full_tree locked_then_two_pages zeros).2 1%nat);
      [vm_compute; reflexivity | vm_compute; lia].
  - vm_compute. reflexivity.
Defined.

(** ** Page configuration: where the images go *)

Lemma py_slice_nonneg {A : Type} (l : list A) (a b : Z) :
  0 <= a -> 0 <= b ->
  py_slice l a b
  = take (Z.to_nat (Z.min b (len l)) - Z.to_nat (Z.min a (len l)))
      (drop (Z.to_nat (Z.min a (len l))) l).
Proof.
  intros Ha Hb. unfold py_slice, slice_bound.
  replace (a <? 0) with false by (symmetry; apply Z.ltb_ge; lia).
  replace (b <? 0) with false by (symmetry; apply Z.ltb_ge; lia).
  done.
Qed.

Lemma elem_of_py_slice {A : Type} (l : list A) (a b : Z) (x : A) :
  x ∈ py_slice l a b -> x ∈ l.
Proof.
  unfold py_slice. intros H. by eapply subseteq_drop, subseteq_take.
Qed.

Lemma py_sum_nonneg (l : list Z) : Forall (fun c => 0 <= c) l -> 0 <= py_sum l.
Proof. induction 1; simpl; lia. Qed.

Lemma sliced_elem (pool : list Z) (start : Z) (counts : list Z) (perms : list (list Z)) :
  sliced pool start counts perms ->
  ∀ perm x, perm ∈ perms -> x ∈ perm -> x ∈ pool.
Proof.
  induction 1 as [|start count counts padding perms Hpad Hwhen Hlen Hrest IH];
    intros perm x Hperm Hx.
  - by apply elem_of_nil in Hperm.
  - apply elem_of_cons in Hperm as [->|Hperm]; [|by eapply IH].
    apply elem_of_app in Hx as [Hx|Hx]; [by eapply elem_of_py_slice|].
    by eapply Forall_forall in Hpad.
Qed.

Lemma len_concat_sliced (pool : list Z) (start : Z) (counts : list Z)
    (perms : list (list Z)) :
  sliced pool start counts perms -> len (concat perms) = py_sum counts.
Proof.
  induction 1 as [|start count counts padding perms Hpad Hwhen Hlen Hrest IH]; [done|].
  simpl. rewrite len_app. lia.
Qed.

(** With enough images for all the slots no page is padded, and the pages
    are consecutive runs of the pool. *)
Lemma sliced_sublist (pool : list Z) (start : Z) (counts : list Z)
    (perms : list (list Z)) :
  sliced pool start counts perms ->
  0 <= start -> Forall (fun c => 0 <= c) counts ->
  start + py_sum counts <= len pool ->
  concat perms `sublist_of` drop (Z.to_nat start) pool.
Proof.
  induction 1 as [|start count counts padding perms Hpad Hwhen Hlen Hrest IH];
    intros Hstart Hpos Hfit.
  - apply sublist_nil_l.
  - apply Forall_cons in Hpos as [Hc Hpos]. simpl in Hfit.
    pose proof (py_sum_nonneg counts Hpos) as Hsum.
    destruct Hwhen as [->|Hshort]; [|lia]. rewrite app_nil_r. simpl.
    rewrite py_slice_nonneg by lia.
    replace (Z.to_nat (Z.min (Z.min (start + count) (len pool)) (len pool))
             - Z.to_nat (Z.min start (len pool)))%nat
      with (Z.to_nat count) by lia.
    replace (Z.to_nat (Z.min start (len pool))) with (Z.to_nat start) by lia.
    rewrite <- (take_drop (Z.to_nat count) (drop (Z.to_nat start) pool)) at 2.
    apply sublist_app; [done|].
    rewrite drop_drop.
    replace (Z.to_nat start + Z.to_nat count)%nat with (Z.to_nat (start + count)) by lia.
    apply IH; [lia|done|lia].
Qed.

(** The runs leave no gap: every pool position below the total number of
    slots lands on some page. *)
Lemma sliced_covers (pool : list Z) (start : Z) (counts : list Z)
    (perms : list (list Z)) :
  sliced pool start counts perms ->
  0 <= start -> Forall (fun c => 0 <= c) counts ->
  ∀ (i : nat) x, (Z.to_nat start <= i)%nat -> Z.of_nat i < start + py_sum counts ->
                 pool !! i = Some x -> x ∈ concat perms.
Proof.
  induction 1 as [|start count counts padding perms Hpad Hwhen Hlen Hrest IH];
    intros Hstart Hpos i x Hlo Hhi Hi.
  - simpl in Hhi. lia.
  - apply Forall_cons in Hpos as [Hc Hpos]. simpl in Hhi. simpl.
    pose proof (lookup_lt_Some _ _ _ Hi) as Hlt.
    rewrite !elem_of_app.
    destruct (decide (Z.of_nat i < start + count)) as [Hin|Hout].
    + left. left. rewrite py_slice_nonneg by (unfold len; lia).
      apply elem_of_take. exists (i - Z.to_nat start)%nat. split.
      * rewrite lookup_drop. unfold len.
        replace (Z.to_nat (Z.min start (Z.of_nat (length pool)))
                 + (i - Z.to_nat start))%nat with i by lia.
        done.
      * unfold len. lia.
    + right. apply (IH ltac:(lia) Hpos i x); [lia|lia|done].
Qed.

Lemma elem_of_index_pool (pool : list Z) (n : nat) (x : Z) :
  pool ≡ₚ Z.of_nat <$> seq 0 n -> x ∈ pool <-> 0 <= x < Z.of_nat n.
Proof.
  intros ->. rewrite list_elem_of_fmap. split.
  - intros (i & -> & Hi). apply elem_of_seq in Hi. lia.
  - intros Hx. exists (Z.to_nat x). split; [lia|]. apply elem_of_seq. lia.
Qed.

Lemma index_pool_NoDup (pool : list Z) (n : nat) :
  pool ≡ₚ Z.of_nat <$> seq 0 n -> NoDup pool.
Proof. intros ->. apply (NoDup_fmap_2 Z.of_nat), NoDup_seq. Qed.

(** X13. After a completed reconfiguration every slot holds the index of
    a loaded image.  When the images suffice for the slots, no image is
    placed twice; when the slots suffice for the images, every image is
    placed; with more slots than images some image is placed twice. *)
Theorem init_trees_places_the_images (build_full_tree : Builder)
    (s s' : AlbumWindow) (g g' : Rng) :
  init_trees build_full_tree s g = (Done, s', g') ->
  (∀ perm x, perm ∈ pages_perms s' -> x ∈ perm -> 0 <= x < len (image_paths s)) ∧
  (len (concat (pages_perms s')) <= len (image_paths s) ->
   NoDup (concat (pages_perms s'))) ∧
  (len (image_paths s) <= len (concat (pages_perms s')) ->
   ∀ x, 0 <= x < len (image_paths s) -> x ∈ concat (pages_perms s')) ∧
  (len (image_paths s) < len (concat (pages_perms s')) ->
   ¬ NoDup (concat (pages_perms s'))).
Proof.
  intros Hrun.
  destruct (init_trees_pool _ _ _ _ _ Hrun)
    as (counts & pool & _ & _ & Hpos & Hpool & Hsliced & _).
  assert (Hnn : Forall (fun c => 0 <= c) counts)
    by (eapply Forall_impl; [exact Hpos|]; simpl; lia).
  pose proof (len_concat_sliced _ _ _ _ Hsliced) as Hlen.
  assert (Hpoollen : len pool = len (image_paths s)).
  { unfold len. apply Permutation_length in Hpool.
    rewrite length_fmap, length_seq in Hpool. by rewrite Hpool. }
  assert (Hvalid : ∀ perm x, perm ∈ pages_perms s' -> x ∈ perm ->
                             0 <= x < len (image_paths s)).
  { intros perm x Hperm Hx. eapply (elem_of_index_pool pool); [done|].
    by eapply sliced_elem. }
  split; [done|]. split; [|split].
  - intros Hfit.
    eapply sublist_NoDup; [|apply (sliced_sublist pool 0 counts); try done; lia].
    simpl. by eapply index_pool_NoDup.
  - intros Hmore x Hx.
    assert (Hin : x ∈ pool) by (eapply elem_of_index_pool; [done|]; unfold len in Hx; lia).
    apply list_elem_of_lookup in Hin as [i Hi].
    pose proof (lookup_lt_Some _ _ _ Hi) as Hlt.
    apply (sliced_covers pool 0 counts _ Hsliced ltac:(lia) Hnn i x); [lia| |done].
    unfold len in *. lia.
  - intros Hless Hnd.
    assert (length (concat (pages_perms s')) <= length pool)%nat.
    { apply submseteq_length, NoDup_submseteq; [done|].
      intros x Hx. apply elem_of_concat in Hx as (perm & Hx & Hperm).
      by eapply sliced_elem. }
    unfold len in *. lia.
Qed.

Lemma init_trees_places_the_images_witness :
  NoDup (concat (pages_perms (init_trees sa.build_full_tree one_page zeros).1.2)) ∧
  ¬ NoDup (concat (pages_perms
                     (init_trees sa.build_full_tree locked_then_two_pages zeros).1.2)).
Proof.
  split.
  - apply (init_trees_places_the_images sa.build_full_tree one_page
             (init_trees sa.build_full_tree one_page zeros).1.2 zeros
             (init_trees sa.build_full_tree one_page zeros).2);
      [vm_compute; reflexivity | vm_compute; discriminate].
  - apply (init_trees_places_the_images sa.build_full_tree locked_then_two_pages
             (init_trees sa.build_full_tree locked_then_two_pages zeros).1.2 zeros
             (init_trees sa.build_full_tree locked_then_two_pages zeros).2);
      [vm_compute; reflexivity | vm_compute; reflexivity].
Defined.

(** ** Page configuration: when it goes through *)

Lemma page_counts_of_powers (s : AlbumWindow) (l : list Z) :
  page_counts_of s = Some l -> Forall (fun c => sa.is_power_of_two c = true) l.
Proof.
  unfold page_counts_of. rewrite parse_page_config_snd.
  destruct ((read_page_counts s).2) as [counts|e]; simpl; unfold fallback_counts.
  - destruct (validate_powers counts) as [l'|e] eqn:Hv.
    + apply validate_powers_Ok in Hv as [-> Hall].
      destruct counts; intros [= <-]; [by repeat constructor|done].
    + destruct (bool_decide _); [|done]. intros [= <-]. by repeat constructor.
  - destruct (bool_decide _); [|done]. intros [= <-]. by repeat constructor.
Qed.

Lemma build_roots_accepts (build_full_tree : Builder) (i : Z) (page_counts : list Z) :
  accepts_powers_of_two build_full_tree ->
  Forall (fun c => sa.is_power_of_two c = true) page_counts ->
  ∃ roots, build_roots build_full_tree i page_counts = Ok roots.
Proof.
  intros Hbuild Hall. revert i.
  induction Hall as [|c counts Hc Hall IH]; intros i; simpl; [by eexists|].
  destruct (Hbuild c (42 + i) Hc) as [n ->]. simpl.
  destruct (IH (i + 1)) as [roots ->]. simpl. by eexists.
Qed.

Lemma page_counts_of_refused (s : AlbumWindow) :
  page_counts_of s = None ->
  pages_roots s ≠ [] ∧ ∃ e, (parse_page_config s).2 = Raise e.
Proof.
  unfold page_counts_of, fallback_counts.
  pose proof (parse_page_config_window s) as Hwin.
  destruct ((parse_page_config s).2) as [[|c counts]|e]; [done|done|].
  destruct (bool_decide (pages_roots (parse_page_config s).1 = [])) eqn:Hroots; [done|].
  apply bool_decide_eq_false in Hroots. intros _. split; [|by eexists].
  rewrite Hwin in Hroots. done.
Qed.

Lemma page_counts_of_first (s : AlbumWindow) (e : exn) :
  pages_roots s = [] -> (parse_page_config s).2 = Raise e ->
  page_counts_of s = Some [4].
Proof.
  intros Hroots Hparse. unfold page_counts_of, fallback_counts. rewrite Hparse.
  pose proof (parse_page_config_window s) as Hwin.
  rewrite bool_decide_eq_true_2; [done|]. rewrite Hwin. done.
Qed.

Lemma init_trees_outcome (build_full_tree : Builder) (s : AlbumWindow) (g : Rng) :
  image_paths s ≠ [] ->
  match page_counts_of s with
  | None => (init_trees build_full_tree s g).1.1 = InvalidConfiguration
  | Some page_counts =>
      match build_roots build_full_tree 0 page_counts with
      | Ok _ => (init_trees build_full_tree s g).1.1 = Done
      | Raise _ => (init_trees build_full_tree s g).1.1 = BuildFailed
      end
  end.
Proof.
  intros Himg. unfold init_trees, page_counts_of.
  destruct (len (image_paths s) =? 0) eqn:Hn.
  { apply Z.eqb_eq in Hn. destruct (image_paths s); [done|]. unfold len in Hn.
    simpl in Hn. lia. }
  destruct (parse_page_config s) as [s1 parsed]. simpl.
  destruct (fallback_counts s1 parsed) as [page_counts|]; [|done].
  destruct (build_roots build_full_tree 0 page_counts) as [roots|e]; [|done].
  destruct (random_shuffle _ g) as [pool g1].
  destruct (distribute page_counts 0 pool g1) as [perms g2]. done.
Qed.

Lemma sa_accepts_powers_of_two : accepts_powers_of_two sa.build_full_tree.
Proof.
  intros count seed Hpow.
  destruct (build_full_tree_leaves count seed Hpow) as (n & Hn & _). by exists n.
Qed.

(** X14. With images loaded and a builder that returns a tree for every
    power of two, reconfiguration either completes or refuses the
    configuration text; the branch for a failed build is never taken.  On
    a window without pages it always completes, and a text that does not
    parse then yields a single page of four slots. *)
Theorem init_trees_completes_or_refuses (build_full_tree : Builder)
    (s : AlbumWindow) (g : Rng) :
  accepts_powers_of_two build_full_tree ->
  image_paths s ≠ [] ->
  ((init_trees build_full_tree s g).1.1 = Done ∨
   (init_trees build_full_tree s g).1.1 = InvalidConfiguration ∧ pages_roots s ≠ []) ∧
  (pages_roots s = [] ->
   ∀ e, (parse_page_config s).2 = Raise e ->
        ∃ root perm,
          pages_roots (init_trees build_full_tree s g).1.2 = [root] ∧
          pages_perms (init_trees build_full_tree s g).1.2 = [perm] ∧
          len perm = 4).
Proof.
  intros Hbuild Himg.
  assert (Hfirst : (init_trees build_full_tree s g).1.1 = Done ∨
                   (init_trees build_full_tree s g).1.1 = InvalidConfiguration
                   ∧ pages_roots s ≠ []).
  { pose proof (init_trees_outcome build_full_tree s g Himg) as Hout.
    destruct (page_counts_of s) as [page_counts|] eqn:Hcounts.
    - destruct (build_roots_accepts build_full_tree 0 page_counts Hbuild
                  (page_counts_of_powers _ _ Hcounts)) as [roots Hroots].
      rewrite Hroots in Hout. by left.
    - right. split; [done|]. by apply page_counts_of_refused. }
  split; [done|]. intros Hroots e Hparse.
  destruct Hfirst as [Hdone|[_ Hne]]; [|done].
  destruct (init_trees build_full_tree s g) as [[o s'] g'] eqn:Hrun.
  simpl in Hdone. subst o. simpl.
  destruct (init_trees_pool _ _ _ _ _ Hrun)
    as (counts & pool & Hcounts & _ & _ & _ & Hsliced & Hlen & _).
  rewrite (page_counts_of_first s e Hroots Hparse) in Hcounts.
  injection Hcounts as <-.
  apply sliced_lengths in Hsliced.
  apply Forall2_cons_inv_l in Hsliced as (perm & perms & Hperm & Hnil & ->).
  apply Forall2_nil_inv_l in Hnil as ->.
  destruct (pages_roots s') as [|root [|root' roots]]; [done| |done].
  by exists root, perm.
Qed.

Lemma init_trees_completes_or_refuses_witness :
  ∃ root perm,
    pages_roots (init_trees sa.build_full_tree first_run_bad_text zeros).1.2 = [root] ∧
    pages_perms (init_trees sa.build_full_tree first_run_bad_text zeros).1.2 = [perm] ∧
    len perm = 4.
Proof.
  apply (init_trees_completes_or_refuses sa.build_full_tree first_run_bad_text zeros
           sa_accepts_powers_of_two) with ValueError;
    [vm_compute; discriminate | reflexivity | vm_compute; reflexivity].
Defined.

(** ** Resetting the layout *)

(** What [init_trees] leaves alone whatever its outcome, and the two
    things it can do to the lock maps. *)
Lemma init_trees_frame (build_full_tree : Builder) (s : AlbumWindow) (g : Rng) :
  let r := init_trees build_full_tree s g in
  image_paths r.1.2 = image_paths s ∧
  image_list r.1.2 = image_list s ∧
  image_crop_states r.1.2 = image_crop_states s ∧
  forced_aspect_ratios r.1.2 = forced_aspect_ratios s ∧
  snapshots r.1.2 = snapshots s ∧
  current_folder r.1.2 = current_folder s ∧
  (r.1.1 = Done ->
   ∃ page_counts, pages_locks r.1.2 = keep_locks page_counts (pages_locks s)) ∧
  (r.1.1 ≠ Done -> pages_locks r.1.2 = pages_locks s) ∧
  (r.1.1 = InvalidConfiguration ∨ r.1.1 = NotReady ->
   pages_roots r.1.2 = pages_roots s ∧ pages_perms r.1.2 = pages_perms s ∧
   page_titles r.1.2 = page_titles s).
Proof.
  unfold init_trees.
  destruct (len (image_paths s) =? 0).
  { simpl. by split_and!. }
  pose proof (parse_page_config_window s) as Hwin.
  destruct (parse_page_config s) as [s1 parsed]. simpl in Hwin.
  revert Hwin. generalize (num_pages_spin s1). intros v ->.
  destruct (fallback_counts _ parsed) as [page_counts|].
  2:{ simpl. by split_and!. }
  destruct (build_roots build_full_tree 0 page_counts) as [roots|e].
  2:{ simpl. split_and!; try done. by intros [|]. }
  destruct (random_shuffle _ g) as [pool g1].
  destruct (distribute page_counts 0 pool g1) as [perms g2]. simpl.
  split_and!; try done; [|by intros [|]].
  intros _. by exists page_counts.
Qed.

Lemma keep_locks_empty (page_counts : list Z) (locks : list (gmap Z Z)) :
  Forall (fun d => d = ∅) locks ->
  Forall (fun d => d = ∅) (keep_locks page_counts locks).
Proof.
  intros Hempty. unfold keep_locks. destruct (bool_decide _).
  - apply Forall_replicate. done.
  - revert page_counts. induction Hempty as [|d locks -> Hempty IH]; intros [|c counts];
      simpl; by constructor.
Qed.

(** X15. A reset leaves no lock on any page, whatever becomes of the
    reconfiguration it ends with.  It never touches crop states or the
    set of forced aspect ratios, and when the configuration text is
    refused the trees and permutations stay as they were: the locks are
    gone but nothing is re-randomised. *)
Theorem reset_layout_clears_every_lock (build_full_tree : Builder)
    (s : AlbumWindow) (g : Rng) :
  Forall (fun d => d = ∅) (pages_locks (reset_layout build_full_tree s g).1.2) ∧
  image_crop_states (reset_layout build_full_tree s g).1.2 = image_crop_states s ∧
  forced_aspect_ratios (reset_layout build_full_tree s g).1.2 = forced_aspect_ratios s ∧
  ((reset_layout build_full_tree s g).1.1 = InvalidConfiguration ->
   pages_roots (reset_layout build_full_tree s g).1.2 = pages_roots s ∧
   pages_perms (reset_layout build_full_tree s g).1.2 = pages_perms s ∧
   length (pages_locks (reset_layout build_full_tree s g).1.2) = length (pages_locks s)).
Proof.
  unfold reset_layout.
  set (s0 := set_pages_locks _ s).
  destruct (init_trees_frame build_full_tree s0 g)
    as (_ & _ & Hcrop & Hforced & _ & _ & Hdone & Hother & Hrefused).
  assert (Hempty : Forall (fun d => d = ∅) (pages_locks s0)).
  { subst s0. simpl. apply Forall_fmap, Forall_true. done. }
  split.
  { destruct ((init_trees build_full_tree s0 g).1.1) eqn:Hd;
      try (by rewrite Hother).
    destruct (Hdone eq_refl) as [page_counts ->]. by apply keep_locks_empty. }
  split; [done|]. split; [done|].
  intros Hout. destruct (Hrefused (or_introl Hout)) as (Hroots & Hperms & _).
  split; [done|]. split; [done|].
  rewrite Hother by (by rewrite Hout). subst s0. simpl. by rewrite length_fmap.
Qed.

(** ** Loading a folder *)

Lemma prepared_fields (lp : Z -> Z) (folder : string) (files : list string)
    (loaded : list SnapshotData) (s : AlbumWindow) :
  let s1 := prepared lp folder files loaded s in
  image_paths s1 = files ∧
  current_folder s1 = Some folder ∧
  image_list s1 = fresh_rows (length files) ∧
  image_crop_states s1 = image_crop_states s ∧
  forced_aspect_ratios s1 = forced_aspect_ratios s ∧
  page_titles s1 = [] ∧
  pages_roots s1 = [] ∧
  pages_perms s1 = [] ∧
  pages_locks s1 = [] ∧
  num_pages_spin s1 = num_pages_spin s ∧
  page_config_edit s1 = py_str (default_slots lp (len files)) ∧
  snapshots s1 = loaded.
Proof. by split_and!. Qed.

Lemma fresh_rows_indices (n : nat) : entry_idx <$> fresh_rows n = Z.of_nat <$> seq 0 n.
Proof. unfold fresh_rows. rewrite <- list_fmap_compose. done. Qed.

Lemma fresh_rows_distinct (n : nat) : NoDup (entry_idx <$> fresh_rows n).
Proof. rewrite fresh_rows_indices. apply (NoDup_fmap_2 Z.of_nat), NoDup_seq. Qed.

Lemma keep_locks_nil (page_counts : list Z) :
  keep_locks page_counts [] = replicate (length page_counts) ∅.
Proof. unfold keep_locks. by destruct page_counts. Qed.

Lemma new_page_titles_fresh (s : AlbumWindow) (folder : string) (n i : nat) :
  page_titles s = [] -> current_folder s = Some folder -> (i < n)%nat ->
  new_page_titles s n !! i = Some (folder ++ " " ++ py_str (Z.of_nat i + 1))%string.
Proof.
  intros Htitles Hfolder Hi. unfold new_page_titles. rewrite Htitles, Hfolder.
  change (map ?f ?l) with (f <$> l). rewrite list_lookup_fmap.
  rewrite lookup_seq_lt by lia. done.
Qed.

(** What a load of a folder with images comes to: reconfiguration of the
    prepared window, and the optimise button set by the trees. *)
Lemma load_images_cons (build_full_tree : Builder) (lp : Z -> Z) (folder : string)
    (file : string) (files : list string) (loaded : list SnapshotData)
    (s : AlbumWindow) (g : Rng) :
  load_images build_full_tree lp folder (file :: files) loaded s g
  = ((init_trees build_full_tree (prepared lp folder (file :: files) loaded s) g).1.1,
     set_optimize_btn
       (negb (bool_decide
                (pages_roots
                   (init_trees build_full_tree
                      (prepared lp folder (file :: files) loaded s) g).1.2 = [])))
       (init_trees build_full_tree (prepared lp folder (file :: files) loaded s) g).1.2,
     (init_trees build_full_tree (prepared lp folder (file :: files) loaded s) g).2).
Proof.
  unfold load_images.
  by destruct (init_trees build_full_tree _ g) as [[o s1] g1].
Qed.

Lemma init_trees_first_run (build_full_tree : Builder) (s : AlbumWindow) (g : Rng) :
  accepts_powers_of_two build_full_tree ->
  image_paths s ≠ [] -> pages_roots s = [] ->
  (init_trees build_full_tree s g).1.1 = Done.
Proof.
  intros Hbuild Himg Hroots.
  pose proof (init_trees_outcome build_full_tree s g Himg) as Hout.
  destruct (page_counts_of s) as [page_counts|] eqn:Hcounts.
  - destruct (build_roots_accepts build_full_tree 0 page_counts Hbuild
                (page_counts_of_powers _ _ Hcounts)) as [roots Hr].
    by rewrite Hr in Hout.
  - by apply page_counts_of_refused in Hcounts as [? _].
Qed.

(** X16. Loading a folder that holds images always ends with a layout,
    given a builder that returns a tree for every power of two: one row
    per image, numbered from 0 in file order, ticked for the pool and not
    mandatory; at least one page; one empty lock map per page; titles made
    of the folder name and the page number; the snapshots read from the
    folder.  Crop states and the set of forced aspect ratios are not reset:
    they carry over from the folder shown before. *)
Theorem load_images_gives_a_fresh_album (build_full_tree : Builder) (lp : Z -> Z)
    (folder file : string) (files : list string) (loaded : list SnapshotData)
    (s s' : AlbumWindow) (g g' : Rng) (o : outcome) :
  accepts_powers_of_two build_full_tree ->
  load_images build_full_tree lp folder (file :: files) loaded s g = (o, s', g') ->
  o = Done ∧
  image_paths s' = file :: files ∧
  image_list s' = fresh_rows (S (length files)) ∧
  rows_distinct s' ∧
  (0 < length (pages_roots s'))%nat ∧
  length (pages_perms s') = length (pages_roots s') ∧
  pages_locks s' = replicate (length (pages_roots s')) ∅ ∧
  (∀ i : nat, (i < length (pages_roots s'))%nat ->
     page_titles s' !! i = Some (folder ++ " " ++ py_str (Z.of_nat i + 1))%string) ∧
  snapshots s' = loaded ∧
  optimize_btn s' = true ∧
  image_crop_states s' = image_crop_states s ∧
  forced_aspect_ratios s' = forced_aspect_ratios s.
Proof.
  intros Hbuild. rewrite load_images_cons.
  set (s0 := prepared lp folder (file :: files) loaded s).
  destruct (prepared_fields lp folder (file :: files) loaded s)
    as (Hpaths & Hfolder & Hrows & Hcrop & Hforced & Htitles & Hroots & Hperms
        & Hlocks & _ & _ & Hsnap).
  fold s0 in Hpaths, Hfolder, Hrows, Hcrop, Hforced, Htitles, Hroots, Hperms, Hlocks, Hsnap.
  assert (Himg : image_paths s0 ≠ []) by (by rewrite Hpaths).
  pose proof (init_trees_first_run build_full_tree s0 g Hbuild Himg Hroots) as Hdone.
  destruct (init_trees build_full_tree s0 g) as [[o1 s1] g1] eqn:Hrun.
  simpl in Hdone. subst o1. simpl. intros [= <- <- <-].
  destruct (init_trees_pool _ _ _ _ _ Hrun)
    as (counts & pool & _ & Hne & _ & _ & Hsliced & Hlen & Hkeep & Hnew).
  destruct (init_trees_Done_fields _ _ _ _ _ Hrun)
    as (_ & _ & _ & Hp & Hr & Hc & Hf & Hs & _ & _).
  assert (Hpos : (0 < length (pages_roots s1))%nat).
  { rewrite Hlen. destruct counts; [done|]. simpl. lia. }
  assert (Hnonnil : pages_roots s1 ≠ []).
  { intros E. rewrite E in Hpos. simpl in Hpos. lia. }
  simpl. split; [done|].
  split; [by rewrite Hp|]. split; [by rewrite Hr|].
  split; [unfold rows_distinct; simpl; rewrite Hr, Hrows; apply fresh_rows_distinct|].
  split; [done|].
  split; [apply sliced_lengths, Forall2_length in Hsliced; congruence|].
  split; [by rewrite Hkeep, Hlocks, keep_locks_nil, Hlen|].
  split.
  { intros i Hi. rewrite Hnew.
    pose proof (parse_page_config_window s0) as Hwin. rewrite Hwin.
    apply new_page_titles_fresh; [done|done|lia]. }
  split; [by rewrite Hs|].
  split; [by rewrite bool_decide_eq_false_2|].
  split; [by rewrite Hc|by rewrite Hf].
Qed.

Lemma load_images_gives_a_fresh_album_witness :
  image_list loaded_album = fresh_rows 5 ∧
  pages_locks loaded_album = replicate (length (pages_roots loaded_album)) ∅.
Proof.
  destruct (load_images_gives_a_fresh_album sa.build_full_tree pow2_floor "album"
              "a.jpg" ["b.jpg"; "c.jpg"; "d.jpg"; "e.jpg"]%string [] one_page loaded_album
              zeros
              (load_images sa.build_full_tree pow2_floor "album" album_paths [] one_page
                 zeros).2
              (load_images sa.build_full_tree pow2_floor "album" album_paths [] one_page
                 zeros).1.1 sa_accepts_powers_of_two)
    as (_ & _ & Hrows & _ & _ & _ & Hlocks & _); [vm_compute; reflexivity|].
  split; [exact Hrows|exact Hlocks].
Defined.

(** ** The default configuration of a loaded folder *)

Lemma is_power_of_two_pow2 (k : Z) : 0 <= k -> sa.is_power_of_two (2 ^ k) = true.
Proof.
  intros Hk. unfold sa.is_power_of_two.
  assert (0 < 2 ^ k) by (apply Z.pow_pos_nonneg; lia).
  apply andb_true_iff. split; [by apply Z.ltb_lt|]. apply Z.eqb_eq.
  replace (2 ^ k - 1) with (Z.ones k) by (rewrite Z.ones_equiv; lia).
  rewrite Z.land_ones by done. apply Z_mod_same_full.
Qed.

Lemma is_power_of_two_double (p : Z) :
  sa.is_power_of_two p = true -> sa.is_power_of_two (p * 2) = true.
Proof.
  intros Hp. rewrite <- (is_power_of_two_log2 p Hp).
  replace (2 ^ Z.log2 p * 2) with (2 ^ (Z.log2 p + 1))
    by (rewrite Z.pow_add_r by (try apply Z.log2_nonneg; lia); lia).
  apply is_power_of_two_pow2. pose proof (Z.log2_nonneg p). lia.
Qed.

Lemma is_power_of_two_between (p n : Z) :
  sa.is_power_of_two p = true -> sa.is_power_of_two n = true ->
  p <= n < 2 * p -> n = p.
Proof.
  intros Hp Hn Hbetween.
  rewrite <- (is_power_of_two_log2 p Hp), <- (is_power_of_two_log2 n Hn).
  f_equal. apply Z.log2_unique; [apply Z.log2_nonneg|].
  rewrite Z.pow_succ_r by apply Z.log2_nonneg.
  rewrite (is_power_of_two_log2 p Hp). lia.
Qed.

Lemma default_slots_spec (lp : Z -> Z) (n : Z) :
  largest_power_of_two_leq_spec lp n ->
  sa.is_power_of_two (default_slots lp n) = true ∧
  n <= default_slots lp n ∧
  default_slots lp n < 2 * n ∧
  (sa.is_power_of_two n = false -> n < default_slots lp n).
Proof.
  intros [Hp Hbetween]. unfold default_slots.
  pose proof (is_power_of_two_pos _ Hp) as Hpos.
  destruct (lp n <? n) eqn:Hlt.
  - apply Z.ltb_lt in Hlt. split; [by apply is_power_of_two_double|]. lia.
  - apply Z.ltb_ge in Hlt. assert (lp n = n) as Heq by lia.
    split; [done|]. split; [lia|]. split; [lia|].
    rewrite Heq in Hp. congruence.
Qed.

Lemma is_digit_not_comma (c : ascii) : is_digit c = true -> Ascii.eqb c "," = false.
Proof. destruct c as [[] [] [] [] [] [] [] []]; by vm_compute. Qed.

Lemma contains_comma_digits (s : string) :
  all_digits s = true -> contains_char "," s = false.
Proof.
  induction s as [|c r IH]; simpl; [done|].
  intros [Hc Hr]%andb_true_iff. by rewrite (is_digit_not_comma c Hc), (IH Hr).
Qed.

Lemma py_str_pos_digits (v : Z) :
  0 < v -> all_digits (py_str v) = true ∧ is_empty (py_str v) = false.
Proof.
  intros Hv. destruct v as [|p|p]; [lia| |lia].
  unfold py_str. simpl.
  destruct (string_of_uint_head p) as (c & r & Hs & Hc & Hr).
  pose proof (all_digits_string_of_uint (Pos.to_uint p)) as Hall.
  pose proof (Unsigned.to_uint_nonnil p) as Hne.
  destruct (Pos.to_uint p) eqn:Hu; try done; simpl in *; by rewrite ?Hs in *.
Qed.

(** The text [str(v)] of a positive [v] is read back in uniform mode. *)
Lemma read_page_counts_py_str (s : AlbumWindow) (v : Z) :
  0 < v -> page_config_edit s = py_str v ->
  read_page_counts s = (s, Ok (replicate (Z.to_nat (num_pages_spin s)) v)).
Proof.
  intros Hv Htext. destruct (py_str_pos_digits v Hv) as [Hall Hne].
  unfold read_page_counts. rewrite Htext.
  unfold strip. rewrite lstrip_digits, rstrip_digits by done.
  rewrite contains_comma_digits, Hne by done.
  pose proof (py_int_py_str v) as Hint. unfold py_int, strip in Hint.
  rewrite lstrip_digits, rstrip_digits in Hint by done.
  pose proof (py_int_py_str v) as Hint2.
  by rewrite Hint2.
Qed.

Lemma validate_powers_replicate (k : nat) (v : Z) :
  sa.is_power_of_two v = true -> validate_powers (replicate k v) = Ok (replicate k v).
Proof.
  intros Hv. unfold validate_powers.
  replace (forallb sa.is_power_of_two (replicate k v)) with true; [done|].
  symmetry. induction k as [|k IH]; simpl; [done|]. by rewrite Hv, IH.
Qed.

Lemma page_counts_of_py_str (s : AlbumWindow) (v : Z) :
  sa.is_power_of_two v = true -> page_config_edit s = py_str v ->
  1 <= num_pages_spin s ->
  page_counts_of s = Some (replicate (Z.to_nat (num_pages_spin s)) v).
Proof.
  intros Hv Htext Hspin. pose proof (is_power_of_two_pos v Hv) as Hpos.
  unfold page_counts_of. rewrite parse_page_config_snd.
  rewrite (read_page_counts_py_str s v Hpos Htext). simpl.
  rewrite validate_powers_replicate by done. unfold fallback_counts.
  destruct (Z.to_nat (num_pages_spin s)) as [|k] eqn:Hk; [lia|]. done.
Qed.

Lemma elem_of_py_slice_head (pool : list Z) (count : Z) (x : Z) :
  len pool <= count -> x ∈ pool -> x ∈ py_slice pool 0 (Z.min (0 + count) (len pool)).
Proof.
  intros Hfit Hx. rewrite py_slice_nonneg by (unfold len in *; lia).
  unfold len in *.
  replace (Z.to_nat (Z.min (Z.min (0 + count) (Z.of_nat (length pool)))
                       (Z.of_nat (length pool)))
           - Z.to_nat (Z.min 0 (Z.of_nat (length pool))))%nat
    with (length pool) by lia.
  replace (Z.to_nat (Z.min 0 (Z.of_nat (length pool)))) with 0%nat by lia.
  by rewrite drop_0, firstn_all.
Qed.

(** X17. The default configuration of a freshly loaded folder, given that
    [sa.largest_power_of_two_leq] returns the power of two it is named
    after: as many pages as the page spin box shows, each with the least
    power of two of slots that holds all the images, which is less than
    twice their number; the first page shows every image. *)
Theorem load_images_default_configuration (build_full_tree : Builder) (lp : Z -> Z)
    (folder file : string) (files : list string) (loaded : list SnapshotData)
    (s s' : AlbumWindow) (g g' : Rng) (o : outcome) :
  accepts_powers_of_two build_full_tree ->
  largest_power_of_two_leq_spec lp (len (file :: files)) ->
  1 <= num_pages_spin s ->
  load_images build_full_tree lp folder (file :: files) loaded s g = (o, s', g') ->
  sa.is_power_of_two (default_slots lp (len (file :: files))) = true ∧
  len (file :: files) <= default_slots lp (len (file :: files))
    < 2 * len (file :: files) ∧
  length (pages_roots s') = Z.to_nat (num_pages_spin s) ∧
  Forall (fun perm => len perm = default_slots lp (len (file :: files))) (pages_perms s') ∧
  ∃ perm, pages_perms s' !! 0%nat = Some perm ∧
          ∀ x, 0 <= x < len (file :: files) -> x ∈ perm.
Proof.
  intros Hbuild Hlp Hspin. rewrite load_images_cons.
  destruct (default_slots_spec lp _ Hlp) as (Hpow & Hge & Hlt & _).
  set (v := default_slots lp (len (file :: files))) in *.
  set (s0 := prepared lp folder (file :: files) loaded s).
  destruct (prepared_fields lp folder (file :: files) loaded s)
    as (Hpaths & _ & _ & _ & _ & _ & Hroots & _ & _ & Hsp & Htext & _).
  fold s0 in Hpaths, Hroots, Hsp, Htext. fold v in Htext.
  assert (Himg : image_paths s0 ≠ []) by (by rewrite Hpaths).
  pose proof (init_trees_first_run build_full_tree s0 g Hbuild Himg Hroots) as Hdone.
  destruct (init_trees build_full_tree s0 g) as [[o1 s1] g1] eqn:Hrun.
  simpl in Hdone. subst o1. simpl. intros [= <- <- <-]. simpl.
  destruct (init_trees_pool _ _ _ _ _ Hrun)
    as (counts & pool & Hcounts & _ & _ & Hpool & Hsliced & Hlen & _).
  rewrite (page_counts_of_py_str s0 v Hpow Htext) in Hcounts by (rewrite Hsp; lia).
  injection Hcounts as <-.
  split; [done|]. split; [done|].
  split; [by rewrite Hlen, length_replicate|].
  split.
  { pose proof (sliced_lengths _ _ _ _ Hsliced) as Hall.
    apply Forall2_flip in Hall. eapply Forall2_Forall_l; [exact Hall|].
    apply Forall_forall. intros c Hc%elem_of_replicate. intros perm ->. by destruct Hc. }
  destruct (Z.to_nat (num_pages_spin s)) as [|k] eqn:Hk; [lia|].
  simpl in Hsliced. inversion Hsliced as [|? ? ? padding perms Hpad Hwhen Hl Hrest]; subst.
  eexists. split; [done|]. intros x Hx.
  apply elem_of_app. left.
  assert (Hpoollen : len pool = len (file :: files)).
  { unfold len. apply Permutation_length in Hpool.
    rewrite length_fmap, length_seq, Hpaths in Hpool. by rewrite Hpool. }
  apply elem_of_py_slice_head; [lia|].
  eapply elem_of_index_pool; [done|]. rewrite Hpaths. unfold len in Hx. lia.
Qed.

Lemma pow2_floor_spec_5 : largest_power_of_two_leq_spec pow2_floor 5.
Proof. split; [reflexivity|]. vm_compute. split; discriminate || reflexivity. Qed.

Lemma load_images_default_configuration_witness :
  ∃ perm, pages_perms loaded_album !! 0%nat = Some perm ∧
          ∀ x, 0 <= x < 5 -> x ∈ perm.
Proof.
  apply (load_images_default_configuration sa.build_full_tree pow2_floor "album"
           "a.jpg" ["b.jpg"; "c.jpg"; "d.jpg"; "e.jpg"]%string [] one_page loaded_album
           zeros
           (load_images sa.build_full_tree pow2_floor "album" album_paths [] one_page
              zeros).2
           (load_images sa.build_full_tree pow2_floor "album" album_paths [] one_page
              zeros).1.1 sa_accepts_powers_of_two pow2_floor_spec_5);
    [vm_compute; discriminate | vm_compute; reflexivity].
Defined.

(** ** The first optimisation of a loaded folder *)

Lemma builds_as_asked_accepts (build_full_tree : Builder) :
  builds_as_asked build_full_tree -> accepts_powers_of_two build_full_tree.
Proof. intros Hb count seed Hc. destruct (Hb count seed Hc) as (n & Hn & _). by exists n. Qed.

Lemma build_roots_leaf_counts (build_full_tree : Builder) (i : Z) (page_counts : list Z)
    (roots : list (option Node)) :
  builds_as_asked build_full_tree ->
  Forall (fun c => sa.is_power_of_two c = true) page_counts ->
  build_roots build_full_tree i page_counts = Ok roots ->
  leaf_count <$> roots = page_counts.
Proof.
  intros Hb Hall. revert i roots.
  induction Hall as [|c counts Hc Hall IH]; intros i roots; simpl.
  - by intros [= <-].
  - destruct (Hb c (42 + i) Hc) as (n & Hn & Hleaf). rewrite Hn. simpl.
    destruct (build_roots build_full_tree (i + 1) counts) as [rest|e] eqn:Hrest; [|done].
    simpl. intros [= <-]. rewrite fmap_cons, Hleaf. f_equal. by eapply IH.
Qed.

Lemma rebuild_roots_accepts (build_full_tree : Builder) (page_counts : list Z) (g : Rng) :
  accepts_powers_of_two build_full_tree ->
  Forall (fun c => sa.is_power_of_two c = true) page_counts ->
  ∃ roots g1, rebuild_roots build_full_tree page_counts g = Ok (roots, g1).
Proof.
  intros Hb Hall. revert g.
  induction Hall as [|c counts Hc Hall IH]; intros g.
  - by eexists _, _.
  - rewrite rebuild_roots_cons.
    destruct (random_randint 0 1000000 g) as [seed g2].
    destruct (Hb c seed Hc) as [n Hn]. destruct (IH g2) as (roots & g1 & Hr).
    simpl. rewrite Hn. simpl. rewrite Hr. simpl. by eexists _, _.
Qed.

Lemma py_sum_replicate (k : nat) (v : Z) : py_sum (replicate k v) = Z.of_nat k * v.
Proof. induction k as [|k IH]; simpl; [done|]. rewrite IH. lia. Qed.

Lemma locked_indices_replicate_empty (k : nat) : locked_indices (replicate k ∅) = ∅.
Proof.
  apply set_eq. intros x. rewrite elem_of_locked_indices. split; [|set_solver].
  intros (d & Hd & Hx). apply elem_of_replicate in Hd as [-> _].
  apply elem_of_lock_values in Hx as [i Hi]. by rewrite lookup_empty in Hi.
Qed.

Lemma List_filter_all {A : Type} (f : A -> bool) (l : list A) :
  Forall (fun x => f x = true) l -> List.filter f l = l.
Proof. induction 1 as [|x l Hx Hall IH]; simpl; [done|]. by rewrite Hx, IH. Qed.

Lemma fresh_album_selection (s : AlbumWindow) (n k : nat) :
  image_list s = fresh_rows n -> pages_locks s = replicate k ∅ ->
  mandatory_indices s = ∅ ∧ len (optional_indices s) = Z.of_nat n.
Proof.
  intros Hrows Hlocks. split.
  - apply set_eq. intros x. rewrite elem_of_mandatory_indices.
    rewrite Hlocks, locked_indices_replicate_empty, Hrows. split; [|set_solver].
    intros [H|(e & He & Hm & _)]; [done|].
    unfold fresh_rows in He. apply list_elem_of_fmap in He as (i & -> & _). done.
  - unfold optional_indices. rewrite Hlocks, locked_indices_replicate_empty, Hrows.
    rewrite List_filter_all.
    + unfold len, fresh_rows. by rewrite !length_fmap, length_seq.
    + apply Forall_forall. intros e He.
      unfold fresh_rows in He. apply list_elem_of_fmap in He as (i & -> & _). simpl.
      rewrite bool_decide_eq_false_2; [done|]. set_solver.
Qed.

(** X18. The first optimisation after loading a folder, given a builder
    that returns trees of the size asked for and
    [sa.largest_power_of_two_leq] as named: it is dispatched only when the
    number of images is a power of two and the page spin box shows 1; in
    every other case the default configuration has more slots than there
    are images and the request is refused as under-supplied. *)
Theorem first_optimization_after_load (build_full_tree : Builder) (lp : Z -> Z)
    (folder file : string) (files : list string) (loaded : list SnapshotData)
    (s s' : AlbumWindow) (g g' g2 : Rng) (o : outcome) :
  builds_as_asked build_full_tree ->
  largest_power_of_two_leq_spec lp (len (file :: files)) ->
  1 <= num_pages_spin s ->
  load_images build_full_tree lp folder (file :: files) loaded s g = (o, s', g') ->
  (start_optimization build_full_tree s' g2).1.1 =
    if sa.is_power_of_two (len (file :: files)) && (num_pages_spin s =? 1)
    then Done else UnderSupply.
Proof.
  intros Hb Hlp Hspin. rewrite load_images_cons.
  pose proof (builds_as_asked_accepts _ Hb) as Hbuild.
  destruct (default_slots_spec lp _ Hlp) as (Hpow & Hge & Hlt & Hnot).
  set (n := len (file :: files)) in *.
  set (v := default_slots lp n) in *.
  set (s0 := prepared lp folder (file :: files) loaded s).
  destruct (prepared_fields lp folder (file :: files) loaded s)
    as (Hpaths & _ & Hrows & _ & _ & _ & Hroots & _ & Hlocks & Hsp & Htext & _).
  fold s0 in Hpaths, Hrows, Hroots, Hlocks, Hsp, Htext. fold n v in Htext.
  assert (Himg : image_paths s0 ≠ []) by (by rewrite Hpaths).
  pose proof (init_trees_first_run build_full_tree s0 g Hbuild Himg Hroots) as Hdone.
  destruct (init_trees build_full_tree s0 g) as [[o1 s1] g1] eqn:Hrun.
  simpl in Hdone. subst o1. simpl. intros [= <- <- <-].
  destruct (init_trees_Done _ _ _ _ _ Hrun)
    as (counts & _ & Hcounts & Hbuilt & _ & Hkeep & _).
  destruct (init_trees_pool _ _ _ _ _ Hrun)
    as (counts' & pool & Hcounts' & _ & _ & _ & Hsliced & _).
  destruct (init_trees_Done_fields _ _ _ _ _ Hrun) as (_ & _ & _ & _ & Hr & _).
  rewrite Hcounts in Hcounts'. injection Hcounts' as <-.
  pose proof (page_counts_of_powers _ _ Hcounts) as Hpowers.
  rewrite (page_counts_of_py_str s0 v Hpow Htext) in Hcounts by (rewrite Hsp; lia).
  injection Hcounts as <-.
  set (k := Z.to_nat (num_pages_spin s)) in *.
  assert (Hk : (1 <= k)%nat) by (subst k; lia).
  assert (Hk1 : num_pages_spin s = 1 -> k = 1%nat) by (subst k; lia).
  assert (Hk2 : num_pages_spin s ≠ 1 -> (2 <= k)%nat) by (subst k; lia).
  clearbody k.
  pose proof (build_roots_leaf_counts _ _ _ _ Hb Hpowers Hbuilt) as Hleaves.
  set (s2 := set_optimize_btn _ s1).
  assert (Hroots2 : pages_roots s2 = pages_roots s1) by done.
  assert (Hperms2 : pages_perms s2 = pages_perms s1) by done.
  assert (Hlocks2 : pages_locks s2 = replicate k ∅).
  { change (pages_locks s2) with (pages_locks s1).
    by rewrite Hkeep, Hlocks, keep_locks_nil, length_replicate. }
  assert (Hrows2 : image_list s2 = fresh_rows (length (file :: files))).
  { change (image_list s2) with (image_list s1). by rewrite Hr, Hrows. }
  destruct (fresh_album_selection s2 _ _ Hrows2 Hlocks2) as [Hman Hopt].
  change (Z.of_nat (length (file :: files))) with n in Hopt.
  assert (Hne : pages_roots s2 ≠ []).
  { rewrite Hroots2. intros E. rewrite E in Hleaves. destruct k; [lia|done]. }
  assert (Hpne : pages_perms s2 ≠ []).
  { rewrite Hperms2. intros E. rewrite E in Hsliced. destruct k; [lia|].
    simpl in Hsliced. inversion Hsliced. }
  rewrite start_optimization_ready by done.
  rewrite Hroots2, Hleaves.
  assert (Hok : ∃ roots g3,
             (if has_locks (pages_roots s1) then Ok (pages_roots s1, g2)
              else rebuild_roots build_full_tree (replicate k v) g2) = Ok (roots, g3)).
  { destruct (has_locks (pages_roots s1)); [by eexists _, _|].
    by apply rebuild_roots_accepts. }
  destruct Hok as (roots & g3 & ->).
  unfold select_and_dispatch.
  change (mandatory_indices (set_pages_roots roots s2)) with (mandatory_indices s2).
  change (optional_indices (set_pages_roots roots s2)) with (optional_indices s2).
  change (pages_locks (set_pages_roots roots s2)) with (pages_locks s2).
  rewrite Hman, size_empty, Hopt, py_sum_replicate, Hlocks2, !length_replicate.
  fold n.
  pose proof (is_power_of_two_pos v Hpow) as Hvpos.
  assert (Hn : 1 <= n) by (subst n; unfold len; simpl; lia).
  replace (Z.of_nat k * v <? Z.of_nat 0%nat) with false
    by (symmetry; apply Z.ltb_ge; nia).
  destruct (sa.is_power_of_two n) eqn:Hpn; simpl.
  - destruct (num_pages_spin s =? 1) eqn:H1.
    + apply Z.eqb_eq in H1. rewrite (Hk1 H1) in *.
      assert (v = n) as Hvn.
      { destruct Hlp as [Hp Hbetween].
        pose proof (is_power_of_two_between _ _ Hp Hpn Hbetween) as Heq.
        subst v. unfold default_slots.
        destruct (lp n <? n) eqn:Hc; [apply Z.ltb_lt in Hc; lia|lia]. }
      rewrite Hvn.
      replace (Z.of_nat 0 + n <? Z.of_nat 1 * n) with false
        by (symmetry; apply Z.ltb_ge; lia).
      rewrite bool_decide_eq_false_2 by lia. done.
    + apply Z.eqb_neq in H1. specialize (Hk2 H1).
      replace (Z.of_nat 0 + n <? Z.of_nat k * v) with true
        by (symmetry; apply Z.ltb_lt; nia).
      done.
  - specialize (Hnot eq_refl).
    replace (Z.of_nat 0 + n <? Z.of_nat k * v) with true
      by (symmetry; apply Z.ltb_lt; nia).
    done.
Qed.

Lemma first_optimization_after_load_witness :
  (start_optimization sa.build_full_tree loaded_album zeros).1.1 = UnderSupply.
Proof.
  apply (first_optimization_after_load sa.build_full_tree pow2_floor "album"
           "a.jpg" ["b.jpg"; "c.jpg"; "d.jpg"; "e.jpg"]%string [] one_page loaded_album
           zeros
           (load_images sa.build_full_tree pow2_floor "album" album_paths [] one_page
              zeros).2
           zeros
           (load_images sa.build_full_tree pow2_floor "album" album_paths [] one_page
              zeros).1.1);
    [intros count seed Hc;
     destruct (build_full_tree_leaves count seed Hc) as (n & Hn & _ & Hl); by exists n
    | apply pow2_floor_spec_5 | vm_compute; discriminate | vm_compute; reflexivity].
Defined.

(** ** Choosing a file name *)

Lemma append_inj_l (p a b : string) : (p ++ a = p ++ b)%string -> a = b.
Proof. induction p as [|c p IH]; simpl; [done|]. intros [= H]. by apply IH. Qed.

Lemma string_length_append (a b : string) :
  String.length (a ++ b) = (String.length a + String.length b)%nat.
Proof. induction a as [|c a IH]; simpl; [done|]. by rewrite IH. Qed.

Lemma append_inj_r (a b s : string) : (a ++ s = b ++ s)%string -> a = b.
Proof.
  intros Heq.
  assert (Hlen : String.length a = String.length b).
  { apply (f_equal String.length) in Heq. rewrite !string_length_append in Heq. lia. }
  revert b Heq Hlen. induction a as [|c a IH]; intros [|d b]; simpl; try done.
  intros [= -> Heq] [= Hlen]. f_equal. by apply IH.
Qed.

Lemma py_str_inj (i j : Z) : py_str i = py_str j -> i = j.
Proof.
  intros Heq. pose proof (py_int_py_str i) as Hi.
  rewrite Heq, py_int_py_str in Hi. congruence.
Qed.

Lemma snapshot_name_inj (base_name : string) (i j : Z) :
  snapshot_name base_name i = snapshot_name base_name j -> i = j.
Proof.
  unfold snapshot_name. intros H%append_inj_l%append_inj_l%append_inj_r.
  by apply py_str_inj.
Qed.

Lemma pdf_name_inj (base_name : string) (i j : Z) :
  pdf_name base_name i = pdf_name base_name j -> i = j.
Proof.
  unfold pdf_name. intros H%append_inj_l%append_inj_l%append_inj_r.
  by apply py_str_inj.
Qed.

Lemma first_free_Some (name : Z -> string) (existing : list string) (fuel : nat)
    (i k : Z) :
  first_free name existing fuel i = Some k ->
  i <= k < i + Z.of_nat fuel ∧ (name k ∉ existing) ∧
  ∀ j, i <= j < k -> name j ∈ existing.
Proof.
  revert i. induction fuel as [|fuel IH]; intros i; simpl; [done|].
  destruct (bool_decide (name i ∈ existing)) eqn:Hi.
  - apply bool_decide_eq_true in Hi. intros (Hk & Hfree & Hbelow)%IH.
    split; [lia|]. split; [done|]. intros j Hj.
    destruct (decide (j = i)) as [->|Hne]; [done|]. apply Hbelow. lia.
  - apply bool_decide_eq_false in Hi. intros [= <-].
    split; [lia|]. split; [done|]. intros j Hj. lia.
Qed.

Lemma first_free_None (name : Z -> string) (existing : list string) (fuel : nat) (i : Z) :
  first_free name existing fuel i = None ->
  ∀ j, i <= j < i + Z.of_nat fuel -> name j ∈ existing.
Proof.
  revert i. induction fuel as [|fuel IH]; intros i; simpl; [intros _ j Hj; lia|].
  destruct (bool_decide (name i ∈ existing)) eqn:Hi; [|done].
  apply bool_decide_eq_true in Hi. intros Hnone j Hj.
  destruct (decide (j = i)) as [->|Hne]; [done|]. apply (IH _ Hnone). lia.
Qed.

(** With injective names the search ends within one round more than the
    folder has entries. *)
Lemma first_free_found (name : Z -> string) (existing : list string) (i : Z) :
  (∀ a b, name a = name b -> a = b) ->
  ∃ k, first_free name existing (S (length existing)) i = Some k.
Proof.
  intros Hinj.
  destruct (first_free name existing (S (length existing)) i) as [k|] eqn:Hrun;
    [by exists k|].
  exfalso. pose proof (first_free_None _ _ _ _ Hrun) as Hall.
  assert (Hnd : NoDup (name <$> seqZ i (Z.of_nat (S (length existing))))).
  { apply NoDup_fmap_2_strong; [|apply NoDup_seqZ]. intros a b _ _. apply Hinj. }
  assert (Hle : (length (name <$> seqZ i (Z.of_nat (S (length existing))))
                 <= length existing)%nat).
  { apply submseteq_length, NoDup_submseteq; [done|].
    intros x (j & -> & Hj)%list_elem_of_fmap. apply elem_of_seqZ in Hj. by apply Hall. }
  rewrite length_fmap, length_seqZ in Hle. lia.
Qed.

(** X19. The file name of a new snapshot, and of a new PDF, is found
    within one round more than the folder has entries; it is the one with
    the least number from 1 on that is not taken.  No existing file is
    overwritten, and the number of a deleted file is used again. *)
Theorem file_name_is_the_first_free (base_name : string) (existing : list string) :
  (∃ i, first_free (snapshot_name base_name) existing (S (length existing)) 1 = Some i ∧
        1 <= i <= Z.of_nat (length existing) + 1 ∧
        (snapshot_name base_name i ∉ existing) ∧
        ∀ j, 1 <= j < i -> snapshot_name base_name j ∈ existing) ∧
  (∃ i, first_free (pdf_name base_name) existing (S (length existing)) 1 = Some i ∧
        1 <= i <= Z.of_nat (length existing) + 1 ∧
        (pdf_name base_name i ∉ existing) ∧
        ∀ j, 1 <= j < i -> pdf_name base_name j ∈ existing).
Proof.
  split.
  - destruct (first_free_found (snapshot_name base_name) existing 1
                (snapshot_name_inj base_name)) as [i Hi].
    exists i. split; [done|]. apply first_free_Some in Hi as (Hr & Hfree & Hbelow).
    split; [lia|done].
  - destruct (first_free_found (pdf_name base_name) existing 1
                (pdf_name_inj base_name)) as [i Hi].
    exists i. split; [done|]. apply first_free_Some in Hi as (Hr & Hfree & Hbelow).
    split; [lia|done].
Qed.

(** ** Crop states and forced aspect ratios *)

Lemma should_crop_toggle (img_idx j : Z) (s : AlbumWindow) :
  should_crop (toggle_crop_state img_idx s) j
  = if bool_decide (j = img_idx) then negb (should_crop s j) else should_crop s j.
Proof.
  unfold should_crop, toggle_crop_state. simpl.
  destruct (bool_decide (j = img_idx)) eqn:Hj.
  - apply bool_decide_eq_true in Hj as ->. by rewrite lookup_insert_eq.
  - apply bool_decide_eq_false in Hj. by rewrite lookup_insert_ne.
Qed.

(** X20. The context menu of a leaf acts on the image the leaf shows:
    its crop action flips the crop state of that image and of no other,
    so every leaf that shows the same image changes with it; picking
    nothing changes nothing.  With a page or a leaf the window does not
    have, the event is dropped. *)
Theorem context_menu_toggles_the_image_shown (page_idx leaf_id : Z)
    (action : MenuAction) (s : AlbumWindow) :
  0 <= page_idx -> 0 <= leaf_id ->
  match pages_perms s !! Z.to_nat page_idx with
  | None => contextMenuEvent page_idx leaf_id action s = Ok s
  | Some perm =>
      match perm !! Z.to_nat leaf_id with
      | None => contextMenuEvent page_idx leaf_id action s = Ok s
      | Some img_idx =>
          contextMenuEvent page_idx leaf_id action s =
            Ok (match action with
                | ToggleAction => toggle_crop_state img_idx s
                | LockAspectAction => toggle_aspect_lock img_idx s
                | NoAction => s
                end) ∧
          ∀ j, should_crop (toggle_crop_state img_idx s) j
               = if bool_decide (j = img_idx) then negb (should_crop s j)
                 else should_crop s j
      end
  end.
Proof.
  intros Hp Hl. unfold contextMenuEvent.
  destruct (pages_perms s !! Z.to_nat page_idx) as [perm|] eqn:Hperm.
  - pose proof (lookup_lt_Some _ _ _ Hperm) as Hlt.
    replace (len (pages_perms s) <=? page_idx) with false
      by (symmetry; apply Z.leb_gt; unfold len; lia).
    rewrite (py_index_nonneg _ _ _ Hp Hperm). simpl.
    destruct (perm !! Z.to_nat leaf_id) as [img_idx|] eqn:Himg.
    + pose proof (lookup_lt_Some _ _ _ Himg) as Hlt2.
      replace (len perm <=? leaf_id) with false
        by (symmetry; apply Z.leb_gt; unfold len; lia).
      rewrite (py_index_nonneg _ _ _ Hl Himg). simpl.
      split; [by destruct action|]. intros j. apply should_crop_toggle.
    + apply lookup_ge_None in Himg.
      replace (len perm <=? leaf_id) with true
        by (symmetry; apply Z.leb_le; unfold len; lia).
      done.
  - apply lookup_ge_None in Hperm.
    replace (len (pages_perms s) <=? page_idx) with true
      by (symmetry; apply Z.leb_le; unfold len; lia).
    done.
Qed.

Lemma context_menu_toggles_the_image_shown_witness :
  contextMenuEvent 0 1 ToggleAction one_page = Ok (toggle_crop_state 1 one_page) ∧
  ∀ j, should_crop (toggle_crop_state 1 one_page) j
       = if bool_decide (j = 1) then negb (should_crop one_page j)
         else should_crop one_page j.
Proof.
  exact (context_menu_toggles_the_image_shown 0 1 ToggleAction one_page
           ltac:(lia) ltac:(lia)).
Defined.

Lemma toggle_aspect_lock_forced (img_idx : Z) (s : AlbumWindow) :
  img_idx ∈ forced_aspect_ratios s ->
  toggle_aspect_lock img_idx s
  = set_forced_aspect_ratios (forced_aspect_ratios s ∖ {[img_idx]}) s.
Proof. intros Hin. unfold toggle_aspect_lock. by rewrite bool_decide_eq_true_2. Qed.

Lemma toggle_aspect_lock_free (img_idx : Z) (s : AlbumWindow) :
  img_idx ∉ forced_aspect_ratios s ->
  toggle_aspect_lock img_idx s
  = set_image_crop_states (<[img_idx := false]> (image_crop_states s))
      (set_forced_aspect_ratios ({[img_idx]} ∪ forced_aspect_ratios s) s).
Proof. intros Hin. unfold toggle_aspect_lock. by rewrite bool_decide_eq_false_2. Qed.

(** X21. Locking the aspect ratio of an image and unlocking it again, in
    either order, restores the set of forced images but not the crop
    state: the image is left fit, whatever it was before.  No other
    image is touched. *)
Theorem aspect_lock_twice_leaves_the_image_fit (img_idx : Z) (s : AlbumWindow) :
  forced_aspect_ratios (toggle_aspect_lock img_idx (toggle_aspect_lock img_idx s))
  = forced_aspect_ratios s ∧
  should_crop (toggle_aspect_lock img_idx (toggle_aspect_lock img_idx s)) img_idx = false ∧
  ∀ j, j ≠ img_idx ->
       should_crop (toggle_aspect_lock img_idx (toggle_aspect_lock img_idx s)) j
       = should_crop s j.
Proof.
  destruct (decide (img_idx ∈ forced_aspect_ratios s)) as [Hin|Hin].
  - rewrite (toggle_aspect_lock_forced img_idx s Hin).
    rewrite toggle_aspect_lock_free
      by (simpl; rewrite elem_of_difference, elem_of_singleton; by intros [_ Hne]).
    unfold should_crop. simpl. split; [|split].
    + apply set_eq. intros x.
      rewrite elem_of_union, elem_of_difference, elem_of_singleton.
      destruct (decide (x = img_idx)) as [->|Hne]; tauto.
    + by rewrite lookup_insert_eq.
    + intros j Hj. by rewrite lookup_insert_ne.
  - rewrite (toggle_aspect_lock_free img_idx s Hin).
    rewrite toggle_aspect_lock_forced
      by (simpl; apply elem_of_union_l; by apply elem_of_singleton).
    unfold should_crop. simpl. split; [|split].
    + apply set_eq. intros x.
      rewrite elem_of_difference, elem_of_union, elem_of_singleton.
      destruct (decide (x = img_idx)) as [->|Hne]; tauto.
    + by rewrite lookup_insert_eq.
    + intros j Hj. by rewrite lookup_insert_ne.
Qed.

Lemma lookup_foldl_insert {V : Type} (v : V) (d : gmap Z V) (n : nat) (j : Z) :
  foldl (fun d (i : nat) => <[Z.of_nat i := v]> d) d (seq 0 n) !! j
  = if bool_decide (0 <= j < Z.of_nat n) then Some v else d !! j.
Proof.
  induction n as [|n IH].
  - simpl. rewrite bool_decide_eq_false_2 by lia. done.
  - rewrite seq_S, foldl_app. simpl.
    destruct (decide (j = Z.of_nat n)) as [->|Hne].
    + rewrite lookup_insert_eq, bool_decide_eq_true_2 by lia. done.
    + rewrite lookup_insert_ne by done. rewrite IH.
      destruct (bool_decide (0 <= j < Z.of_nat n)) eqn:Hj.
      * apply bool_decide_eq_true in Hj. rewrite bool_decide_eq_true_2 by lia. done.
      * apply bool_decide_eq_false in Hj. rewrite bool_decide_eq_false_2 by lia. done.
Qed.

Lemma foldl_insert_over {V : Type} (v w : V) (d : gmap Z V) (n : nat) :
  foldl (fun d (i : nat) => <[Z.of_nat i := v]> d)
    (foldl (fun d (i : nat) => <[Z.of_nat i := w]> d) d (seq 0 n)) (seq 0 n)
  = foldl (fun d (i : nat) => <[Z.of_nat i := v]> d) d (seq 0 n).
Proof.
  apply map_eq. intros j. rewrite !lookup_foldl_insert.
  by destruct (bool_decide (0 <= j < Z.of_nat n)).
Qed.

(** X22. "Crop all" and "fit all" set the crop state of every loaded
    image, forced or not, and of nothing else; they leave the set of
    forced images alone, and of two of them in a row the last one wins. *)
Theorem crop_all_sets_every_loaded_image (s : AlbumWindow) :
  (∀ j, should_crop (crop_all s) j
        = if bool_decide (0 <= j < len (image_paths s)) then true else should_crop s j) ∧
  (∀ j, should_crop (uncrop_all s) j
        = if bool_decide (0 <= j < len (image_paths s)) then false else should_crop s j) ∧
  forced_aspect_ratios (crop_all s) = forced_aspect_ratios s ∧
  forced_aspect_ratios (uncrop_all s) = forced_aspect_ratios s ∧
  crop_all (uncrop_all s) = crop_all s ∧
  uncrop_all (crop_all s) = uncrop_all s.
Proof.
  split_and!; try done.
  - intros j. unfold should_crop, crop_all. simpl. rewrite lookup_foldl_insert.
    unfold len. by destruct (bool_decide _).
  - intros j. unfold should_crop, uncrop_all. simpl. rewrite lookup_foldl_insert.
    unfold len. by destruct (bool_decide _).
  - unfold crop_all, uncrop_all. destruct s. simpl. by rewrite foldl_insert_over.
  - unfold crop_all, uncrop_all. destruct s. simpl. by rewrite foldl_insert_over.
Qed.

(** ** The pool and mandatory ticks *)

Lemma pool_setChecked_false (e : ImageListEntry) :
  (mandatory_cb e = true -> pool_cb e = true) ->
  pool_setChecked false e = mkEntry (entry_idx e) false false.
Proof.
  intros Hinv. unfold pool_setChecked. destruct e as [idx [|] m]; simpl in *; [done|].
  destruct m; [by specialize (Hinv eq_refl)|done].
Qed.

Lemma pool_setChecked_true (e : ImageListEntry) :
  pool_setChecked true e = mkEntry (entry_idx e) true (mandatory_cb e).
Proof. unfold pool_setChecked. by destruct e as [idx [|] m]. Qed.

Lemma select_none_rows (s : AlbumWindow) :
  mandatory_in_pool s ->
  image_list (select_none_images s)
  = (fun e => mkEntry (entry_idx e) false false) <$> image_list s.
Proof.
  intros Hinv. unfold select_none_images. simpl.
  apply list_fmap_ext. intros i e He. apply pool_setChecked_false.
  apply Hinv. by eapply list_elem_of_lookup_2.
Qed.

(** X23. While no row is mandatory without being in the pool, "select
    none" unticks both boxes of every row, so "select all" after it
    brings the pool ticks back but no mandatory tick.  With no row selected
    only locked images are mandatory and none is optional, so an
    optimisation goes through only if the locked images fill every
    slot. *)
Theorem select_none_forgets_mandatory (build_full_tree : Builder)
    (s : AlbumWindow) (g : Rng) :
  mandatory_in_pool s ->
  image_list (select_none_images s)
  = (fun e => mkEntry (entry_idx e) false false) <$> image_list s ∧
  image_list (select_all_images (select_none_images s))
  = (fun e => mkEntry (entry_idx e) true false) <$> image_list s ∧
  mandatory_indices (select_none_images s) = locked_indices (pages_locks s) ∧
  optional_indices (select_none_images s) = [] ∧
  ((start_optimization build_full_tree (select_none_images s) g).1.1 = Done ->
   Z.of_nat (size (locked_indices (pages_locks s)))
   = py_sum (leaf_count <$> pages_roots s)).
Proof.
  intros Hinv. pose proof (select_none_rows s Hinv) as Hrows.
  assert (Hman : mandatory_indices (select_none_images s)
                 = locked_indices (pages_locks s)).
  { apply set_eq. intros x. rewrite elem_of_mandatory_indices, Hrows.
    change (pages_locks (select_none_images s)) with (pages_locks s).
    split; [|by left]. intros [H|(e & He & Hm & _)]; [done|].
    apply list_elem_of_fmap in He as (e' & -> & _). done. }
  assert (Hopt : optional_indices (select_none_images s) = []).
  { unfold optional_indices. rewrite Hrows.
    change (pages_locks (select_none_images s)) with (pages_locks s).
    generalize (image_list s). intros rows.
    induction rows as [|e rows IH]; simpl; [done|exact IH]. }
  split; [done|]. split.
  { unfold select_all_images. simpl. change (image_list s) with (image_list s).
    rewrite <- list_fmap_compose. apply list_fmap_ext. intros i e He. simpl.
    rewrite pool_setChecked_true.
    rewrite pool_setChecked_false by (apply Hinv; by eapply list_elem_of_lookup_2).
    done. }
  split; [done|]. split; [done|].
  intros Hdone.
  destruct (start_optimization build_full_tree (select_none_images s) g)
    as [[o s'] g'] eqn:Hrun.
  simpl in Hdone. subst o.
  destruct (start_optimization_request _ _ _ _ _ Hrun)
    as (w & roots & _ & _ & HM & HT & _).
  rewrite Hman, Hopt in *.
  change (pages_roots (select_none_images s)) with (pages_roots s) in *.
  unfold len in HT. simpl in HT. lia.
Qed.

Lemma select_none_forgets_mandatory_witness :
  image_list (select_all_images (select_none_images all_mandatory)) = album_rows.
Proof.
  destruct (select_none_forgets_mandatory sa.build_full_tree all_mandatory zeros)
    as (_ & Hall & _).
  - intros e He _. apply list_elem_of_In in He. simpl in He.
    destruct He as [<-|[<-|[<-|[<-|[<-|[]]]]]]; reflexivity.
  - rewrite Hall. reflexivity.
Defined.

(** ** Page navigation *)

Lemma navigate_snoc (clicks : list NavClick) (c : NavClick) (s : AlbumWindow) :
  navigate (clicks ++ [c]) s
  = match c with
    | ClickPrev => prev_page (navigate clicks s)
    | ClickNext => next_page (navigate clicks s)
    end.
Proof. unfold navigate. by rewrite foldl_app. Qed.

Lemma navigate_window (clicks : list NavClick) (s : AlbumWindow) :
  navigate clicks s = set_current_page_idx (current_page_idx (navigate clicks s)) s.
Proof.
  induction clicks as [|c clicks IH] using rev_ind; [by destruct s|].
  rewrite navigate_snoc. revert IH. generalize (navigate clicks s). intros s1 ->.
  destruct c; unfold prev_page, next_page; destruct (_ <? _); by destruct s.
Qed.

(** X24. Whatever the sequence of clicks on the two navigation buttons,
    the current page stays a page of the album, and nothing but the
    current page changes.  Going forward and back returns to the page
    left, except from the last page, where going forward does nothing. *)
Theorem navigation_stays_on_a_page (clicks : list NavClick) (s : AlbumWindow) :
  0 <= current_page_idx s < len (pages_roots s) ->
  0 <= current_page_idx (navigate clicks s) < len (pages_roots s) ∧
  navigate clicks s = set_current_page_idx (current_page_idx (navigate clicks s)) s ∧
  prev_page (next_page s)
  = if current_page_idx s <? len (pages_roots s) - 1 then s else prev_page s.
Proof.
  intros Hidx. split; [|split].
  - induction clicks as [|c clicks IH] using rev_ind; [done|].
    rewrite navigate_snoc.
    assert (Hroots : pages_roots (navigate clicks s) = pages_roots s)
      by (by rewrite navigate_window).
    destruct c; unfold prev_page, next_page; rewrite ?Hroots.
    + destruct (0 <? _) eqn:H0; simpl; [apply Z.ltb_lt in H0|]; lia.
    + destruct (_ <? _) eqn:H1; simpl; [apply Z.ltb_lt in H1|]; lia.
  - apply navigate_window.
  - unfold next_page. destruct (_ <? _) eqn:H1; [|done].
    unfold prev_page. simpl.
    replace (0 <? current_page_idx s + 1) with true by (symmetry; apply Z.ltb_lt; lia).
    replace (current_page_idx s + 1 - 1) with (current_page_idx s) by lia.
    by destruct s.
Qed.

Lemma navigation_stays_on_a_page_witness :
  0 <= current_page_idx
         (navigate [ClickNext; ClickNext; ClickNext; ClickPrev]
            (init_trees sa.build_full_tree locked_then_two_pages zeros).1.2)
    < len (pages_roots (init_trees sa.build_full_tree locked_then_two_pages zeros).1.2).
Proof.
  apply (navigation_stays_on_a_page [ClickNext; ClickNext; ClickNext; ClickPrev]
           (init_trees sa.build_full_tree locked_then_two_pages zeros).1.2).
  vm_compute. split; discriminate || reflexivity.
Defined.

(** ** Tree documents *)

Lemma serialize_deserialize_node (data : TreeDoc) :
  has_locked_keys data = true -> serialize_node (deserialize_node data) = data.
Proof.
  revert data. fix IH 1.
  intros [d t i [b|] [l|] [r|]]; simpl; try done;
    rewrite ?andb_true_r, ?andb_true_iff; intros H; destruct_and?;
    rewrite ?IH by done; done.
Qed.

Lemma has_locked_keys_serialize (n : Node) : has_locked_keys (serialize_node n) = true.
Proof.
  revert n. fix IH 1.
  intros [d t i b [l|] [r|]]; simpl; rewrite ?IH; reflexivity.
Qed.

(** X25. A tree survives being written as a document and read back, so
    two trees with the same document are the same tree.  A document is
    reproduced by reading and writing it exactly when every node carries
    the [locked] key; a node without it is read as unlocked. *)
Theorem tree_document_round_trip :
  (∀ root, deserialize_tree (serialize_tree root) = root) ∧
  (∀ root1 root2, serialize_tree root1 = serialize_tree root2 -> root1 = root2) ∧
  (∀ data, serialize_tree (deserialize_tree (Some data)) = Some data
           <-> has_locked_keys data = true) ∧
  (∀ d t i l r,
     node_locked (deserialize_node (mkTreeDoc d t i None l r)) = false).
Proof.
  split_and!.
  - intros [n|]; simpl; [|done]. by rewrite deserialize_serialize_node.
  - intros [n1|] [n2|]; simpl; try done. intros [= H]. f_equal.
    rewrite <- (deserialize_serialize_node n1), <- (deserialize_serialize_node n2).
    by rewrite H.
  - intros data. simpl. split.
    + intros [= H]. rewrite <- H. apply has_locked_keys_serialize.
    + intros H. by rewrite serialize_deserialize_node.
  - done.
Qed.

(** ** What an optimisation request leaves alone *)

Lemma select_and_dispatch_fields (page_counts : list Z) (s1 : AlbumWindow) (g1 : Rng) :
  let r := select_and_dispatch page_counts s1 g1 in
  pages_roots r.1.2 = pages_roots s1 ∧
  pages_perms r.1.2 = pages_perms s1 ∧
  pages_locks r.1.2 = pages_locks s1 ∧
  image_crop_states r.1.2 = image_crop_states s1 ∧
  forced_aspect_ratios r.1.2 = forced_aspect_ratios s1 ∧
  image_list r.1.2 = image_list s1 ∧
  image_paths r.1.2 = image_paths s1 ∧
  page_titles r.1.2 = page_titles s1 ∧
  snapshots r.1.2 = snapshots s1 ∧
  current_page_idx r.1.2 = current_page_idx s1.
Proof.
  unfold select_and_dispatch.
  repeat match goal with
         | |- context [if ?b then _ else _] =>
             lazymatch b with
             | (_ <? Z.of_nat (size _)) => destruct b
             | (_ + _ <? _) => destruct b
             | bool_decide _ => destruct b
             end
         end; simpl; by split_and!.
Qed.

(** X26. An optimisation request, dispatched or refused, never changes
    the permutations, the lock maps, the crop states, the forced set, the
    image list or the titles, and never the number of pages; the trees
    themselves stay the same ones when one of them carries a lock flag. *)
Theorem start_optimization_leaves_the_layout (build_full_tree : Builder)
    (s : AlbumWindow) (g : Rng) :
  pages_perms (start_optimization build_full_tree s g).1.2 = pages_perms s ∧
  pages_locks (start_optimization build_full_tree s g).1.2 = pages_locks s ∧
  image_crop_states (start_optimization build_full_tree s g).1.2 = image_crop_states s ∧
  forced_aspect_ratios (start_optimization build_full_tree s g).1.2
  = forced_aspect_ratios s ∧
  image_list (start_optimization build_full_tree s g).1.2 = image_list s ∧
  page_titles (start_optimization build_full_tree s g).1.2 = page_titles s ∧
  snapshots (start_optimization build_full_tree s g).1.2 = snapshots s ∧
  current_page_idx (start_optimization build_full_tree s g).1.2 = current_page_idx s ∧
  length (pages_roots (start_optimization build_full_tree s g).1.2)
  = length (pages_roots s) ∧
  (has_locks (pages_roots s) = true ->
   pages_roots (start_optimization build_full_tree s g).1.2 = pages_roots s).
Proof.
  unfold start_optimization.
  destruct (bool_decide (pages_roots s = []) || bool_decide (pages_perms s = []));
    [by split_and!|].
  assert (Hroots : ∀ roots g1,
             (if has_locks (pages_roots s) then Ok (pages_roots s, g)
              else rebuild_roots build_full_tree (leaf_count <$> pages_roots s) g)
             = Ok (roots, g1) ->
             length roots = length (pages_roots s) ∧
             (has_locks (pages_roots s) = true -> roots = pages_roots s)).
  { intros roots g1. destruct (has_locks (pages_roots s)).
    - by intros [= <- <-].
    - intros Hbuilt%rebuild_roots_built. apply Forall2_length in Hbuilt.
      rewrite length_fmap in Hbuilt. done. }
  destruct (if has_locks (pages_roots s) then _ else _) as [[roots g1]|e];
    [|by split_and!].
  destruct (Hroots roots g1 eq_refl) as [Hlen Hsame].
  destruct (select_and_dispatch_fields (leaf_count <$> pages_roots s)
              (set_pages_roots roots s) g1)
    as (Hr & Hp & Hl & Hc & Hf & Hi & _ & Ht & Hs & Hx).
  rewrite Hr, Hp, Hl, Hc, Hf, Hi, Ht, Hs, Hx. simpl. by split_and!.
Qed.

(** ** Restoring a damaged snapshot *)




